(** * Music_Json_Tools: the translation service

    A shallow embedding of [getNestedValue], [callCustomApi] and
    [translateJson] of src/services/geminiService.ts, with the parts of the
    JavaScript runtime they call: strings of UTF-16 code units,
    [String.prototype.replace] with its replacement patterns, [JSON.parse],
    [JSON.stringify], property access, and the two regular expressions of
    the JSON recovery step. The network, the client library of the built-in
    provider and the built-in prototypes are a record of functions, [host];
    what a call sends, logs and waits for is a list of events.

    After the service come the chat session of the same file, the settings
    form of src/unnamed/part_000 that edits the settings of the custom
    provider, and the second copy of the service that
    src/components/Settings.tsx holds after its form: it accepts a blank
    header text, wraps a rejected fetch in an Error of its own, and recovers
    the JSON text by index search. *)

From Stdlib Require Import List NArith ZArith Bool Lia Ascii DecimalN.
From Stdlib Require String.
Import ListNotations String.StringSyntax.
Delimit Scope string_scope with string.

Local Open Scope N_scope.

(** ** Strings *)

(** A JavaScript string is a sequence of UTF-16 code units. *)
Definition jsstring : Type := list N.

Module Lit.

(** The bytes of a Rocq string literal (the file is UTF-8). *)
Definition bytes (s : String.string) : list N :=
  map N_of_ascii (String.list_ascii_of_string s).

Definition cont (b : N) : N := N.land b 63.

(** UTF-16 code units of one code point. *)
Definition units (cp : N) : list N :=
  if cp <? 65536 then [cp]
  else [55296 + N.shiftr (cp - 65536) 10; 56320 + N.land (cp - 65536) 1023].

(** UTF-8 to UTF-16. *)
Fixpoint utf16 (bs : list N) : jsstring :=
  match bs with
  | [] => []
  | b :: r =>
      if b <? 128 then b :: utf16 r
      else if b <? 224 then
        match r with
        | b1 :: r1 => (N.land b 31 * 64 + cont b1) :: utf16 r1
        | [] => [b]
        end
      else if b <? 240 then
        match r with
        | b1 :: b2 :: r2 =>
            (N.land b 15 * 4096 + cont b1 * 64 + cont b2) :: utf16 r2
        | _ => [b]
        end
      else
        match r with
        | b1 :: b2 :: b3 :: r3 =>
            units (N.land b 7 * 262144 + cont b1 * 4096 + cont b2 * 64 + cont b3)
              ++ utf16 r3
        | _ => [b]
        end
  end.

(** How the constants of the source are written here: a backslash followed by
    n is a line feed, a backslash followed by another character is that
    character, and an apostrophe that no backslash precedes stands for the
    double quote U+0022. *)
Fixpoint unquote (s : jsstring) : jsstring :=
  match s with
  | [] => []
  | 92 :: c :: r => (if c =? 110 then 10 else c) :: unquote r
  | 39 :: r => 34 :: unquote r
  | c :: r => c :: unquote r
  end.

End Lit.

(** [js] reads a literal as it stands, [jsq] with the quoting of [Lit.unquote]. *)
Definition js (s : String.string) : jsstring := Lit.utf16 (Lit.bytes s).
Definition jsq (s : String.string) : jsstring := Lit.unquote (js s).

Arguments js s%_string.
Arguments jsq s%_string.

Fixpoint str_eqb (a b : jsstring) : bool :=
  match a, b with
  | [], [] => true
  | x :: a', y :: b' => (x =? y) && str_eqb a' b'
  | _, _ => false
  end.

(** [strip_prefix p s] is what follows [p] when [s] starts with [p]. *)
Fixpoint strip_prefix (p s : jsstring) : option jsstring :=
  match p, s with
  | [], _ => Some s
  | x :: p', y :: s' => if x =? y then strip_prefix p' s' else None
  | _ :: _, [] => None
  end.

(** The first occurrence of [pat] in [s]: the text before it and the text
    after it (what String.prototype.indexOf finds). *)
Fixpoint split_at_first (pat s : jsstring) : option (jsstring * jsstring) :=
  match strip_prefix pat s with
  | Some after => Some ([], after)
  | None =>
      match s with
      | [] => None
      | c :: r =>
          match split_at_first pat r with
          | Some (before, after) => Some (c :: before, after)
          | None => None
          end
      end
  end.

(** String.prototype.includes. *)
Definition includes (s pat : jsstring) : bool :=
  match split_at_first pat s with
  | Some _ => true
  | None => false
  end.

(** GetSubstitution (ECMA-262) for a pattern that is a string, so with no
    capture groups: in the replacement text a dollar sign followed by a
    dollar sign is one dollar sign, followed by an ampersand it is the matched
    text, followed by a backquote the text before the match, followed by an
    apostrophe the text after the match; every other code unit stands for
    itself (a dollar sign followed by digits or by < names a capture, and
    there is none). *)
Fixpoint GetSubstitution (matched before after template : jsstring) : jsstring :=
  match template with
  | [] => []
  | 36 :: 36 :: r => 36 :: GetSubstitution matched before after r
  | 36 :: 96 :: r => before ++ GetSubstitution matched before after r
  | 36 :: 38 :: r => matched ++ GetSubstitution matched before after r
  | 36 :: 39 :: r => after ++ GetSubstitution matched before after r
  | c :: r => c :: GetSubstitution matched before after r
  end.

(** String.prototype.replace with a string pattern and a string replacement:
    only the first occurrence is replaced, and the replacement goes through
    [GetSubstitution]. *)
Definition replace (s pat replacement : jsstring) : jsstring :=
  match split_at_first pat s with
  | Some (before, after) =>
      before ++ GetSubstitution pat before after replacement ++ after
  | None => s
  end.

(** String.prototype.split with a one-unit separator. *)
Fixpoint split (sep : N) (s : jsstring) : list jsstring :=
  match s with
  | [] => [[]]
  | c :: r =>
      if c =? sep then [] :: split sep r
      else
        match split sep r with
        | seg :: segs => (c :: seg) :: segs
        | [] => [[c]]
        end
  end.

(** WhiteSpace and LineTerminator of ECMA-262, what String.prototype.trim
    removes at both ends. *)
Definition is_white_space (c : N) : bool :=
  existsb (N.eqb c)
    [9; 10; 11; 12; 13; 32; 160; 5760; 8232; 8233; 8239; 8287; 12288; 65279]
  || ((8192 <=? c) && (c <=? 8202)).

Fixpoint trim_start (s : jsstring) : jsstring :=
  match s with
  | c :: r => if is_white_space c then trim_start r else s
  | [] => []
  end.

Definition trim (s : jsstring) : jsstring :=
  rev (trim_start (rev (trim_start s))).

(** ** Numbers

    A number is kept as the decimal it denotes: a sign, its significant
    digits (no zero at either end; none at all for zero) and the position [n]
    of the decimal point, so that the value is 0.d1...dk times ten to the
    [n], the triple that Number::toString of ECMA-262 works on. The rounding
    of a literal to the nearest IEEE double is not modelled: the model agrees
    with the runtime on every literal that a double holds exactly. *)
Record number : Type := mkNumber {
  num_neg : bool;
  num_digits : list N;
  num_point : Z
}.

Module Num.

Definition is_digit (c : N) : bool := (48 <=? c) && (c <=? 57).

Fixpoint drop_zeros (ds : list N) : list N :=
  match ds with
  | 0 :: r => drop_zeros r
  | _ => ds
  end.

(** The number written with integer digits [int], fraction digits [frac] and
    exponent [e]. *)
Definition of_parts (neg : bool) (int frac : list N) (e : Z) : number :=
  let all := int ++ frac in
  let lead := drop_zeros all in
  let digits := rev (drop_zeros (rev lead)) in
  match digits with
  | [] => mkNumber neg [] 0
  | _ =>
      mkNumber neg digits
        (Z.of_nat (length int) - Z.of_nat (length all - length lead) + e)%Z
  end.

Fixpoint uint_units (u : Decimal.uint) : jsstring :=
  match u with
  | Decimal.Nil => []
  | Decimal.D0 r => 48 :: uint_units r
  | Decimal.D1 r => 49 :: uint_units r
  | Decimal.D2 r => 50 :: uint_units r
  | Decimal.D3 r => 51 :: uint_units r
  | Decimal.D4 r => 52 :: uint_units r
  | Decimal.D5 r => 53 :: uint_units r
  | Decimal.D6 r => 54 :: uint_units r
  | Decimal.D7 r => 55 :: uint_units r
  | Decimal.D8 r => 56 :: uint_units r
  | Decimal.D9 r => 57 :: uint_units r
  end.

(** A natural number in decimal. *)
Definition of_N (n : N) : jsstring := uint_units (N.to_uint n).

Fixpoint digits_of (s : jsstring) : list N :=
  match s with
  | [] => []
  | c :: r => (c - 48) :: digits_of r
  end.

(** The number whose value is the natural number [n]. *)
Definition from_N (n : N) : number :=
  of_parts false (digits_of (of_N n)) [] 0.

Definition show_digits (ds : list N) : jsstring := map (N.add 48) ds.

(** Number::toString (radix 10). *)
Definition toString (x : number) : jsstring :=
  match num_digits x with
  | [] => [48]
  | d :: ds =>
      let k := Z.of_nat (length (d :: ds)) in
      let n := num_point x in
      let sign := if num_neg x then [45] else [] in
      sign ++
      (if ((k <=? n) && (n <=? 21))%Z then
         show_digits (d :: ds) ++ repeat 48 (Z.to_nat (n - k))
       else if ((0 <? n) && (n <=? 21))%Z then
         show_digits (firstn (Z.to_nat n) (d :: ds)) ++ [46]
           ++ show_digits (skipn (Z.to_nat n) (d :: ds))
       else if ((-6 <? n) && (n <=? 0))%Z then
         [48; 46] ++ repeat 48 (Z.to_nat (- n)) ++ show_digits (d :: ds)
       else
         let e := (n - 1)%Z in
         let mantissa :=
           match ds with
           | [] => show_digits [d]
           | _ => show_digits [d] ++ [46] ++ show_digits ds
           end in
         mantissa ++ [101] ++ (if (e <? 0)%Z then [45] else [43])
           ++ of_N (Z.to_N (Z.abs e)))
  end.

(** ToBoolean of a number: zero is falsy (a decimal is never NaN). *)
Definition truthy (x : number) : bool :=
  match num_digits x with
  | [] => false
  | _ => true
  end.

End Num.

(** ** JSON values *)

#[local] Set Warnings "-register-all".

(** What [JSON.parse] builds. The properties of an object are listed in the
    order in which the runtime enumerates them. *)
Inductive json : Type :=
| JNull
| JBool (b : bool)
| JNumber (x : number)
| JString (s : jsstring)
| JArray (elems : list json)
| JObject (props : list (jsstring * json)).

Definition fold_digits (ds : list N) : N :=
  fold_left (fun acc d => acc * 10 + d) ds 0.

(** The integer that a key denotes when it is the canonical decimal writing
    of one: no sign, no leading zero. *)
Definition canonical_index (key : jsstring) : option N :=
  match key with
  | [] => None
  | [48] => Some 0
  | c :: r =>
      if (49 <=? c) && (c <=? 57) && forallb Num.is_digit r
      then Some (fold_digits (Num.digits_of (c :: r)))
      else None
  end.

(** An array index in the sense of ECMA-262: below 2^32 - 1. *)
Definition array_index (key : jsstring) : option N :=
  match canonical_index key with
  | Some i => if i <? 4294967295 then Some i else None
  | None => None
  end.

Fixpoint has_key (k : jsstring) (props : list (jsstring * json)) : bool :=
  match props with
  | [] => false
  | (k', _) :: r => str_eqb k k' || has_key k r
  end.

Fixpoint set_existing (k : jsstring) (v : json) (props : list (jsstring * json))
  : list (jsstring * json) :=
  match props with
  | [] => []
  | (k', v') :: r =>
      if str_eqb k k' then (k', v) :: r else (k', v') :: set_existing k v r
  end.

(** Where a new integer key goes: after the smaller integer keys. *)
Fixpoint insert_index (i : N) (k : jsstring) (v : json)
  (props : list (jsstring * json)) : list (jsstring * json) :=
  match props with
  | [] => [(k, v)]
  | (k', v') :: r =>
      match array_index k' with
      | Some j =>
          if j <? i then (k', v') :: insert_index i k v r
          else (k, v) :: props
      | None => (k, v) :: props
      end
  end.

(** CreateDataProperty on an ordinary object: an existing key keeps its place
    and takes the new value; a new key is enumerated after the others, an
    integer key among the integer keys in ascending order. *)
Definition CreateDataProperty (props : list (jsstring * json)) (k : jsstring)
  (v : json) : list (jsstring * json) :=
  if has_key k props then set_existing k v props
  else
    match array_index k with
    | Some i => insert_index i k v props
    | None => props ++ [(k, v)]
    end.

(** ** JSON.parse *)

Module Parse.

Inductive result (A : Type) : Type :=
| Parsed (a : A) (rest : jsstring)
| SyntaxErr
| OutOfFuel.

Arguments Parsed {A} a rest.
Arguments SyntaxErr {A}.
Arguments OutOfFuel {A}.

(** JSON white space: tab, line feed, carriage return, space. *)
Definition is_ws (c : N) : bool :=
  (c =? 9) || (c =? 10) || (c =? 13) || (c =? 32).

Fixpoint skip_ws (s : jsstring) : jsstring :=
  match s with
  | c :: r => if is_ws c then skip_ws r else s
  | [] => []
  end.

Definition hex_value (c : N) : option N :=
  if (48 <=? c) && (c <=? 57) then Some (c - 48)
  else if (97 <=? c) && (c <=? 102) then Some (c - 87)
  else if (65 <=? c) && (c <=? 70) then Some (c - 55)
  else None.

Definition hex4 (a b c d : N) : option N :=
  match hex_value a, hex_value b, hex_value c, hex_value d with
  | Some x, Some y, Some z, Some w => Some (((x * 16 + y) * 16 + z) * 16 + w)
  | _, _, _, _ => None
  end.

(** The code unit that a one-letter escape stands for. *)
Definition simple_escape (e : N) : option N :=
  if e =? 34 then Some 34
  else if e =? 92 then Some 92
  else if e =? 47 then Some 47
  else if e =? 98 then Some 8
  else if e =? 102 then Some 12
  else if e =? 110 then Some 10
  else if e =? 114 then Some 13
  else if e =? 116 then Some 9
  else None.

Definition push (c : N) (r : option (jsstring * jsstring))
  : option (jsstring * jsstring) :=
  match r with
  | Some (str, rest) => Some (c :: str, rest)
  | None => None
  end.

(** The characters of a string literal, after its opening quote, up to and
    including the closing quote. *)
Fixpoint string_chars (s : jsstring) : option (jsstring * jsstring) :=
  match s with
  | [] => None
  | c :: r =>
      if c =? 34 then Some ([], r)
      else if c =? 92 then
        match r with
        | [] => None
        | e :: r1 =>
            match simple_escape e with
            | Some u => push u (string_chars r1)
            | None =>
                if e =? 117 then
                  match r1 with
                  | h1 :: h2 :: h3 :: h4 :: r2 =>
                      match hex4 h1 h2 h3 h4 with
                      | Some u => push u (string_chars r2)
                      | None => None
                      end
                  | _ => None
                  end
                else None
            end
        end
      else if c <? 32 then None
      else push c (string_chars r)
  end.

Fixpoint span_digits (s : jsstring) : jsstring * jsstring :=
  match s with
  | c :: r =>
      if Num.is_digit c then
        let (ds, rest) := span_digits r in (c :: ds, rest)
      else ([], s)
  | [] => ([], [])
  end.

(** fraction: a dot and at least one digit, or nothing. *)
Definition fraction (s : jsstring) : option (jsstring * jsstring) :=
  match s with
  | 46 :: r =>
      match span_digits r with
      | ([], _) => None
      | (ds, rest) => Some (ds, rest)
      end
  | _ => Some ([], s)
  end.

Definition exponent_digits (neg : bool) (s : jsstring) : option (Z * jsstring) :=
  match span_digits s with
  | ([], _) => None
  | (ds, rest) =>
      let e := Z.of_N (fold_digits (Num.digits_of ds)) in
      Some (if neg then (- e)%Z else e, rest)
  end.

(** exponent: e or E, an optional sign and at least one digit, or nothing. *)
Definition exponent (s : jsstring) : option (Z * jsstring) :=
  match s with
  | c :: r =>
      if (c =? 101) || (c =? 69) then
        match r with
        | 43 :: r' => exponent_digits false r'
        | 45 :: r' => exponent_digits true r'
        | _ => exponent_digits false r
        end
      else Some (0%Z, s)
  | [] => Some (0%Z, s)
  end.

(** A number: an optional minus sign, an integer part that is 0 or starts
    with a digit from 1 to 9, a fraction, an exponent. *)
Definition number_token (s : jsstring) : option (number * jsstring) :=
  let (neg, s1) :=
    match s with
    | 45 :: r => (true, r)
    | _ => (false, s)
    end in
  match span_digits s1 with
  | ([], _) => None
  | (48 :: _ :: _, _) => None
  | (int, s2) =>
      match fraction s2 with
      | None => None
      | Some (frac, s3) =>
          match exponent s3 with
          | None => None
          | Some (e, s4) =>
              Some (Num.of_parts neg (Num.digits_of int) (Num.digits_of frac) e, s4)
          end
      end
  end.

Definition keyword (word : jsstring) (v : json) (s : jsstring) : result json :=
  match strip_prefix word s with
  | Some rest => Parsed v rest
  | None => SyntaxErr
  end.

(** A value, the elements of an array after its opening bracket, and the
    members of an object after its opening brace. *)
Fixpoint json_value (fuel : nat) (s : jsstring) : result json :=
  match fuel with
  | O => OutOfFuel
  | S fuel' =>
      match skip_ws s with
      | [] => SyntaxErr
      | c :: r =>
          if c =? 123 then
            match skip_ws r with
            | c' :: rest =>
                if c' =? 125 then Parsed (JObject []) rest
                else members fuel' r []
            | [] => SyntaxErr
            end
          else if c =? 91 then
            match skip_ws r with
            | c' :: rest =>
                if c' =? 93 then Parsed (JArray []) rest
                else elements fuel' r []
            | [] => SyntaxErr
            end
          else if c =? 34 then
            match string_chars r with
            | Some (str, rest) => Parsed (JString str) rest
            | None => SyntaxErr
            end
          else if c =? 110 then keyword (js "null") JNull (c :: r)
          else if c =? 116 then keyword (js "true") (JBool true) (c :: r)
          else if c =? 102 then keyword (js "false") (JBool false) (c :: r)
          else
            match number_token (c :: r) with
            | Some (x, rest) => Parsed (JNumber x) rest
            | None => SyntaxErr
            end
      end
  end
with elements (fuel : nat) (s : jsstring) (acc : list json) : result json :=
  match fuel with
  | O => OutOfFuel
  | S fuel' =>
      match json_value fuel' s with
      | Parsed v r =>
          match skip_ws r with
          | c :: r' =>
              if c =? 44 then elements fuel' r' (acc ++ [v])
              else if c =? 93 then Parsed (JArray (acc ++ [v])) r'
              else SyntaxErr
          | [] => SyntaxErr
          end
      | SyntaxErr => SyntaxErr
      | OutOfFuel => OutOfFuel
      end
  end
with members (fuel : nat) (s : jsstring) (acc : list (jsstring * json))
  : result json :=
  match fuel with
  | O => OutOfFuel
  | S fuel' =>
      match skip_ws s with
      | c :: r =>
          if c =? 34 then
            match string_chars r with
            | Some (key, r1) =>
                match skip_ws r1 with
                | c1 :: r2 =>
                    if c1 =? 58 then
                      match json_value fuel' r2 with
                      | Parsed v r3 =>
                          match skip_ws r3 with
                          | c3 :: r4 =>
                              if c3 =? 44
                              then members fuel' r4 (CreateDataProperty acc key v)
                              else if c3 =? 125
                              then Parsed (JObject (CreateDataProperty acc key v)) r4
                              else SyntaxErr
                          | [] => SyntaxErr
                          end
                      | SyntaxErr => SyntaxErr
                      | OutOfFuel => OutOfFuel
                      end
                    else SyntaxErr
                | [] => SyntaxErr
                end
            | None => SyntaxErr
            end
          else SyntaxErr
      | [] => SyntaxErr
      end
  end.

(** Enough for any text: a call that consumes nothing is followed by one that
    consumes a code unit. *)
Definition fuel_for (s : jsstring) : nat := 2 * length s + 2.

End Parse.

(** Exceptions: an Error built by the service with its message, the
    SyntaxError of [JSON.parse] (its message is the engine's own), and what a
    collaborator rejects with. Each is an object, so none is falsy. *)
Inductive exn : Type :=
| Error (message : jsstring)
| SyntaxError
| HostError (id : N).

(** JSON.parse: one value with white space around it, and nothing else. *)
Definition JSON_parse (text : jsstring) : exn + json :=
  match Parse.json_value (Parse.fuel_for text) text with
  | Parse.Parsed v rest =>
      match Parse.skip_ws rest with
      | [] => inr v
      | _ => inl SyntaxError
      end
  | _ => inl SyntaxError
  end.

(** ** JSON.stringify *)

Module Quote.

Definition hex_digit (d : N) : N := if d <? 10 then 48 + d else 87 + d.

(** UnicodeEscape: backslash, u and four lower-case hexadecimal digits. *)
Definition unicode_escape (c : N) : jsstring :=
  [92; 117; hex_digit (N.land (N.shiftr c 12) 15);
   hex_digit (N.land (N.shiftr c 8) 15); hex_digit (N.land (N.shiftr c 4) 15);
   hex_digit (N.land c 15)].

Definition is_high_surrogate (c : N) : bool := (55296 <=? c) && (c <=? 56319).
Definition is_low_surrogate (c : N) : bool := (56320 <=? c) && (c <=? 57343).

(** One code unit that is no surrogate. *)
Definition escape_unit (c : N) : jsstring :=
  if c =? 8 then [92; 98]
  else if c =? 9 then [92; 116]
  else if c =? 10 then [92; 110]
  else if c =? 12 then [92; 102]
  else if c =? 13 then [92; 114]
  else if c =? 34 then [92; 34]
  else if c =? 92 then [92; 92]
  else if c <? 32 then unicode_escape c
  else [c].

(** The code points of the string in turn: a surrogate pair stands for
    itself, a surrogate alone is escaped. *)
Fixpoint body (s : jsstring) : jsstring :=
  match s with
  | [] => []
  | c :: r =>
      if is_high_surrogate c then
        match r with
        | d :: r' =>
            if is_low_surrogate d then c :: d :: body r'
            else unicode_escape c ++ body r
        | [] => unicode_escape c
        end
      else if is_low_surrogate c then unicode_escape c ++ body r
      else escape_unit c ++ body r
  end.

End Quote.

(** QuoteJSONString: [JSON.stringify] of a string. *)
Definition QuoteJSONString (s : jsstring) : jsstring :=
  [34] ++ Quote.body s ++ [34].

Fixpoint join (sep : jsstring) (parts : list jsstring) : jsstring :=
  match parts with
  | [] => []
  | [p] => p
  | p :: rest => p ++ sep ++ join sep rest
  end.

(** [JSON.stringify] with neither replacer nor indentation. *)
Fixpoint JSON_stringify (v : json) : jsstring :=
  match v with
  | JNull => js "null"
  | JBool true => js "true"
  | JBool false => js "false"
  | JNumber x => Num.toString x
  | JString s => QuoteJSONString s
  | JArray elems => [91] ++ join [44] (map JSON_stringify elems) ++ [93]
  | JObject props =>
      [123]
        ++ join [44]
             (map (fun kv : jsstring * json =>
                     let (k, v') := kv in
                     QuoteJSONString k ++ [58] ++ JSON_stringify v')
                props)
        ++ [125]
  end.

(** ** Values and property access *)

(** What [getNestedValue] can hold: a value of the decoded response,
    [undefined], or an object of the runtime (a function, a prototype). *)
Inductive value : Type :=
| VJson (j : json)
| VUndefined
| VHost (id : N).

(** ToBoolean. *)
Definition ToBoolean (v : value) : bool :=
  match v with
  | VJson JNull => false
  | VJson (JBool b) => b
  | VJson (JNumber x) => Num.truthy x
  | VJson (JString []) => false
  | VJson (JString (_ :: _)) => true
  | VJson (JArray _) => true
  | VJson (JObject _) => true
  | VUndefined => false
  | VHost _ => true
  end.

Fixpoint own_property (props : list (jsstring * json)) (key : jsstring)
  : option json :=
  match props with
  | [] => None
  | (k, v) :: r => if str_eqb key k then Some v else own_property r key
  end.

Definition length_key : jsstring := js "length".

(** The own property [key] of a value: a key of an object; an index below
    the length, or length, of an array; the same of a string, whose element
    is the one-unit string at that index. *)
Definition GetOwnProperty (v : value) (key : jsstring) : option value :=
  match v with
  | VJson (JObject props) => option_map VJson (own_property props key)
  | VJson (JArray elems) =>
      if str_eqb key length_key
      then Some (VJson (JNumber (Num.from_N (N.of_nat (length elems)))))
      else
        match array_index key with
        | Some i => option_map VJson (nth_error elems (N.to_nat i))
        | None => None
        end
  | VJson (JString s) =>
      if str_eqb key length_key
      then Some (VJson (JNumber (Num.from_N (N.of_nat (length s)))))
      else
        match canonical_index key with
        | Some i =>
            option_map (fun c => VJson (JString [c])) (nth_error s (N.to_nat i))
        | None => None
        end
  | _ => None
  end.

(** ** The collaborators *)

(** Modelled from the spec: the type of customMethod is declared in the
    types module, which is not among the sources; the spec and the select of
    the settings form give it these two values. *)
Inductive HttpMethod : Type := GET | POST.

(** What [fetch] is called with. *)
Record request : Type := mkRequest {
  req_url : jsstring;
  req_method : HttpMethod;
  req_headers : json;
  req_body : option jsstring
}.

(** A response: [ok], [status] and the text of its body, which [text()]
    returns and [json()] parses. *)
Record response : Type := mkResponse {
  resp_ok : bool;
  resp_status : N;
  resp_body : jsstring
}.

Inductive fetch_outcome : Type :=
| Rejected (e : exn)
| Resolved (r : response).

(** The argument of [ai.models.generateContent]. *)
Record generate_request : Type := mkGenerate {
  gen_model : jsstring;
  gen_contents : jsstring;
  gen_systemInstruction : jsstring;
  gen_responseMimeType : jsstring
}.

(** The runtime and the services behind one call of [translateJson].
    [inherited v key] is what the prototype chain of [v] answers for a key
    that is no own property of [v] (the methods of Object.prototype,
    Array.prototype, String.prototype and the like, undefined for most keys);
    [fetch k] and [generateContent k] are the network and the client library
    as they answer during attempt [k], the latter with the [text] of its
    response, which may be undefined. An inherited property is read as a
    data property: an accessor of the chain that throws (caller and
    arguments of Function.prototype) has no counterpart, so what is stated
    of the error that a failed extraction throws is stated for paths that
    name no inherited property. *)
Record host : Type := mkHost {
  inherited : value -> jsstring -> value;
  fetch : N -> request -> fetch_outcome;
  generateContent : N -> generate_request -> exn + option jsstring
}.

(** [acc[part]] for an [acc] that is neither null nor undefined. *)
Definition Get (h : host) (acc : value) (part : jsstring) : value :=
  match GetOwnProperty acc part with
  | Some v => v
  | None => inherited h acc part
  end.

(** The callback of the reduction, [acc && acc[part]]: a falsy [acc] is the
    result, and is never indexed. *)
Definition step (h : host) (acc : value) (part : jsstring) : value :=
  if ToBoolean acc then Get h acc part else acc.

(** [getNestedValue], lines 9 to 11. *)
Definition getNestedValue (h : host) (obj : json) (path : jsstring) : value :=
  fold_left (step h) (split 46 path) (VJson obj).

(** ** Effects

    What a call does besides returning: the requests it sends, what it
    writes with [console.warn], and the delays it waits for, in order. *)
Inductive event : Type :=
| Fetch (r : request)
| Generate (g : generate_request)
| WarnExtracted (v : value)
| WarnAttempt (attempt : N) (error : exn)
| Delay (ms : N).

(** A computation that logs events and either throws or returns. *)
Definition M (A : Type) : Type := list event * (exn + A).

Definition ret {A : Type} (a : A) : M A := ([], inr a).
Definition throw {A : Type} (e : exn) : M A := ([], inl e).
Definition emit (ev : event) : M unit := ([ev], inr tt).

Definition bind {A B : Type} (m : M A) (k : A -> M B) : M B :=
  match m with
  | (evs, inl e) => (evs, inl e)
  | (evs, inr a) => let (evs', r) := k a in (evs ++ evs', r)
  end.

Notation "x <- m ;; k" := (bind m (fun x => k))
  (at level 61, m at next level, right associativity).
Notation "m ;;; k" := (bind m (fun _ => k))
  (at level 61, right associativity).

(** [JSON.parse] where a SyntaxError propagates. *)
Definition parse_or_throw (text : jsstring) : M json := ([], JSON_parse text).

(** ** callCustomApi *)

(** Modelled from the spec: the declarations of ApiProvider and ApiSettings
    (the module types that the service imports) are not among the sources;
    the fields are those that [callCustomApi] and [translateJson] read, the
    method one of the two that the spec and the settings form offer. *)
Inductive ApiProvider : Type := GEMINI | CUSTOM.

Record ApiSettings : Type := mkSettings {
  provider : ApiProvider;
  customUrl : jsstring;
  customMethod : HttpMethod;
  customHeaders : jsstring;
  customBodyTemplate : jsstring;
  customResponsePath : jsstring
}.

Definition quoted_placeholder : jsstring := jsq "'{{prompt}}'".
Definition bare_placeholder : jsstring := js "{{prompt}}".

(** Step 2, lines 39 to 55: the body of the request. *)
Definition prepareBody (customBodyTemplate prompt : jsstring) : jsstring :=
  let escapedPrompt := QuoteJSONString prompt in
  let bodyStr := customBodyTemplate in
  if includes bodyStr quoted_placeholder
  then replace bodyStr quoted_placeholder escapedPrompt
  else replace bodyStr bare_placeholder escapedPrompt.

Definition invalid_headers : exn :=
  Error (js "Invalid Custom Headers format. Must be valid JSON.").

Definition api_error (status : N) (errText : jsstring) : exn :=
  Error (js "Custom API Error (" ++ Num.of_N status ++ js "): " ++ errText).

Definition no_string_at (customResponsePath : jsstring) : exn :=
  Error (js "Could not find string at path '" ++ customResponsePath
           ++ js "' in response.").

(** Step 4, lines 72 to 79: the string at the path, or an error. *)
Definition extractResponse (h : host) (decoded : json)
  (customResponsePath : jsstring) : M jsstring :=
  let resultText := getNestedValue h decoded customResponsePath in
  match resultText with
  | VJson (JString s) => ret s
  | _ => emit (WarnExtracted resultText) ;;; throw (no_string_at customResponsePath)
  end.

(** [callCustomApi], lines 13 to 80, as attempt [k] runs it. *)
Definition callCustomApi (h : host) (k : N) (prompt : jsstring)
  (settings : ApiSettings) : M jsstring :=
  (* 1. Prepare Headers *)
  headers <- match JSON_parse (customHeaders settings) with
             | inr v => ret v
             | inl _ => throw invalid_headers
             end ;;
  (* 2. Prepare Body *)
  let bodyStr := prepareBody (customBodyTemplate settings) prompt in
  (* 3. Fetch *)
  let req :=
    mkRequest (customUrl settings) (customMethod settings) headers
      (match customMethod settings with
       | POST => Some bodyStr
       | GET => None
       end) in
  emit (Fetch req) ;;;
  response <- match fetch h k req with
              | Resolved r => ret r
              | Rejected e => throw e
              end ;;
  if negb (resp_ok response)
  then throw (api_error (resp_status response) (resp_body response))
  else
    decoded <- parse_or_throw (resp_body response) ;;
    (* 4. Extract Response *)
    extractResponse h decoded (customResponsePath settings).

(** ** translateJson *)

Definition modelId : jsstring := js "gemini-3-pro-preview".

Definition defaultSystemInstruction : jsstring :=
  jsq "\n"
  ++ jsq "    你是翻译专家，并且是音乐爱好者，你会讲输入的各个国家的语言、音乐描述、术语、歌词等音乐信息准确的翻译成中文。\n"
  ++ jsq "    \n"
  ++ jsq "    RULES:\n"
  ++ jsq "    1. Keep the JSON structure exactly the same. Do not change keys.\n"
  ++ jsq "    2. For every string value that is English text, translate it to Chinese.\n"
  ++ jsq "    3. Format the final value as 'Original English Value | Chinese Translation'.\n"
  ++ jsq "    4. If the value is empty, keep it empty.\n"
  ++ jsq "    5. If the value is a number or technical ID (like UUID), keep it as is.\n"
  ++ jsq "    6. Ensure music terminology is accurate (e.g., 'Verse', 'Chorus', 'BPM', 'Chord Progression').\n"
  ++ jsq "    \n"
  ++ jsq "    Example:\n"
  ++ jsq "    Input: { 'description': 'High energy rock song' }\n"
  ++ jsq "    Output: { 'description': 'High energy rock song | 高能量摇滚歌曲' }\n"
  ++ jsq "  ".

(** [customPrompt || defaultSystemInstruction]: an absent or empty custom
    prompt gives way to the default. *)
Definition systemInstruction (customPrompt : option jsstring) : jsstring :=
  match customPrompt with
  | Some (c :: s) => c :: s
  | _ => defaultSystemInstruction
  end.

(** Line 109. *)
Definition fullPromptForCustom (systemInstruction jsonString : jsstring)
  : jsstring :=
  systemInstruction
    ++ jsq "\n\nTask: Please translate the following JSON:\n\n```json\n"
    ++ jsonString ++ jsq "\n```".

(** Line 112. *)
Definition geminiUserPrompt (jsonString : jsstring) : jsstring :=
  jsq "Please translate the following JSON:\n\n```json\n" ++ jsonString
    ++ jsq "\n```".

Definition fence : jsstring := js "```".
Definition fence_json : jsstring := js "```json".

(** The match of the fence pattern of line 139 at the head of [s], by its
    length: three backquotes and json, then a line feed if there is one; or
    else three backquotes, with the line feed before them if there is one. *)
Definition fence_at (s : jsstring) : option nat :=
  match strip_prefix fence_json s with
  | Some (10 :: _) => Some 8%nat
  | Some _ => Some 7%nat
  | None =>
      match s with
      | 10 :: r =>
          match strip_prefix fence r with
          | Some _ => Some 4%nat
          | None => None
          end
      | _ =>
          match strip_prefix fence s with
          | Some _ => Some 3%nat
          | None => None
          end
      end
  end.

(** Replacing every match of the pattern by nothing, from left to right;
    [skip] counts the code units of the current match still to drop. *)
Fixpoint strip_from (skip : nat) (s : jsstring) : jsstring :=
  match s with
  | [] => []
  | c :: r =>
      match skip with
      | S n => strip_from n r
      | O =>
          match fence_at s with
          | Some (S n) => strip_from n r
          | _ => c :: strip_from 0 r
          end
      end
  end.

Definition strip_fences (text : jsstring) : jsstring := strip_from 0 text.

(** Any run of code units and then [close], anchored at the head of [s]: the
    run is greedy, so it first takes one more code unit, and stops before
    [close] only when nothing longer matches. *)
Fixpoint greedy_until (close : N) (s : jsstring) : option jsstring :=
  match s with
  | [] => None
  | x :: r =>
      match greedy_until close r with
      | Some m => Some (x :: m)
      | None => if x =? close then Some [x] else None
      end
  end.

(** The alternation of line 140 anchored at the head of [s]: a brace, any
    run, a closing brace; or a bracket, any run, a closing bracket. *)
Definition block_at (s : jsstring) : option jsstring :=
  match s with
  | c :: r =>
      if c =? 123 then option_map (cons c) (greedy_until 125 r)
      else if c =? 91 then option_map (cons c) (greedy_until 93 r)
      else None
  | [] => None
  end.

(** [cleanText.match] with the pattern of line 140: the match at the
    leftmost position that has one. *)
Fixpoint match_json_block (s : jsstring) : option jsstring :=
  match block_at s with
  | Some m => Some m
  | None =>
      match s with
      | [] => None
      | _ :: r => match_json_block r
      end
  end.

(** Lines 139 to 143: the text that [JSON.parse] is given. *)
Definition cleanResponse (text : jsstring) : jsstring :=
  let cleanText := trim (strip_fences text) in
  match match_json_block cleanText with
  | Some jsonMatch => jsonMatch
  | None => cleanText
  end.

Definition no_response_text : exn := Error (js "No response text received").

(** The adapter of lines 121 to 134. *)
Definition invokeAdapter (h : host) (attempt : N) (instruction jsonString : jsstring)
  (apiSettings : option ApiSettings) : M jsstring :=
  let gemini :=
    let g :=
      mkGenerate modelId (geminiUserPrompt jsonString) instruction
        (js "application/json") in
    emit (Generate g) ;;;
    match generateContent h attempt g with
    | inl e => throw e
    | inr (Some text) => ret text
    | inr None => ret []
    end in
  match apiSettings with
  | Some settings =>
      match provider settings with
      | CUSTOM =>
          callCustomApi h attempt (fullPromptForCustom instruction jsonString)
            settings
      | GEMINI => gemini
      end
  | None => gemini
  end.

(** The body of the try block, lines 119 to 145. *)
Definition attemptOnce (h : host) (attempt : N) (instruction jsonString : jsstring)
  (apiSettings : option ApiSettings) : M json :=
  text <- invokeAdapter h attempt instruction jsonString apiSettings ;;
  match text with
  | [] => throw no_response_text
  | _ => parse_or_throw (cleanResponse text)
  end.

Definition maxRetries : N := 3.

(** How the loop ends: by the return of line 145, or past its last line with
    [lastError] as it stands. *)
Inductive loop_exit : Type :=
| Returned (v : json)
| Fell (lastError : option exn).

(** The loop of lines 117 to 153 over the attempts still to make. *)
Fixpoint retry (body : N -> M json) (attempts : list N) (lastError : option exn)
  : list event * loop_exit :=
  match attempts with
  | [] => ([], Fell lastError)
  | attempt :: later =>
      match body attempt with
      | (evs, inr v) => (evs, Returned v)
      | (evs, inl error) =>
          let warned := evs ++ [WarnAttempt attempt error] in
          if attempt =? maxRetries then (warned, Fell (Some error))
          else
            let (evs', r) := retry body later (Some error) in
            (warned ++ [Delay (1000 * 2 ^ attempt)] ++ evs', r)
      end
  end.

(** The values of [attempt] for which the loop condition holds. *)
Definition attempt_numbers : list N :=
  map N.of_nat (seq 1 (N.to_nat maxRetries)).

Definition translation_failed : exn :=
  Error (js "Translation failed after multiple attempts").

(** [translateJson], lines 82 to 156, for a document that is a JSON value. *)
Definition translateJson (h : host) (jsonData : json)
  (customPrompt : option jsstring) (apiSettings : option ApiSettings) : M json :=
  let instruction := systemInstruction customPrompt in
  let jsonString := JSON_stringify jsonData in
  match retry (fun attempt => attemptOnce h attempt instruction jsonString apiSettings)
          attempt_numbers None with
  | (evs, Returned v) => (evs, inr v)
  | (evs, Fell (Some lastError)) => (evs, inl lastError)
  | (evs, Fell None) => (evs, inl translation_failed)
  end.

(** ** The spec, in its own words *)

(** The substitution as the spec words it: the first quoted placeholder, or
    else the first bare placeholder, gives way to the encoded prompt. *)
Definition substitute_spec (template prompt : jsstring) : jsstring :=
  let escapedPrompt := QuoteJSONString prompt in
  match split_at_first quoted_placeholder template with
  | Some (before, after) => before ++ escapedPrompt ++ after
  | None =>
      match split_at_first bare_placeholder template with
      | Some (before, after) => before ++ escapedPrompt ++ after
      | None => template
      end
  end.

(** Path resolution as the spec words it: each segment is an object key or,
    when it is a non-negative integer literal, an array index; a missing key,
    an index out of range and a segment applied to a scalar fail. *)
Fixpoint resolve_strict (v : json) (segments : list jsstring) : option json :=
  match segments with
  | [] => Some v
  | seg :: rest =>
      match v with
      | JObject props =>
          match own_property props seg with
          | Some v' => resolve_strict v' rest
          | None => None
          end
      | JArray elems =>
          match array_index seg with
          | Some i =>
              match nth_error elems (N.to_nat i) with
              | Some v' => resolve_strict v' rest
              | None => None
              end
          | None => None
          end
      | _ => None
      end
  end.

(** ... and the resolved value must be a string. *)
Definition extract_strict (v : json) (path : jsstring) : option jsstring :=
  match resolve_strict v (split 46 path) with
  | Some (JString s) => Some s
  | _ => None
  end.

(** The path goes on after it has reached a string. *)
Definition through_string (v : json) (segments : list jsstring) : Prop :=
  exists pre post str,
    segments = pre ++ post /\ post <> [] /\
    resolve_strict v pre = Some (JString str).

(** Lenient recovery as the spec words it: after the fences are stripped,
    the text from the first opening brace or bracket up to the last closing
    brace or bracket, whichever kind it is; nothing when no opening delimiter
    is found. *)
Fixpoint from_first_opener (s : jsstring) : option jsstring :=
  match s with
  | [] => None
  | c :: r => if (c =? 123) || (c =? 91) then Some s else from_first_opener r
  end.

Fixpoint drop_to_closer (reversed : jsstring) : jsstring :=
  match reversed with
  | [] => []
  | c :: r => if (c =? 125) || (c =? 93) then reversed else drop_to_closer r
  end.

Definition up_to_last_closer (s : jsstring) : jsstring :=
  match drop_to_closer (rev s) with
  | [] => s
  | kept => rev kept
  end.

Definition recover_spec (text : jsstring) : exn + json :=
  match from_first_opener (trim (strip_fences text)) with
  | Some s => JSON_parse (up_to_last_closer s)
  | None => inl SyntaxError
  end.

(** ** Vocabulary of the statements *)

(** The request that [callCustomApi] sends once the headers have parsed. *)
Definition request_of (settings : ApiSettings) (headers : json)
  (prompt : jsstring) : request :=
  mkRequest (customUrl settings) (customMethod settings) headers
    (match customMethod settings with
     | POST => Some (prepareBody (customBodyTemplate settings) prompt)
     | GET => None
     end).

(** The closing delimiter of an opening one. *)
Definition closer (o : N) : option N :=
  if o =? 123 then Some 125 else if o =? 91 then Some 93 else None.

(** [s] starts with an opening delimiter that has a closing delimiter of its
    own kind somewhere after it. *)
Definition opens_block (s : jsstring) : Prop :=
  match s with
  | o :: r => exists c, closer o = Some c /\ In c r
  | [] => False
  end.

(** No position of [s], read with [rest] after it, opens a block. *)
Definition no_block_in (s rest : jsstring) : Prop :=
  forall a b, s = a ++ b -> b <> [] -> ~ opens_block (b ++ rest).

(** The delays waited for, in order. *)
Fixpoint delays_of (evs : list event) : list N :=
  match evs with
  | [] => []
  | Delay ms :: r => ms :: delays_of r
  | _ :: r => delays_of r
  end.

(** The failed attempts that the loop reported, in order. *)
Fixpoint failures_of (evs : list event) : list (N * exn) :=
  match evs with
  | [] => []
  | WarnAttempt attempt error :: r => (attempt, error) :: failures_of r
  | _ :: r => failures_of r
  end.

(** The name of an exception, when the service or the engine built it. *)
Definition exn_name (e : exn) : option jsstring :=
  match e with
  | Error _ => Some (js "Error")
  | SyntaxError => Some (js "SyntaxError")
  | HostError _ => None
  end.

(** The try block of [translateJson] as a function of the attempt. *)
Definition attempt_of (h : host) (jsonData : json)
  (customPrompt : option jsstring) (apiSettings : option ApiSettings)
  : N -> M json :=
  fun attempt =>
    attemptOnce h attempt (systemInstruction customPrompt)
      (JSON_stringify jsonData) apiSettings.

(** ** Sample hosts and inputs *)

(** Prototypes that define nothing. *)
Definition plain_inherited : value -> jsstring -> value :=
  fun _ _ => VUndefined.

Definition unreachable : exn := HostError 0.

(** A host whose network always answers 200 with [body], and whose client
    library always answers [text]. *)
Definition constant_host (body : jsstring) (text : option jsstring) : host :=
  mkHost plain_inherited
    (fun _ _ => Resolved (mkResponse true 200 body))
    (fun _ _ => inr text).

(** A host whose client library rejects attempt [k] with [HostError k]. *)
Definition rejecting_host : host :=
  mkHost plain_inherited
    (fun _ _ => Rejected unreachable)
    (fun k _ => inl (HostError k)).

(** A host whose client library answers the texts of [answers] in turn,
    attempt 1 first, and nothing after them. *)
Definition scripted_host (answers : list jsstring) : host :=
  mkHost plain_inherited
    (fun _ _ => Rejected unreachable)
    (fun k _ => inr (nth_error answers (N.to_nat (k - 1)))).

(** A host that echoes: its client library answers the contents it is given,
    and its network answers, under the key r, the string it finds under the
    key q of the body it is sent. *)
Definition echo_host : host :=
  mkHost plain_inherited
    (fun _ req =>
       match req_body req with
       | Some body =>
           match JSON_parse body with
           | inr (JObject props) =>
               match own_property props (js "q") with
               | Some (JString q) =>
                   Resolved
                     (mkResponse true 200
                        (JSON_stringify (JObject [(js "r", JString q)])))
               | _ => Resolved (mkResponse false 400 (js "no q"))
               end
           | _ => Resolved (mkResponse false 400 (js "no object"))
           end
       | None => Resolved (mkResponse false 400 (js "no body"))
       end)
    (fun _ g => inr (Some (gen_contents g))).

(** Settings of the custom provider for [echo_host], by their body
    template. *)
Definition echo_settings (customBodyTemplate : jsstring) : ApiSettings :=
  mkSettings CUSTOM (js "https://example.test/chat") POST (js "{}")
    customBodyTemplate (js "r").

(** A host with one piece of the standard library: the constructor that an
    object inherits is the function Object, whose name is the string
    Object. *)
Definition object_host : host :=
  mkHost
    (fun v key =>
       match v with
       | VJson (JObject _) =>
           if str_eqb key (js "constructor") then VHost 1 else VUndefined
       | VHost 1 =>
           if str_eqb key (js "name") then VJson (JString (js "Object"))
           else VUndefined
       | _ => VUndefined
       end)
    (fun _ _ => Rejected unreachable)
    (fun _ _ => inr None).

(** Two body templates, one for each way of writing the placeholder that
    the comments of lines 27 and 28 name. *)
Definition bare_template : jsstring := jsq "{'q': {{prompt}}}".
Definition quoted_template : jsstring := jsq "{'q': '{{prompt}}'}".

(** The response of the spec's example. *)
Definition choices_response : json :=
  JObject
    [(js "choices",
      JArray [JObject [(js "message", JObject [(js "content", JString (js "hi"))])]])].

(** The fenced answer of the spec's example. *)
Definition fenced_answer : jsstring :=
  jsq "Here is the result:\n```json\n{'a':1}\n```\nThanks".

(** The document of the spec's round trip. *)
Definition kv_document : json := JObject [(js "k", JString (js "v"))].

(** ** The chat session *)

Definition no_file_loaded : jsstring := js "No specific file loaded.".

(** Line 159: what the chat is told of the document. [contextData] is
    optional, and an absent one is undefined; [substring] keeps the first
    ten thousand code units. *)
Definition contextString (contextData : option json) : jsstring :=
  match contextData with
  | Some d =>
      if ToBoolean (VJson d) then firstn (N.to_nat 10000) (JSON_stringify d)
      else no_file_loaded
  | None => no_file_loaded
  end.





(** A chat of the client library: what [chat.sendMessage] answers to a
    message, a rejection or the [text] of a response, which may be
    undefined. *)
Definition chat : Type := jsstring -> exn + option jsstring.

Definition no_chat_response : jsstring := js "I couldn't generate a response.".

(** [sendMessage], lines 179 to 182. *)
Definition sendMessage (c : chat) (message : jsstring) : exn + jsstring :=
  match c message with
  | inl e => inl e
  | inr (Some (u :: text)) => inr (u :: text)
  | inr _ => inr no_chat_response
  end.

(** ** The settings form

    The form of src/unnamed/part_000 that edits the settings of the custom
    provider: its presets, its check of the two JSON fields, and what its
    handlers do to the state of the component. *)

Inductive preset_type : Type := COZE_V2 | OPENAI.

Record preset : Type := mkPreset {
  preset_url : jsstring;
  preset_method : HttpMethod;
  preset_headers : jsstring;
  preset_body : jsstring;
  preset_path : jsstring
}.

(** Lines 12 to 27. *)
Definition PRESETS (type : preset_type) : preset :=
  match type with
  | COZE_V2 =>
      mkPreset (js "https://api.coze.cn/open_api/v2/chat") POST
        (jsq "{\n  'Content-Type': 'application/json',\n  'Authorization': 'Bearer YOUR_PAT_TOKEN'\n}")
        (jsq "{\n  'bot_id': 'YOUR_BOT_ID',\n  'user': 'user_123456',\n  'query': {{prompt}},\n  'stream': false\n}")
        (js "messages.0.content")
  | OPENAI =>
      mkPreset (js "https://api.openai.com/v1/chat/completions") POST
        (jsq "{\n  'Content-Type': 'application/json',\n  'Authorization': 'Bearer YOUR_SK_KEY'\n}")
        (jsq "{\n  'model': 'gpt-3.5-turbo',\n  'messages': [\n    { 'role': 'user', 'content': {{prompt}} }\n  ]\n}")
        (js "choices.0.message.content")
  end.

(** The settings that [applyPreset] writes for a preset, lines 95 to
    103. *)
Definition preset_settings (type : preset_type) : ApiSettings :=
  let preset := PRESETS type in
  mkSettings CUSTOM (preset_url preset) (preset_method preset)
    (preset_headers preset) (preset_body preset) (preset_path preset).

(** The [errors] of the component: an object from field names to
    messages, its properties in the order of their creation. *)
Definition errors : Type := list (jsstring * jsstring).

(** [errors[key]] for a key that the prototype of objects does not define. *)
Fixpoint error_of (errs : errors) (key : jsstring) : option jsstring :=
  match errs with
  | [] => None
  | (k, msg) :: r => if str_eqb key k then Some msg else error_of r key
  end.

(** [{ ...prev, [key]: msg }]. *)
Fixpoint set_error (key msg : jsstring) (prev : errors) : errors :=
  match prev with
  | [] => [(key, msg)]
  | (k, m) :: r =>
      if str_eqb key k then (k, msg) :: r else (k, m) :: set_error key msg r
  end.

(** [{ const n = {...prev}; delete n[key]; return n; }]. *)
Fixpoint delete_error (key : jsstring) (prev : errors) : errors :=
  match prev with
  | [] => []
  | (k, m) :: r =>
      if str_eqb key k then delete_error key r
      else (k, m) :: delete_error key r
  end.

Definition field_headers : jsstring := js "customHeaders".
Definition field_body : jsstring := js "customBodyTemplate".

(** [validateJsonField], lines 49 to 68, as the update of [errors] that it
    asks for. *)
Definition validateJsonField (key value : jsstring) (prev : errors) : errors :=
  match trim value with
  | [] =>
      if str_eqb key field_body
      then set_error key (js "Body template cannot be empty") prev
      else delete_error key prev
  | _ =>
      let textToTest :=
        if str_eqb key field_body
        then replace value (js "{{prompt}}") (jsq "'TEST'")
        else value in
      match JSON_parse textToTest with
      | inr _ => delete_error key prev
      | inl _ => set_error key (js "Invalid JSON format") prev
      end
  end.

(** The state of the component: [prompt], [localSettings], [isSaved] and
    [errors]. *)
Record form : Type := mkForm {
  form_prompt : jsstring;
  localSettings : ApiSettings;
  isSaved : bool;
  form_errors : errors
}.

(** The state of the first render, lines 36 to 39. *)
Definition first_render (customPrompt : jsstring) (apiSettings : ApiSettings)
  : form :=
  mkForm customPrompt apiSettings false [].

(** The effect of lines 42 to 47, which runs after the first render and
    whenever the component is given another prompt or other settings. *)
Definition sync (customPrompt : jsstring) (apiSettings : ApiSettings)
  (st : form) : form :=
  mkForm customPrompt apiSettings (isSaved st)
    (validateJsonField field_body (customBodyTemplate apiSettings)
       (validateJsonField field_headers (customHeaders apiSettings)
          (form_errors st))).

(** A field of the settings with the value that it is given. *)
Inductive assignment : Type :=
| Provider (v : ApiProvider)
| CustomUrl (v : jsstring)
| CustomMethod (v : HttpMethod)
| CustomHeaders (v : jsstring)
| CustomBodyTemplate (v : jsstring)
| CustomResponsePath (v : jsstring).

(** [{ ...prev, [key]: value }]. *)
Definition assign (a : assignment) (prev : ApiSettings) : ApiSettings :=
  match a with
  | Provider v =>
      mkSettings v (customUrl prev) (customMethod prev) (customHeaders prev)
        (customBodyTemplate prev) (customResponsePath prev)
  | CustomUrl v =>
      mkSettings (provider prev) v (customMethod prev) (customHeaders prev)
        (customBodyTemplate prev) (customResponsePath prev)
  | CustomMethod v =>
      mkSettings (provider prev) (customUrl prev) v (customHeaders prev)
        (customBodyTemplate prev) (customResponsePath prev)
  | CustomHeaders v =>
      mkSettings (provider prev) (customUrl prev) (customMethod prev) v
        (customBodyTemplate prev) (customResponsePath prev)
  | CustomBodyTemplate v =>
      mkSettings (provider prev) (customUrl prev) (customMethod prev)
        (customHeaders prev) v (customResponsePath prev)
  | CustomResponsePath v =>
      mkSettings (provider prev) (customUrl prev) (customMethod prev)
        (customHeaders prev) (customBodyTemplate prev) v
  end.

(** [updateSetting], lines 86 to 91. *)
Definition updateSetting (a : assignment) (st : form) : form :=
  mkForm (form_prompt st) (assign a (localSettings st)) (isSaved st)
    (match a with
     | CustomHeaders v => validateJsonField field_headers v (form_errors st)
     | CustomBodyTemplate v => validateJsonField field_body v (form_errors st)
     | _ => form_errors st
     end).

(** [applyPreset], lines 93 to 108. *)
Definition applyPreset (type : preset_type) (st : form) : form :=
  let preset := PRESETS type in
  let newSettings :=
    assign (CustomResponsePath (preset_path preset))
      (assign (CustomBodyTemplate (preset_body preset))
         (assign (CustomHeaders (preset_headers preset))
            (assign (CustomMethod (preset_method preset))
               (assign (CustomUrl (preset_url preset))
                  (assign (Provider CUSTOM) (localSettings st)))))) in
  mkForm (form_prompt st) newSettings (isSaved st)
    (validateJsonField field_body (preset_body preset)
       (validateJsonField field_headers (preset_headers preset)
          (form_errors st))).

(** What [handleSave] does besides changing the state. *)
Inductive form_event : Type :=
| Alert (message : jsstring)
| OnSavePrompt (prompt : jsstring)
| OnSaveApiSettings (settings : ApiSettings)
| SetTimeout (ms : N).

(** A message, or its absence, as a condition. *)
Definition is_error (e : option jsstring) : bool :=
  match e with
  | Some (_ :: _) => true
  | _ => false
  end.

Definition is_custom (p : ApiProvider) : bool :=
  match p with
  | CUSTOM => true
  | GEMINI => false
  end.

(** [handleSave], lines 70 to 84: what it calls, and the state it leaves. *)
Definition handleSave (st : form) : list form_event * form :=
  let headerValid := negb (is_error (error_of (form_errors st) field_headers)) in
  let bodyValid := negb (is_error (error_of (form_errors st) field_body)) in
  if is_custom (provider (localSettings st))
     && (negb headerValid || negb bodyValid)
  then
    ([Alert (js "Please fix JSON errors in Custom API settings before saving.")],
     st)
  else
    ([OnSavePrompt (form_prompt st); OnSaveApiSettings (localSettings st);
      SetTimeout 2000],
     mkForm (form_prompt st) (localSettings st) true (form_errors st)).

(** The timer of line 83 fires. *)
Definition resetSaved (st : form) : form :=
  mkForm (form_prompt st) (localSettings st) false (form_errors st).

(** The text area of the prompt, line 297. *)
Definition setPrompt (prompt : jsstring) (st : form) : form :=
  mkForm prompt (localSettings st) (isSaved st) (form_errors st).

(** ** The second copy of the service

    The service as src/components/Settings.tsx holds it after the form,
    lines 214 to 405. It differs from src/services/geminiService.ts in the
    header step and the fetch of [callCustomApi], in what is logged and
    thrown when no string is found, and in the JSON recovery of
    [translateJson]; the body step, [getNestedValue] and the loop are the
    same. *)
Module SecondCopy.

Inductive event : Type :=
| Fetch (r : request)
| Generate (g : generate_request)
| WarnFullResponse (decoded : json)
| WarnFailedPath (customResponsePath : jsstring)
| WarnAttempt (attempt : N) (error : exn)
| Delay (ms : N).

Definition M (A : Type) : Type := list event * (exn + A).

Definition ret {A : Type} (a : A) : M A := ([], inr a).
Definition throw {A : Type} (e : exn) : M A := ([], inl e).
Definition emit (ev : event) : M unit := ([ev], inr tt).

Definition bind {A B : Type} (m : M A) (k : A -> M B) : M B :=
  match m with
  | (evs, inl e) => (evs, inl e)
  | (evs, inr a) => let (evs', r) := k a in (evs ++ evs', r)
  end.

Declare Scope second_copy_scope.
Notation "x <- m ;; k" := (bind m (fun x => k))
  (at level 61, m at next level, right associativity) : second_copy_scope.
Notation "m ;;; k" := (bind m (fun _ => k))
  (at level 61, right associativity) : second_copy_scope.
Local Open Scope second_copy_scope.

(** [e.message]: the text that an Error of the service was built with;
    [engine] gives the message of an exception of another origin. *)
Definition message_of (engine : exn -> jsstring) (e : exn) : jsstring :=
  match e with
  | Error message => message
  | _ => engine e
  end.

Definition invalid_headers (message : jsstring) : exn :=
  Error (js "Invalid Custom Headers format. Must be valid JSON. Error: "
           ++ message).

Definition network_failed (message : jsstring) : exn :=
  Error (js "Network request failed: " ++ message
           ++ js ". Check URL and CORS settings.").

Definition no_text_at (customResponsePath : jsstring) : exn :=
  Error (js "Could not find text at path '" ++ customResponsePath
           ++ js "'. See console for full response.").

(** Step 1, lines 230 to 238: the headers, an empty object when the text
    is blank. *)
Definition prepareHeaders (engine : exn -> jsstring) (customHeaders : jsstring)
  : M json :=
  let trimmedHeaders := trim customHeaders in
  match trimmedHeaders with
  | [] => ret (JObject [])
  | _ =>
      match JSON_parse trimmedHeaders with
      | inr v => ret v
      | inl e => throw (invalid_headers (message_of engine e))
      end
  end.

(** [callCustomApi], lines 226 to 291, as attempt [k] runs it; step 2,
    lines 244 to 260, is that of the first copy. *)
Definition callCustomApi (engine : exn -> jsstring) (h : host) (k : N)
  (prompt : jsstring) (settings : ApiSettings) : M jsstring :=
  (* 1. Prepare Headers *)
  headers <- prepareHeaders engine (customHeaders settings) ;;
  (* 2. Prepare Body *)
  let bodyStr := prepareBody (customBodyTemplate settings) prompt in
  (* 3. Fetch *)
  let req :=
    mkRequest (customUrl settings) (customMethod settings) headers
      (match customMethod settings with
       | POST => Some bodyStr
       | GET => None
       end) in
  emit (Fetch req) ;;;
  response <- match fetch h k req with
              | Resolved r => ret r
              | Rejected netErr => throw (network_failed (message_of engine netErr))
              end ;;
  if negb (resp_ok response)
  then throw (api_error (resp_status response) (resp_body response))
  else
    decoded <- ([], JSON_parse (resp_body response)) ;;
    (* 4. Extract Response *)
    let resultText := getNestedValue h decoded (customResponsePath settings) in
    match resultText with
    | VJson (JString s) => ret s
    | _ =>
        emit (WarnFullResponse decoded) ;;;
        emit (WarnFailedPath (customResponsePath settings)) ;;;
        throw (no_text_at (customResponsePath settings))
    end.

(** [indexOf] and [lastIndexOf] of a single code unit: the position of its
    first and of its last occurrence, -1 when it has none. *)
Fixpoint indexOf (c : N) (s : jsstring) : Z :=
  match s with
  | [] => -1
  | x :: r =>
      if x =? c then 0%Z
      else
        let i := indexOf c r in
        if (i =? -1)%Z then (-1)%Z else (i + 1)%Z
  end.

Fixpoint lastIndexOf (c : N) (s : jsstring) : Z :=
  match s with
  | [] => -1
  | x :: r =>
      let i := lastIndexOf c r in
      if (i =? -1)%Z then (if x =? c then 0%Z else (-1)%Z) else (i + 1)%Z
  end.

(** [substring] with one argument, and with 0 as its first. *)
Definition substring_from (start : Z) (s : jsstring) : jsstring :=
  skipn (Z.to_nat start) s.

Definition substring_to (stop : Z) (s : jsstring) : jsstring :=
  firstn (Z.to_nat stop) s.

(** Lines 353 to 355: where the first brace or bracket is, -1 when there
    is neither. *)
Definition startIdx (cleanText : jsstring) : Z :=
  let firstBrace := indexOf 123 cleanText in
  let firstBracket := indexOf 91 cleanText in
  if (firstBrace =? -1)%Z then firstBracket
  else if (firstBracket =? -1)%Z then firstBrace
  else Z.min firstBrace firstBracket.

(** Lines 360 to 362: where the last closing brace or bracket is. *)
Definition endIdx (cleanText : jsstring) : Z :=
  let lastBrace := lastIndexOf 125 cleanText in
  let lastBracket := lastIndexOf 93 cleanText in
  Z.max lastBrace lastBracket.

(** Lines 350 to 366: the text that [JSON.parse] is given. *)
Definition cleanResponse (text : jsstring) : jsstring :=
  let cleanText := trim (strip_fences text) in
  let startIdx := startIdx cleanText in
  if negb (startIdx =? -1)%Z then
    let cleanText := substring_from startIdx cleanText in
    let endIdx := endIdx cleanText in
    if negb (endIdx =? -1)%Z then substring_to (endIdx + 1) cleanText
    else cleanText
  else cleanText.

(** The adapter of lines 332 to 345. *)
Definition invokeAdapter (engine : exn -> jsstring) (h : host) (attempt : N)
  (instruction jsonString : jsstring) (apiSettings : option ApiSettings)
  : M jsstring :=
  let gemini :=
    let g :=
      mkGenerate modelId (geminiUserPrompt jsonString) instruction
        (js "application/json") in
    emit (Generate g) ;;;
    match generateContent h attempt g with
    | inl e => throw e
    | inr (Some text) => ret text
    | inr None => ret []
    end in
  match apiSettings with
  | Some settings =>
      match provider settings with
      | CUSTOM =>
          callCustomApi engine h attempt
            (fullPromptForCustom instruction jsonString) settings
      | GEMINI => gemini
      end
  | None => gemini
  end.

(** The body of the try block, lines 330 to 368. *)
Definition attemptOnce (engine : exn -> jsstring) (h : host) (attempt : N)
  (instruction jsonString : jsstring) (apiSettings : option ApiSettings)
  : M json :=
  text <- invokeAdapter engine h attempt instruction jsonString apiSettings ;;
  match text with
  | [] => throw no_response_text
  | _ => ([], JSON_parse (cleanResponse text))
  end.

(** The loop of lines 328 to 376. *)
Fixpoint retry (body : N -> M json) (attempts : list N) (lastError : option exn)
  : list event * loop_exit :=
  match attempts with
  | [] => ([], Fell lastError)
  | attempt :: later =>
      match body attempt with
      | (evs, inr v) => (evs, Returned v)
      | (evs, inl error) =>
          let warned := evs ++ [WarnAttempt attempt error] in
          if attempt =? maxRetries then (warned, Fell (Some error))
          else
            let (evs', r) := retry body later (Some error) in
            (warned ++ [Delay (1000 * 2 ^ attempt)] ++ evs', r)
      end
  end.

(** [translateJson], lines 293 to 379. *)
Definition translateJson (engine : exn -> jsstring) (h : host)
  (jsonData : json) (customPrompt : option jsstring)
  (apiSettings : option ApiSettings) : M json :=
  let instruction := systemInstruction customPrompt in
  let jsonString := JSON_stringify jsonData in
  match retry
          (fun attempt =>
             attemptOnce engine h attempt instruction jsonString apiSettings)
          attempt_numbers None with
  | (evs, Returned v) => (evs, inr v)
  | (evs, Fell (Some lastError)) => (evs, inl lastError)
  | (evs, Fell None) => (evs, inl translation_failed)
  end.

End SecondCopy.

(** ** More vocabulary *)

(** The calls to a provider among the events. *)
Fixpoint contacts_of (evs : list event) : nat :=
  match evs with
  | [] => O
  | Fetch _ :: r => S (contacts_of r)
  | Generate _ :: r => S (contacts_of r)
  | _ :: r => contacts_of r
  end.

(** Only white space, as [trim] sees it. *)
Definition blank (s : jsstring) : Prop := trim s = [].

(** The message that the form shows for a header text and for a body
    template, if any. *)
Definition headers_error (value : jsstring) : option jsstring :=
  match trim value with
  | [] => None
  | _ =>
      match JSON_parse value with
      | inr _ => None
      | inl _ => Some (js "Invalid JSON format")
      end
  end.

Definition body_error (value : jsstring) : option jsstring :=
  match trim value with
  | [] => Some (js "Body template cannot be empty")
  | _ =>
      match JSON_parse (replace value (js "{{prompt}}") (jsq "'TEST'")) with
      | inr _ => None
      | inl _ => Some (js "Invalid JSON format")
      end
  end.

(** What the form takes for a header text and for a body template. *)
Definition headers_accepted (value : jsstring) : Prop :=
  blank value \/ exists v, JSON_parse value = inr v.

Definition body_accepted (value : jsstring) : Prop :=
  ~ blank value
  /\ exists v, JSON_parse (replace value (js "{{prompt}}") (jsq "'TEST'")) = inr v.

(** The errors shown are those of the current texts of the two fields. *)
Definition in_step (st : form) : Prop :=
  error_of (form_errors st) field_headers
  = headers_error (customHeaders (localSettings st))
  /\ error_of (form_errors st) field_body
     = body_error (customBodyTemplate (localSettings st)).

(** What the user of the form can do to it. *)
Inductive action : Type :=
| Update (a : assignment)
| ApplyPreset (type : preset_type)
| SetPrompt (prompt : jsstring)
| Sync (customPrompt : jsstring) (apiSettings : ApiSettings)
| Save
| TimerFires.

Definition act (st : form) (a : action) : form :=
  match a with
  | Update a' => updateSetting a' st
  | ApplyPreset type => applyPreset type st
  | SetPrompt prompt => setPrompt prompt st
  | Sync customPrompt apiSettings => sync customPrompt apiSettings st
  | Save => snd (handleSave st)
  | TimerFires => resetSaved st
  end.

(** The form once mounted with a prompt and settings, then used. *)
Definition mounted (customPrompt : jsstring) (apiSettings : ApiSettings)
  (actions : list action) : form :=
  fold_left act actions
    (sync customPrompt apiSettings (first_render customPrompt apiSettings)).

(** ** Documents that JSON writes and reads back *)

(** A number as the record is meant to hold it: decimal digits, for zero
    none, neither sign nor exponent, and otherwise no zero at either
    end. The shortest decimal that reads back as a given double, which is
    what Number::toString writes of it, is of this form. *)
Definition canonical_number (x : number) : Prop :=
  Forall (fun d => d <= 9) (num_digits x)
  /\ match num_digits x with
     | [] => num_neg x = false /\ num_point x = 0%Z
     | d :: ds => d <> 0 /\ last (d :: ds) 1 <> 0
     end.

(** The object that [JSON.parse] builds from members in this order. *)
Definition created (props : list (jsstring * json)) : list (jsstring * json) :=
  fold_left (fun acc kv => CreateDataProperty acc (fst kv) (snd kv)) props [].

(** A document as [JSON.parse] can build it: the code units of its strings
    and keys are 16 bits wide, its numbers are canonical, and the
    properties of its objects are listed as the runtime enumerates them. *)
Fixpoint canonical (d : json) : Prop :=
  match d with
  | JNull | JBool _ => True
  | JNumber x => canonical_number x
  | JString s => Forall (fun c => c < 65536) s
  | JArray elems =>
      (fix all (l : list json) : Prop :=
         match l with
         | [] => True
         | e :: r => canonical e /\ all r
         end) elems
  | JObject props =>
      created props = props
      /\ (fix all (l : list (jsstring * json)) : Prop :=
            match l with
            | [] => True
            | (k, v) :: r => Forall (fun c => c < 65536) k /\ canonical v /\ all r
            end) props
  end.

(** An array or an object. *)
Definition is_container (d : json) : Prop :=
  match d with
  | JArray _ | JObject _ => True
  | _ => False
  end.

(** What follows a value inside a serialisation, or nothing. *)
Definition terminated (rest : jsstring) : Prop :=
  match rest with
  | [] => True
  | c :: _ => c = 44 \/ c = 93 \/ c = 125
  end.

(** A number token after its sign and its first digit [d]. *)
Definition number_after (neg : bool) (d : N) (r : jsstring)
  : option (number * jsstring) :=
  let (more, s2) := Parse.span_digits r in
  match d, more with
  | 0, _ :: _ => None
  | _, _ =>
      match Parse.fraction s2 with
      | None => None
      | Some (frac, s3) =>
          match Parse.exponent s3 with
          | None => None
          | Some (e, s4) =>
              Some (Num.of_parts neg (d :: Num.digits_of more)
                      (Num.digits_of frac) e, s4)
          end
      end
  end.

(** The text of one member of an object. *)
Definition member_text (kv : jsstring * json) : jsstring :=
  QuoteJSONString (fst kv) ++ [58] ++ JSON_stringify (snd kv).

(** [JSON.parse] reads the serialisation of [d] back as [d], whatever
    follows it inside a serialisation, unless it is cut short. *)
Definition reads_back (d : json) : Prop :=
  forall fuel rest,
    terminated rest ->
    Parse.json_value fuel (JSON_stringify d ++ rest) = Parse.OutOfFuel
    \/ Parse.json_value fuel (JSON_stringify d ++ rest) = Parse.Parsed d rest.

(** A document with every kind of value, one of them negative and with a
    fraction. *)
Definition song_document : json :=
  JObject
    [(js "title", JString (jsq "Verse\n'Chorus'"));
     (js "bpm", JNumber (Num.from_N 120));
     (js "gain", JNumber (mkNumber true [1; 5] 0));
     (js "tags", JArray [JString (js "rock"); JNull; JBool true; JArray []]);
     (js "key", JObject [(js "0", JBool false)])].
(** * Properties *)

(** ** The runtime model on samples *)

Example js_ascii : js "a.b" = [97; 46; 98].
Proof. reflexivity. Qed.

Example jsq_quotes : jsq "{'a':1}\n" = [123; 34; 97; 34; 58; 49; 125; 10].
Proof. reflexivity. Qed.

Example js_bmp : js "你{" = [20320; 123].
Proof. reflexivity. Qed.

Example replace_first_only :
  replace (js "a-b-c") (js "-") (js "+") = js "a+b-c".
Proof. reflexivity. Qed.

Example replace_dollar_patterns :
  replace (js "<x>") (js "x") (js "[$$|$&|$`|$'|$1]") = js "<[$|x|<|>|$1]>".
Proof. reflexivity. Qed.

Example split_dots : split 46 (js "a..b.") = [js "a"; js ""; js "b"; js ""].
Proof. reflexivity. Qed.

Example trim_both : trim (jsq " \n x y\n ") = js "x y".
Proof. reflexivity. Qed.

Example toString_samples :
  map Num.toString
    [Num.of_parts false [1; 0; 0] [] 0; Num.of_parts true [0] [0; 5] 0;
     Num.of_parts false [1] [5] 21; Num.of_parts false [1] [] (-7);
     Num.of_parts true [0] [] 0; Num.from_N 404]
  = [js "100"; js "-0.05"; js "1.5e+21"; js "1e-7"; js "0"; js "404"].
Proof. reflexivity. Qed.

Example parse_object :
  JSON_parse (jsq " {'b': [1, -2.50e1, true, null], '1': 'x\\ny\\u0041', 'b': {}} ")
  = inr (JObject [(js "1", JString (jsq "x\nyA")); (js "b", JObject [])]).
Proof. reflexivity. Qed.

Example parse_numbers :
  JSON_parse (jsq "[1, -2.50e1, 0.05, 100]")
  = inr (JArray [JNumber (mkNumber false [1] 1); JNumber (mkNumber true [2; 5] 2);
                 JNumber (mkNumber false [5] (-1)); JNumber (mkNumber false [1] 3)]).
Proof. reflexivity. Qed.

Example parse_rejects :
  map JSON_parse
    [js ""; js "01"; js "[1,]"; jsq "{'a':1,}"; js "{a:1}"; js "1 2";
     jsq "'a"; js "tru"; js "1."; js "-"; jsq "'\\x'"]
  = repeat (inl SyntaxError) 11.
Proof. reflexivity. Qed.

Example stringify_string :
  QuoteJSONString (jsq "a'b\\c\nd") = jsq "'a\\'b\\\\c\\nd'".
Proof. reflexivity. Qed.

Example stringify_control_and_surrogates :
  QuoteJSONString [1; 55357; 56832; 56832]
  = [34] ++ js "\u0001" ++ [55357; 56832] ++ js "\ude00" ++ [34].
Proof. reflexivity. Qed.

Example stringify_document :
  JSON_stringify
    (JObject [(js "k", JString (js "v"));
              (js "n", JArray [JNumber (Num.from_N 12); JNull; JBool false])])
  = jsq "{'k':'v','n':[12,null,false]}".
Proof. reflexivity. Qed.

Example defaultSystemInstruction_length :
  length defaultSystemInstruction = 662%nat.
Proof. reflexivity. Qed.

Example property_access :
  map (fun key => GetOwnProperty (VJson (JString (js "xyz"))) (js key))
    ["0"; "2"; "3"; "01"; "length"]%string
  = [Some (VJson (JString (js "x"))); Some (VJson (JString (js "z"))); None;
     None; Some (VJson (JNumber (Num.from_N 3)))].
Proof. reflexivity. Qed.

(** A fence that follows a line feed loses the line feed and its three
    backquotes, and keeps the word json. *)
Example strip_fences_samples :
  strip_fences fenced_answer = jsq "Here is the result:json\n{'a':1}\nThanks"
  /\ strip_fences (jsq "```json\n[1]\n```") = js "[1]"
  /\ strip_fences (jsq "```\n[1]```") = jsq "\n[1]".
Proof. repeat split. Qed.

Example match_json_block_samples :
  map match_json_block
    [jsq "so: {'a':[1]} ] done"; js "x { [1, 2] }"; js "} [ { ] x"; js "{ ["; js "42"]
  = [Some (jsq "{'a':[1]}"); Some (js "{ [1, 2] }"); Some (js "[ { ]"); None; None].
Proof. reflexivity. Qed.

(** ** Strings *)

Lemma str_eqb_eq (a b : jsstring) : str_eqb a b = true <-> a = b.
Proof.
  revert b. induction a as [|x a IH]; intros [|y b]; simpl; split; intro H;
    try reflexivity; try discriminate.
  - apply andb_true_iff in H as [Hx Hr]. apply N.eqb_eq in Hx.
    apply IH in Hr. now subst.
  - injection H as -> ->. rewrite N.eqb_refl. simpl. now apply IH.
Qed.

Lemma str_eqb_refl (a : jsstring) : str_eqb a a = true.
Proof. now apply str_eqb_eq. Qed.

Lemma strip_prefix_app (p s rest : jsstring) :
  strip_prefix p s = Some rest <-> s = p ++ rest.
Proof.
  revert s. induction p as [|x p IH]; intros s; simpl.
  - split; intro H; [now injection H as -> | now subst].
  - destruct s as [|y s]; [split; discriminate|].
    destruct (N.eqb_spec x y) as [->|Hne].
    + rewrite IH. split; intro H; [now subst | now injection H].
    + split; [discriminate | intro H; injection H as -> _; contradiction].
Qed.

(** [split_at_first] finds an occurrence of the pattern. *)
Lemma split_at_first_app (pat s before after : jsstring) :
  split_at_first pat s = Some (before, after) -> s = before ++ pat ++ after.
Proof.
  revert before. induction s as [|c s IH]; intros before; simpl.
  - destruct (strip_prefix pat []) eqn:E; [|discriminate].
    intro H. injection H as <- <-. now apply strip_prefix_app in E.
  - destruct (strip_prefix pat (c :: s)) eqn:E.
    + intro H. injection H as <- <-. now apply strip_prefix_app in E.
    + destruct (split_at_first pat s) as [[b a]|]; [|discriminate].
      intro H. injection H as <- <-. simpl. f_equal. now apply IH.
Qed.

(** ... the first one: no occurrence starts earlier ... *)
Lemma split_at_first_leftmost (pat s before after : jsstring) :
  split_at_first pat s = Some (before, after) ->
  forall b a, s = b ++ pat ++ a -> (length before <= length b)%nat.
Proof.
  revert before. induction s as [|c s IH]; intros before; simpl.
  - destruct (strip_prefix pat []); [|discriminate].
    intros [= <- _] b a _. simpl. lia.
  - destruct (strip_prefix pat (c :: s)) eqn:E.
    + intros [= <- _] b a _. simpl. lia.
    + destruct (split_at_first pat s) as [[b' a']|] eqn:F; [|discriminate].
      intros [= <- <-] b a H. destruct b as [|x b].
      * simpl in H. apply strip_prefix_app in H.
        rewrite H in E. discriminate.
      * injection H as _ H. simpl. apply le_n_S. now apply (IH b' eq_refl b a).
Qed.

(** ... and where it finds none, there is none. *)
Lemma split_at_first_none (pat s : jsstring) :
  split_at_first pat s = None -> forall b a, s <> b ++ pat ++ a.
Proof.
  induction s as [|c s IH]; simpl.
  - destruct (strip_prefix pat []) eqn:E; [discriminate|].
    intros _ b a H. destruct b; simpl in H.
    + apply strip_prefix_app in H. rewrite H in E. discriminate.
    + discriminate.
  - destruct (strip_prefix pat (c :: s)) eqn:E; [discriminate|].
    destruct (split_at_first pat s) as [[b' a']|]; [discriminate|].
    intros _ b a H. destruct b as [|x b].
    + simpl in H. apply strip_prefix_app in H.
      rewrite H in E. discriminate.
    + injection H as _ H. now apply (IH eq_refl b a).
Qed.

(** A replacement text with no dollar sign stands for itself. *)
Lemma GetSubstitution_plain (matched before after template : jsstring) :
  ~ In 36 template ->
  GetSubstitution matched before after template = template.
Proof.
  induction template as [|c r IH]; simpl; intro H; [reflexivity|].
  assert (Hc : c <> 36) by (intro; subst; apply H; now left).
  assert (Hr : ~ In 36 r) by (intro; apply H; now right).
  specialize (IH Hr).
  destruct c as [|p]; [now rewrite IH|].
  do 6 (destruct p as [p|p|]; try now rewrite IH).
  all: try (exfalso; apply Hc; reflexivity).
Qed.

(** Induction over a list two elements at a time. *)
Lemma list_pair_ind {A : Type} (P : list A -> Prop) :
  P [] -> (forall x, P [x]) ->
  (forall x y l, P l -> P (y :: l) -> P (x :: y :: l)) ->
  forall l, P l.
Proof.
  intros H0 H1 H2 l.
  enough (H : P l /\ forall x, P (x :: l)) by apply H.
  induction l as [|y l [IHa IHb]]; split; auto.
Qed.

Lemma hex_digit_not_dollar (d : N) : Quote.hex_digit d <> 36.
Proof.
  unfold Quote.hex_digit. destruct (N.ltb_spec d 10); lia.
Qed.

Lemma unicode_escape_no_dollar (c : N) : ~ In 36 (Quote.unicode_escape c).
Proof.
  unfold Quote.unicode_escape. simpl.
  intros [H|[H|[H|[H|[H|[H|[]]]]]]]; try discriminate;
    now apply hex_digit_not_dollar in H.
Qed.

Lemma escape_unit_dollar (c : N) : In 36 (Quote.escape_unit c) -> c = 36.
Proof.
  unfold Quote.escape_unit.
  repeat match goal with
  | |- context [if ?b then _ else _] => destruct b eqn:?
  end; simpl; intro H;
  try (destruct H as [H|[H|[]]]; discriminate).
  - now apply unicode_escape_no_dollar in H.
  - now destruct H as [H|[]].
Qed.

(** Quoting adds no dollar sign. *)
Lemma Quote_body_dollar (s : jsstring) : In 36 (Quote.body s) -> In 36 s.
Proof.
  induction s as [|x|x y l IHl IHyl] using list_pair_ind.
  - auto.
  - cbn [Quote.body]. destruct (Quote.is_high_surrogate x).
    + intro H. now apply unicode_escape_no_dollar in H.
    + destruct (Quote.is_low_surrogate x); intro H;
        apply in_app_or in H as [H|[]].
      * now apply unicode_escape_no_dollar in H.
      * left. now apply escape_unit_dollar.
  - change (Quote.body (x :: y :: l)) with
      (if Quote.is_high_surrogate x then
         if Quote.is_low_surrogate y then x :: y :: Quote.body l
         else Quote.unicode_escape x ++ Quote.body (y :: l)
       else if Quote.is_low_surrogate x
            then Quote.unicode_escape x ++ Quote.body (y :: l)
            else Quote.escape_unit x ++ Quote.body (y :: l)).
    destruct (Quote.is_high_surrogate x) eqn:Hx.
    + destruct (Quote.is_low_surrogate y) eqn:Hy.
      * intros [H|[H|H]]; [now left | right; now left | right; right; auto].
      * intro H. apply in_app_or in H as [H|H];
          [now apply unicode_escape_no_dollar in H | right; auto].
    + destruct (Quote.is_low_surrogate x); intro H;
        apply in_app_or in H as [H|H]; try (right; now auto).
      * now apply unicode_escape_no_dollar in H.
      * left. now apply escape_unit_dollar.
Qed.

Lemma QuoteJSONString_dollar (s : jsstring) :
  In 36 (QuoteJSONString s) -> In 36 s.
Proof.
  unfold QuoteJSONString. simpl. intros [H|H]; [discriminate|].
  apply in_app_or in H as [H|[H|[]]]; [|discriminate].
  now apply Quote_body_dollar.
Qed.

(** For a prompt with no dollar sign the replacement is the encoded prompt
    as it stands. *)
Lemma prepareBody_without_dollar (template prompt : jsstring) :
  ~ In 36 prompt -> prepareBody template prompt = substitute_spec template prompt.
Proof.
  intro H.
  assert (Hq : ~ In 36 (QuoteJSONString prompt))
    by (intro Hin; now apply QuoteJSONString_dollar in Hin).
  unfold prepareBody, substitute_spec, includes, replace.
  destruct (split_at_first quoted_placeholder template) as [[b a]|].
  - now rewrite GetSubstitution_plain.
  - destruct (split_at_first bare_placeholder template) as [[b a]|];
      [now rewrite GetSubstitution_plain | reflexivity].
Qed.

(** ** The parser never runs out of fuel *)

Lemma skip_ws_length (s : jsstring) : (length (Parse.skip_ws s) <= length s)%nat.
Proof.
  induction s as [|c r IH]; simpl; [lia|].
  destruct (Parse.is_ws c); simpl; lia.
Qed.

Lemma skip_ws_cons (s r : jsstring) (c : N) :
  Parse.skip_ws s = c :: r -> (length r < length s)%nat.
Proof.
  intro H. pose proof (skip_ws_length s) as L. rewrite H in L. simpl in L. lia.
Qed.

Lemma strip_prefix_length (p s rest : jsstring) :
  strip_prefix p s = Some rest -> length s = (length p + length rest)%nat.
Proof.
  intro H. apply strip_prefix_app in H. subst. apply length_app.
Qed.

Lemma string_chars_length (s str rest : jsstring) :
  Parse.string_chars s = Some (str, rest) -> (length rest < length s)%nat.
Proof.
  revert s str rest.
  enough (H : forall n s, (length s <= n)%nat -> forall str rest,
            Parse.string_chars s = Some (str, rest) -> (length rest < length s)%nat)
    by (intros; eapply H; eauto).
  induction n as [|n IH]; intros s L str rest.
  - destruct s; [discriminate | simpl in L; lia].
  - destruct s as [|c r]; [discriminate|]. simpl in L.
    assert (Hpush : forall u t, (length t <= n)%nat ->
              Parse.push u (Parse.string_chars t) = Some (str, rest) ->
              (length rest < length t)%nat).
    { intros u t Lt. unfold Parse.push.
      destruct (Parse.string_chars t) as [[str' rest']|] eqn:E; [|discriminate].
      intros [= <- <-]. eapply IH; eauto. }
    cbn [Parse.string_chars].
    destruct (c =? 34).
    { intros [= <- <-]. simpl. lia. }
    destruct (c =? 92).
    + destruct r as [|e r1]; [discriminate|]. simpl in L.
      destruct (Parse.simple_escape e).
      * intro H. apply Hpush in H; simpl; lia.
      * destruct (e =? 117); [|discriminate].
        destruct r1 as [|h1 [|h2 [|h3 [|h4 r2]]]]; try discriminate.
        destruct (Parse.hex4 h1 h2 h3 h4); [|discriminate].
        simpl in L. intro H. apply Hpush in H; simpl; lia.
    + destruct (c <? 32); [discriminate|].
      intro H. apply Hpush in H; simpl; lia.
Qed.

Lemma span_digits_length (s ds rest : jsstring) :
  Parse.span_digits s = (ds, rest) -> length s = (length ds + length rest)%nat.
Proof.
  revert ds rest. induction s as [|c r IH]; intros ds rest; simpl.
  - now intros [= <- <-].
  - destruct (Num.is_digit c).
    + destruct (Parse.span_digits r) as [ds' rest'].
      intros [= <- <-]. simpl. now rewrite (IH ds' rest').
    + now intros [= <- <-].
Qed.

Lemma fraction_length (s ds rest : jsstring) :
  Parse.fraction s = Some (ds, rest) -> (length rest <= length s)%nat.
Proof.
  unfold Parse.fraction. destruct s as [|c r]; [now intros [= <- <-]|].
  destruct (N.eq_dec c 46) as [->|Hc].
  - destruct (Parse.span_digits r) as [[|d ds'] rest'] eqn:E; [discriminate|].
    intros [= <- <-]. apply span_digits_length in E. simpl in *. lia.
  - assert (H : forall X : option (jsstring * jsstring),
              match c with 46 => X | _ => Some ([], c :: r) end
              = Some ([], c :: r)).
    { intro X. destruct c as [|p]; [reflexivity|].
      do 6 (destruct p as [p|p|]; try reflexivity). now contradiction Hc. }
    rewrite H. now intros [= <- <-].
Qed.

Lemma exponent_digits_length (neg : bool) (s rest : jsstring) (e : Z) :
  Parse.exponent_digits neg s = Some (e, rest) -> (length rest <= length s)%nat.
Proof.
  unfold Parse.exponent_digits.
  destruct (Parse.span_digits s) as [[|d ds] rest'] eqn:E; [discriminate|].
  intros [= _ <-]. apply span_digits_length in E. lia.
Qed.

Lemma exponent_length (s rest : jsstring) (e : Z) :
  Parse.exponent s = Some (e, rest) -> (length rest <= length s)%nat.
Proof.
  unfold Parse.exponent. destruct s as [|c r]; [now intros [= _ <-]|].
  destruct ((c =? 101) || (c =? 69)); [|now intros [= _ <-]].
  assert (Hd : forall neg t, (length t <= length r)%nat ->
            Parse.exponent_digits neg t = Some (e, rest) ->
            (length rest <= length (c :: r))%nat).
  { intros neg t Lt H. apply exponent_digits_length in H. simpl. lia. }
  destruct r as [|s0 r']; [apply Hd; lia|].
  destruct s0 as [|p]; [apply Hd; lia|].
  do 6 (destruct p as [p|p|]; try (apply Hd; simpl; lia)).
Qed.

Lemma number_token_length (s rest : jsstring) (x : number) :
  Parse.number_token s = Some (x, rest) -> (length rest < length s)%nat.
Proof.
  unfold Parse.number_token.
  assert (H : forall neg s1, (length s1 <= length s)%nat ->
    match Parse.span_digits s1 with
    | ([], _) => None
    | (48 :: _ :: _, _) => None
    | (int, s2) =>
        match Parse.fraction s2 with
        | None => None
        | Some (frac, s3) =>
            match Parse.exponent s3 with
            | None => None
            | Some (e, s4) =>
                Some (Num.of_parts neg (Num.digits_of int) (Num.digits_of frac) e, s4)
            end
        end
    end = Some (x, rest) -> (length rest < length s)%nat).
  { intros neg s1 L1.
    destruct (Parse.span_digits s1) as [int s2] eqn:E.
    apply span_digits_length in E.
    assert (K : match Parse.fraction s2 with
                | None => None
                | Some (frac, s3) =>
                    match Parse.exponent s3 with
                    | None => None
                    | Some (e, s4) =>
                        Some (Num.of_parts neg (Num.digits_of int)
                                (Num.digits_of frac) e, s4)
                    end
                end = Some (x, rest) -> int <> [] -> (length rest < length s)%nat).
    { destruct (Parse.fraction s2) as [[frac s3]|] eqn:F; [|discriminate].
      destruct (Parse.exponent s3) as [[e s4]|] eqn:X; [|discriminate].
      intros [= _ <-] Hne. apply fraction_length in F. apply exponent_length in X.
      destruct int; [contradiction|]. simpl in E. lia. }
    destruct int as [|d int']; [discriminate|].
    destruct d as [|p]; [intro H'; apply K; [exact H'|discriminate]|].
    do 6 (destruct p as [p|p|]; try (intro H'; apply K; [exact H'|discriminate])).
    destruct int'; [|discriminate]. intro H'. apply K; [exact H'|discriminate]. }
  destruct s as [|c r]; [apply H; lia|].
  destruct c as [|p]; [apply H; lia|].
  do 6 (destruct p as [p|p|]; try (apply H; simpl; lia)).
Qed.

Lemma keyword_length (word s rest : jsstring) (v v' : json) :
  Parse.keyword word v s = Parse.Parsed v' rest ->
  word <> [] -> (length rest < length s)%nat.
Proof.
  unfold Parse.keyword. destruct (strip_prefix word s) eqn:E; [|discriminate].
  intros [= _ <-] Hne. apply strip_prefix_length in E.
  destruct word; [contradiction|]. simpl in E. lia.
Qed.

(** Destructs the matches of a hypothesis, and the impossible cases with
    them. *)
Ltac split_match H :=
  repeat match type of H with
  | context [match ?x with _ => _ end] => destruct x eqn:?; try discriminate H
  end.

(** Collects what the lexical lemmas say about the lengths at hand. *)
Ltac length_facts :=
  repeat match goal with
  | H : Parse.skip_ws _ = _ :: _ |- _ => apply skip_ws_cons in H
  | H : Parse.string_chars _ = Some _ |- _ => apply string_chars_length in H
  | H : Parse.number_token _ = Some _ |- _ => apply number_token_length in H
  | H : Parse.keyword _ _ _ = Parse.Parsed _ _ |- _ =>
      apply keyword_length in H; [|discriminate]
  end.

(** What a parser leaves is shorter than what it was given. *)
Lemma parse_rest_shorter (fuel : nat) :
  (forall s v rest,
     Parse.json_value fuel s = Parse.Parsed v rest -> (length rest < length s)%nat)
  /\ (forall s acc v rest,
        Parse.elements fuel s acc = Parse.Parsed v rest ->
        (length rest < length s)%nat)
  /\ (forall s acc v rest,
        Parse.members fuel s acc = Parse.Parsed v rest ->
        (length rest < length s)%nat).
Proof.
  induction fuel as [|f (IHv & IHe & IHm)]; repeat split; try discriminate.
  - intros s v rest H. cbn [Parse.json_value] in H. split_match H;
      try (injection H as <- <-); length_facts;
      try (apply IHm in H); try (apply IHe in H); simpl in *; lia.
  - intros s acc v rest H. cbn [Parse.elements] in H. split_match H;
      try (injection H as <- <-); length_facts;
      repeat match goal with
      | K : Parse.json_value f _ = Parse.Parsed _ _ |- _ => apply IHv in K
      end;
      try (apply IHe in H); simpl in *; lia.
  - intros s acc v rest H. cbn [Parse.members] in H. split_match H;
      try (injection H as <- <-); length_facts;
      repeat match goal with
      | K : Parse.json_value f _ = Parse.Parsed _ _ |- _ => apply IHv in K
      end;
      try (apply IHm in H); simpl in *; lia.
Qed.

(** The fuel of [JSON_parse] is enough: a text it rejects has a syntax
    error. *)
Lemma parse_fuel_enough (fuel : nat) :
  (forall s, (2 * length s + 1 <= fuel)%nat ->
             Parse.json_value fuel s <> Parse.OutOfFuel)
  /\ (forall s acc, (2 * length s + 2 <= fuel)%nat ->
                    Parse.elements fuel s acc <> Parse.OutOfFuel)
  /\ (forall s acc, (2 * length s + 2 <= fuel)%nat ->
                    Parse.members fuel s acc <> Parse.OutOfFuel).
Proof.
  induction fuel as [|f (IHv & IHe & IHm)]; repeat split; try (intros; lia).
  - intros s L H. cbn [Parse.json_value] in H. unfold Parse.keyword in H.
    split_match H; length_facts;
      try (apply IHm in H; [assumption|]); try (apply IHe in H; [assumption|]);
      simpl in *; lia.
  - intros s acc L H. cbn [Parse.elements] in H.
    destruct (Parse.json_value f s) as [v r| |] eqn:E.
    + apply (proj1 (parse_rest_shorter f)) in E.
      split_match H; length_facts. apply IHe in H; [assumption|]. simpl in *; lia.
    + discriminate.
    + apply IHv in E; [assumption|lia].
  - intros s acc L H. cbn [Parse.members] in H.
    split_match H; length_facts.
    + match goal with
      | K : Parse.json_value f _ = Parse.Parsed _ _ |- _ =>
          apply (proj1 (parse_rest_shorter f)) in K
      end.
      apply IHm in H; [assumption|]. simpl in *; lia.
    + match goal with
      | K : Parse.json_value f _ = Parse.OutOfFuel |- _ =>
          apply IHv in K; [assumption|]
      end.
      simpl in *; lia.
Qed.

Lemma JSON_parse_fuel (text : jsstring) :
  Parse.json_value (Parse.fuel_for text) text <> Parse.OutOfFuel.
Proof.
  apply (proj1 (parse_fuel_enough (Parse.fuel_for text))).
  unfold Parse.fuel_for. lia.
Qed.

(** ** Quoting and parsing a string *)

Lemma hex_value_digit (d : N) : d < 16 -> Parse.hex_value (Quote.hex_digit d) = Some d.
Proof.
  intro H. unfold Quote.hex_digit, Parse.hex_value.
  destruct (N.ltb_spec d 10).
  - replace ((48 <=? 48 + d) && (48 + d <=? 57)) with true.
    + f_equal. lia.
    + symmetry. apply andb_true_iff. split; apply N.leb_le; lia.
  - replace ((48 <=? 87 + d) && (87 + d <=? 57)) with false.
    + replace ((97 <=? 87 + d) && (87 + d <=? 102)) with true.
      * f_equal. lia.
      * symmetry. apply andb_true_iff. split; apply N.leb_le; lia.
    + symmetry. apply andb_false_iff. right. apply N.leb_gt. lia.
Qed.

Lemma nibble_bound (x : N) : N.land x 15 < 16.
Proof.
  change 15 with (N.ones 4). rewrite N.land_ones. now apply N.mod_lt.
Qed.

Lemma nibbles_compose (c : N) :
  c < 65536 ->
  ((N.land (N.shiftr c 12) 15 * 16 + N.land (N.shiftr c 8) 15) * 16
   + N.land (N.shiftr c 4) 15) * 16 + N.land c 15 = c.
Proof.
  intro H. change 15 with (N.ones 4). rewrite !N.land_ones, !N.shiftr_div_pow2.
  change (2 ^ 12) with 4096. change (2 ^ 8) with 256. change (2 ^ 4) with 16.
  zify. Z.to_euclidean_division_equations. lia.
Qed.

Lemma unicode_escape_parses (c : N) (t : jsstring) :
  c < 65536 ->
  Parse.string_chars (Quote.unicode_escape c ++ t)
  = Parse.push c (Parse.string_chars t).
Proof.
  intro H. unfold Quote.unicode_escape.
  cbn [app Parse.string_chars N.eqb Pos.eqb Parse.simple_escape].
  unfold Parse.hex4. rewrite !hex_value_digit by apply nibble_bound.
  now rewrite nibbles_compose.
Qed.

Lemma plain_unit_parses (c : N) (t : jsstring) :
  c <> 34 -> c <> 92 -> 32 <= c ->
  Parse.string_chars (c :: t) = Parse.push c (Parse.string_chars t).
Proof.
  intros H1 H2 H3. cbn [Parse.string_chars].
  destruct (N.eqb_spec c 34); [contradiction|].
  destruct (N.eqb_spec c 92); [contradiction|].
  destruct (N.ltb_spec c 32); [lia|reflexivity].
Qed.

Lemma escape_unit_parses (c : N) (t : jsstring) :
  c < 65536 ->
  Parse.string_chars (Quote.escape_unit c ++ t)
  = Parse.push c (Parse.string_chars t).
Proof.
  intro H. unfold Quote.escape_unit.
  destruct (N.eqb_spec c 8) as [->|]; [reflexivity|].
  destruct (N.eqb_spec c 9) as [->|]; [reflexivity|].
  destruct (N.eqb_spec c 10) as [->|]; [reflexivity|].
  destruct (N.eqb_spec c 12) as [->|]; [reflexivity|].
  destruct (N.eqb_spec c 13) as [->|]; [reflexivity|].
  destruct (N.eqb_spec c 34) as [->|]; [reflexivity|].
  destruct (N.eqb_spec c 92) as [->|]; [reflexivity|].
  destruct (N.ltb_spec c 32).
  - now apply unicode_escape_parses.
  - now apply plain_unit_parses.
Qed.

Lemma surrogate_is_plain (c : N) :
  Quote.is_high_surrogate c = true \/ Quote.is_low_surrogate c = true ->
  c <> 34 /\ c <> 92 /\ 32 <= c.
Proof.
  unfold Quote.is_high_surrogate, Quote.is_low_surrogate.
  intros [H|H]; apply andb_true_iff in H as [H _]; apply N.leb_le in H; lia.
Qed.

(** What [QuoteJSONString] writes, [JSON.parse] reads back: the literal of a
    string of 16-bit code units, followed by [rest], parses to the string
    and leaves [rest]. *)
Lemma string_chars_quote (s rest : jsstring) :
  Forall (fun c => c < 65536) s ->
  Parse.string_chars (Quote.body s ++ 34 :: rest) = Some (s, rest).
Proof.
  induction s as [|x|x y l IHl IHyl] using list_pair_ind; intro F.
  - reflexivity.
  - apply Forall_inv in F. cbn [Quote.body].
    destruct (Quote.is_high_surrogate x);
      [|destruct (Quote.is_low_surrogate x)];
      rewrite <- ?app_assoc;
      rewrite ?unicode_escape_parses, ?escape_unit_parses by assumption;
      reflexivity.
  - pose proof (Forall_inv F) as Fx. apply Forall_inv_tail in F.
    pose proof (Forall_inv F) as Fy. pose proof (Forall_inv_tail F) as Fl.
    change (Quote.body (x :: y :: l)) with
      (if Quote.is_high_surrogate x then
         if Quote.is_low_surrogate y then x :: y :: Quote.body l
         else Quote.unicode_escape x ++ Quote.body (y :: l)
       else if Quote.is_low_surrogate x
            then Quote.unicode_escape x ++ Quote.body (y :: l)
            else Quote.escape_unit x ++ Quote.body (y :: l)).
    destruct (Quote.is_high_surrogate x) eqn:Hx.
    + destruct (Quote.is_low_surrogate y) eqn:Hy.
      * destruct (surrogate_is_plain x (or_introl Hx)) as (A1 & A2 & A3).
        destruct (surrogate_is_plain y (or_intror Hy)) as (B1 & B2 & B3).
        cbn [app]. rewrite !plain_unit_parses by assumption.
        now rewrite (IHl Fl).
      * rewrite <- app_assoc, unicode_escape_parses by assumption.
        now rewrite (IHyl F).
    + destruct (Quote.is_low_surrogate x);
        rewrite <- app_assoc;
        rewrite ?unicode_escape_parses, ?escape_unit_parses by assumption;
        now rewrite (IHyl F).
Qed.

Lemma parse_q_object (s : jsstring) :
  Forall (fun c => c < 65536) s ->
  JSON_parse (jsq "{'q': " ++ QuoteJSONString s ++ js "}")
  = inr (JObject [(js "q", JString s)]).
Proof.
  intro F. unfold JSON_parse, QuoteJSONString.
  change (jsq "{'q': " ++ ([34] ++ Quote.body s ++ [34]) ++ js "}")
    with (123 :: 34 :: 113 :: 34 :: 58 :: 32 :: 34 :: (Quote.body s ++ [34]) ++ [125]).
  rewrite <- app_assoc. cbn [app].
  set (tail := Quote.body s ++ [34; 125]).
  unfold Parse.fuel_for. cbn [length Nat.mul Nat.add].
  cbn [Parse.json_value Parse.members Parse.skip_ws Parse.is_ws N.eqb Pos.eqb
       orb Parse.string_chars Parse.simple_escape N.ltb N.compare Pos.compare
       Pos.compare_cont Parse.push].
  subst tail. rewrite (string_chars_quote s [125] F).
  reflexivity.
Qed.

(** Exactly one substitution, as the spec words it, for every prompt that
    holds no dollar sign: the first quoted placeholder, or else the first
    bare placeholder, gives way to the encoded prompt, and a template with
    no placeholder is returned as it is. *)
Theorem prepareBody_substitutes_as_spec (template prompt : jsstring) :
  ~ In 36 prompt ->
  prepareBody template prompt = substitute_spec template prompt
  /\ (includes template quoted_placeholder = false ->
      includes template bare_placeholder = false ->
      prepareBody template prompt = template).
Proof.
  intro H. split; [now apply prepareBody_without_dollar|].
  unfold prepareBody, includes, replace.
  destruct (split_at_first quoted_placeholder template); [discriminate|].
  destruct (split_at_first bare_placeholder template); [discriminate|].
  reflexivity.
Qed.

(** A list of code units that holds none of some unit. *)
Ltac not_in_units :=
  let H := fresh in
  intro H; repeat (destruct H as [H|H]; [discriminate|]); exact H.

Lemma prepareBody_substitutes_as_spec_witness :
  prepareBody quoted_template (jsq "say 'hi'")
  = substitute_spec quoted_template (jsq "say 'hi'").
Proof.
  apply (prepareBody_substitutes_as_spec quoted_template (jsq "say 'hi'")).
  not_in_units.
Defined.

(** For a prompt of 16-bit code units with no dollar sign, the body built
    from either template of the source parses, and holds the prompt. *)
Theorem prepareBody_round_trip (prompt : jsstring) :
  ~ In 36 prompt ->
  Forall (fun c => c < 65536) prompt ->
  JSON_parse (prepareBody bare_template prompt)
  = inr (JObject [(js "q", JString prompt)])
  /\ JSON_parse (prepareBody quoted_template prompt)
     = inr (JObject [(js "q", JString prompt)]).
Proof.
  intros Hd F. rewrite !prepareBody_without_dollar by assumption.
  split; now apply parse_q_object.
Qed.

Lemma prepareBody_round_trip_witness :
  JSON_parse (prepareBody bare_template (jsq "say 'hi'\n\\o/"))
  = inr (JObject [(js "q", JString (jsq "say 'hi'\n\\o/"))]).
Proof.
  refine (proj1 (prepareBody_round_trip (jsq "say 'hi'\n\\o/") _ _)).
  - not_in_units.
  - repeat constructor.
Defined.

(** A code unit that a list is computed not to hold. *)
Lemma not_in_existsb (c : N) (l : list N) :
  existsb (N.eqb c) l = false -> ~ In c l.
Proof.
  intros H Hin.
  assert (Ht : existsb (N.eqb c) l = true)
    by (apply existsb_exists; exists c; split; [exact Hin | apply N.eqb_refl]).
  congruence.
Qed.

(** ** getNestedValue *)

(** [split] always yields a first segment. *)
Lemma split_nonempty (sep : N) (s : jsstring) : split sep s <> [].
Proof.
  destruct s as [|c s]; simpl; [discriminate|].
  destruct (c =? sep); [discriminate|].
  destruct (split sep s); discriminate.
Qed.

(** The segments of two paths joined by a dot. *)
Lemma split_app (p q : jsstring) :
  split 46 (p ++ 46 :: q) = split 46 p ++ split 46 q.
Proof.
  induction p as [|c p IH]; simpl.
  - reflexivity.
  - destruct (N.eqb_spec c 46) as [->|Hc].
    + now rewrite IH.
    + rewrite IH. pose proof (split_nonempty 46 p) as Hne.
      destruct (split 46 p); [contradiction | reflexivity].
Qed.

(** Once falsy, the accumulator no longer changes. *)
Lemma fold_step_falsy (h : host) (segments : list jsstring) (acc : value) :
  ToBoolean acc = false -> fold_left (step h) segments acc = acc.
Proof.
  intro H. induction segments as [|seg rest IH]; simpl; [reflexivity|].
  unfold step at 2. now rewrite H.
Qed.

(** ** The computation type *)

Lemma bind_inr {A B : Type} (evs : list event) (a : A) (k : A -> M B) :
  bind (evs, inr a) k = (evs ++ fst (k a), snd (k a)).
Proof. unfold bind. now destruct (k a). Qed.

Lemma bind_inl {A B : Type} (evs : list event) (e : exn) (k : A -> M B) :
  bind (evs, inl e) k = (evs, inl e).
Proof. reflexivity. Qed.

(** ** callCustomApi *)

(** Headers that do not parse fail the call before anything is sent. *)
Lemma callCustomApi_invalid_headers (h : host) (k : N) (prompt : jsstring)
  (settings : ApiSettings) (e : exn) :
  JSON_parse (customHeaders settings) = inl e ->
  callCustomApi h k prompt settings = ([], inl invalid_headers).
Proof. intro H. unfold callCustomApi. now rewrite H. Qed.

(** With headers that parse, the request is sent, and the outcome follows
    from the answer. *)
Lemma callCustomApi_sends (h : host) (k : N) (prompt : jsstring)
  (settings : ApiSettings) (headers : json) :
  JSON_parse (customHeaders settings) = inr headers ->
  callCustomApi h k prompt settings =
    let req := request_of settings headers prompt in
    match fetch h k req with
    | Rejected e => ([Fetch req], inl e)
    | Resolved r =>
        if resp_ok r then
          match JSON_parse (resp_body r) with
          | inl e => ([Fetch req], inl e)
          | inr decoded =>
              (Fetch req :: fst (extractResponse h decoded (customResponsePath settings)),
               snd (extractResponse h decoded (customResponsePath settings)))
          end
        else ([Fetch req], inl (api_error (resp_status r) (resp_body r)))
    end.
Proof.
  intro H. unfold callCustomApi. rewrite H. unfold ret, emit, throw.
  rewrite !bind_inr. cbn [fst snd app].
  fold (request_of settings headers prompt).
  destruct (fetch h k (request_of settings headers prompt)) as [e|r].
  - reflexivity.
  - rewrite bind_inr. destruct (resp_ok r); cbn [negb fst snd app].
    + unfold parse_or_throw. destruct (JSON_parse (resp_body r)) as [e|d].
      * reflexivity.
      * rewrite bind_inr. reflexivity.
    + reflexivity.
Qed.



(** ** Path resolution *)

Section PathResolution.

Variable h : host.

Lemma array_index_not_length (key : jsstring) (i : N) :
  array_index key = Some i -> str_eqb key length_key = false.
Proof.
  intro H. destruct (str_eqb key length_key) eqn:E; [|reflexivity].
  apply str_eqb_eq in E. subst. discriminate.
Qed.

(** Step 4 returns exactly when the folded value is a string. *)
Lemma extractResponse_returns (decoded : json) (path s : jsstring) :
  extractResponse h decoded path = ([], inr s)
  <-> getNestedValue h decoded path = VJson (JString s).
Proof.
  unfold extractResponse.
  destruct (getNestedValue h decoded path) as [[| | | | |]| |]; cbn;
    split; intro H; try discriminate; try (now injection H as ->).
Qed.

Lemma extractResponse_throws (decoded : json) (path : jsstring) :
  (forall s, getNestedValue h decoded path <> VJson (JString s)) ->
  extractResponse h decoded path
  = ([WarnExtracted (getNestedValue h decoded path)], inl (no_string_at path)).
Proof.
  unfold extractResponse.
  destruct (getNestedValue h decoded path) as [[| | | s | |]| |]; cbn;
    intro H; try reflexivity.
  now contradiction (H s).
Qed.

(** Where the spec's resolution succeeds, the fold arrives at the same
    value, whatever the prototypes hold. *)
Lemma fold_step_resolve (segments : list jsstring) (v r : json) :
  resolve_strict v segments = Some r ->
  fold_left (step h) segments (VJson v) = VJson r.
Proof.
  revert v. induction segments as [|seg rest IH]; intros v; simpl.
  - now intros [= ->].
  - destruct v as [| | | |elems|props]; try discriminate.
    + destruct (array_index seg) as [i|] eqn:Ei; [|discriminate].
      destruct (nth_error elems (N.to_nat i)) as [v'|] eqn:En; [|discriminate].
      intro H. unfold step at 2, Get. cbn [ToBoolean GetOwnProperty].
      rewrite (array_index_not_length _ _ Ei), Ei, En. now apply IH.
    + destruct (own_property props seg) as [v'|] eqn:Eo; [|discriminate].
      intro H. unfold step at 2, Get. cbn [ToBoolean GetOwnProperty].
      rewrite Eo. now apply IH.
Qed.

(** A scalar that is no string leads to no string. *)
Lemma resolve_strict_scalar (v : json) (segments : list jsstring) (s : jsstring) :
  match v with
  | JNull | JBool _ | JNumber _ => True
  | _ => False
  end ->
  resolve_strict v segments <> Some (JString s).
Proof.
  destruct v; try contradiction; intros _;
    destruct segments; simpl; discriminate.
Qed.

Lemma through_string_cons (v v' : json) (seg : jsstring) (rest : list jsstring) :
  (forall pre, resolve_strict v (seg :: pre) = resolve_strict v' pre) ->
  through_string v' rest -> through_string v (seg :: rest).
Proof.
  intros Hstep (pre & post & str & -> & Hpost & Hres).
  exists (seg :: pre), post, str. repeat split; auto.
  now rewrite Hstep.
Qed.

(** Where the fold arrives at a string and no segment is answered by a
    prototype, either the spec's resolution arrives at it too, or the path
    went on after a string. *)
Lemma fold_step_string (segments : list jsstring) (v : json)
  (s : jsstring) :
  (forall x seg, In seg segments -> inherited h x seg = VUndefined) ->
  fold_left (step h) segments (VJson v) = VJson (JString s) ->
  resolve_strict v segments = Some (JString s) \/ through_string v segments.
Proof.
  revert v. induction segments as [|seg rest IH]; intros v Hinh; simpl.
  - intros [= ->]. now left.
  - assert (Hrest : forall x seg', In seg' rest -> inherited h x seg' = VUndefined)
      by (intros x seg' Hin; apply Hinh; now right).
    assert (Hseg : forall x, inherited h x seg = VUndefined)
      by (intro x; apply Hinh; now left).
    assert (Hundef : fold_left (step h) rest VUndefined <> VJson (JString s))
      by (rewrite fold_step_falsy; [discriminate | reflexivity]).
    assert (Hhere : forall str, v = JString str -> through_string v (seg :: rest)).
    { intros str ->. exists [], (seg :: rest), str.
      repeat split; auto. discriminate. }
    unfold step at 2. destruct (ToBoolean (VJson v)) eqn:Et.
    + unfold Get. destruct v as [|b|x|str|elems|props];
        cbn [GetOwnProperty]; rewrite ?Hseg; try (intro H; now contradiction Hundef).
      * intros _. right. now apply (Hhere str).
      * destruct (str_eqb seg length_key) eqn:El.
        -- intro H. apply (IH _ Hrest) in H as [H|(pre & post & str & _ & _ & H)];
             now apply resolve_strict_scalar in H.
        -- destruct (array_index seg) as [i|] eqn:Ei; cbn [option_map];
             [|intro H; now contradiction Hundef].
           destruct (nth_error elems (N.to_nat i)) as [v'|] eqn:En;
             cbn [option_map]; [|intro H; now contradiction Hundef].
           intro H. apply (IH _ Hrest) in H as [H|H]; [now left|right].
           apply (through_string_cons _ v'); [|assumption].
           intro pre. simpl. now rewrite Ei, En.
      * destruct (own_property props seg) as [v'|] eqn:Eo; cbn [option_map];
          [|intro H; now contradiction Hundef].
        intro H. apply (IH _ Hrest) in H as [H|H]; [now left|right].
        apply (through_string_cons _ v'); [|assumption].
        intro pre. simpl. now rewrite Eo.
    + rewrite fold_step_falsy by assumption. intros [= ->].
      right. now apply (Hhere s).
Qed.

End PathResolution.

Lemma split_segment (key : jsstring) : ~ In 46 key -> split 46 key = [key].
Proof.
  induction key as [|c key IH]; intros H; [reflexivity|].
  cbn [In] in H. cbn [split].
  destruct (N.eqb_spec c 46) as [->|_]; [tauto|].
  rewrite IH by tauto. reflexivity.
Qed.

(** The value at a path that goes on by one segment. *)
Lemma getNestedValue_segment (h : host) (obj : json) (p key : jsstring) :
  ~ In 46 key ->
  getNestedValue h obj (p ++ 46 :: key) = step h (getNestedValue h obj p) key.
Proof.
  intros H. unfold getNestedValue.
  rewrite split_app, fold_left_app, (split_segment key H). reflexivity.
Qed.

Lemma canonical_index_not_length (key : jsstring) (i : N) :
  canonical_index key = Some i -> str_eqb key length_key = false.
Proof.
  intro H. destruct (str_eqb key length_key) eqn:E; [|reflexivity].
  apply str_eqb_eq in E. subst. discriminate.
Qed.

(** A non-empty string is indexed by position. *)
Lemma step_indexes_a_string (h : host) (str key : jsstring) (i c : N) :
  canonical_index key = Some i ->
  nth_error str (N.to_nat i) = Some c ->
  step h (VJson (JString str)) key = VJson (JString [c]).
Proof.
  intros Hi Hc. unfold step.
  assert (Ht : ToBoolean (VJson (JString str)) = true)
    by (destruct str; [now destruct (N.to_nat i) | reflexivity]).
  rewrite Ht. unfold Get. cbn [GetOwnProperty].
  rewrite (canonical_index_not_length key i Hi), Hi, Hc. reflexivity.
Qed.

(** C2, as the code has it: the path is split on dots and the decoded
    response is folded over the segments with acc && acc[part], each segment
    looked up as an own property (an object key, an array index in canonical
    decimal writing); step 4 returns a string exactly when the folded value
    is that string. Whenever the resolution that the spec describes yields a
    string, step 4 returns it. A path that goes on by one segment applies
    one more step to the value of the shorter path. A segment applied to a
    string does not fail: a non-empty string is indexed by position, the
    code unit at an index below its length coming back as a string of its
    own, and an empty string is returned as it is whatever follows in the
    path. When no segment names a property of the built-in prototypes, a
    returned string is the one of the spec's resolution unless the path went
    on after a string, and a folded value that is no string makes step 4
    warn with it and throw the Error that says no string was found at the
    path. For the response of the example, choices.0.message.content gives
    hi and choices.1.x fails. *)
Theorem extractResponse_path_resolution (h : host) (decoded : json)
  (path : jsstring) :
  (forall s, extractResponse h decoded path = ([], inr s)
             <-> fold_left (step h) (split 46 path) (VJson decoded)
                 = VJson (JString s))
  /\ (forall s, extract_strict decoded path = Some s ->
                extractResponse h decoded path = ([], inr s))
  /\ ((forall x seg, In seg (split 46 path) -> inherited h x seg = VUndefined) ->
      (forall s, extractResponse h decoded path = ([], inr s) ->
                 extract_strict decoded path = Some s
                 \/ through_string decoded (split 46 path))
      /\ ((forall s, getNestedValue h decoded path <> VJson (JString s)) ->
          extractResponse h decoded path
          = ([WarnExtracted (getNestedValue h decoded path)],
             inl (no_string_at path))))
  /\ (forall key, ~ In 46 key ->
        getNestedValue h decoded (path ++ 46 :: key)
        = step h (getNestedValue h decoded path) key)
  /\ (forall str key i c,
        ~ In 46 key ->
        getNestedValue h decoded path = VJson (JString str) ->
        canonical_index key = Some i ->
        nth_error str (N.to_nat i) = Some c ->
        extractResponse h decoded (path ++ 46 :: key) = ([], inr [c]))
  /\ (forall rest,
        getNestedValue h decoded path = VJson (JString []) ->
        extractResponse h decoded (path ++ 46 :: rest) = ([], inr []))
  /\ extractResponse h choices_response (js "choices.0.message.content")
     = ([], inr (js "hi"))
  /\ (inherited h
        (VJson (JArray [JObject [(js "message",
                                   JObject [(js "content", JString (js "hi"))])]]))
        (js "1") = VUndefined ->
      extractResponse h choices_response (js "choices.1.x")
      = ([WarnExtracted VUndefined], inl (no_string_at (js "choices.1.x")))).
Proof.
  split; [|split; [|split; [|split; [|split; [|split; [|split]]]]]].
  - intros s. apply extractResponse_returns.
  - intros s H. apply extractResponse_returns. unfold extract_strict in H.
    destruct (resolve_strict decoded (split 46 path)) as [[| | |s'| |]|] eqn:E;
      try discriminate.
    injection H as ->. now apply fold_step_resolve.
  - intros Hinh. split.
    + intros s H. apply extractResponse_returns in H.
      apply (fold_step_string h _ _ _ Hinh) in H as [H|H]; [left|now right].
      unfold extract_strict. now rewrite H.
    + apply extractResponse_throws.
  - intros key Hkey. now apply getNestedValue_segment.
  - intros str key i c Hkey Hstr Hi Hc. apply extractResponse_returns.
    rewrite (getNestedValue_segment h decoded path key Hkey), Hstr.
    now apply (step_indexes_a_string h str key i c).
  - intros rest Hempty. apply extractResponse_returns.
    unfold getNestedValue in *. rewrite split_app, fold_left_app, Hempty.
    now apply fold_step_falsy.
  - reflexivity.
  - intro H. rewrite extractResponse_throws.
    all: change (getNestedValue h choices_response (js "choices.1.x"))
      with (step h
              (step h (step h (VJson choices_response) (js "choices")) (js "1"))
              (js "x")).
    all: change (step h (VJson choices_response) (js "choices"))
      with (VJson (JArray [JObject [(js "message",
                                     JObject [(js "content", JString (js "hi"))])]])).
    all: change (step h (VJson (JArray ?l)) (js "1"))
      with (inherited h (VJson (JArray l)) (js "1")).
    all: rewrite H.
    + reflexivity.
    + discriminate.
Qed.

(** C2 on a host with bare prototypes, at the paths of the example, and
    one segment further into the string that the first path finds. *)
Lemma extractResponse_path_resolution_witness :
  (forall x seg, In seg (split 46 (js "choices.0.message.content")) ->
                 inherited (constant_host [] None) x seg = VUndefined)
  /\ (extract_strict choices_response (js "choices.0.message.content")
      = Some (js "hi")
      \/ through_string choices_response
           (split 46 (js "choices.0.message.content")))
  /\ extractResponse (constant_host [] None) choices_response
       (js "choices.0.message.content" ++ 46 :: js "1")
     = ([], inr (js "i"))
  /\ extractResponse (constant_host [] None) choices_response (js "choices.1.x")
     = ([WarnExtracted VUndefined], inl (no_string_at (js "choices.1.x"))).
Proof.
  pose proof (extractResponse_path_resolution (constant_host [] None)
                choices_response (js "choices.0.message.content"))
    as (Hfold & _ & Hback & _ & Hindex & _ & Hhi & Hout).
  assert (Hinh : forall x seg,
             In seg (split 46 (js "choices.0.message.content")) ->
             inherited (constant_host [] None) x seg = VUndefined)
    by reflexivity.
  assert (Hdot : ~ In 46 (js "1")) by (apply not_in_existsb; vm_compute; reflexivity).
  split; [exact Hinh | split; [|split]].
  - apply (proj1 (Hback Hinh)). exact Hhi.
  - apply (Hindex (js "hi") (js "1") 1 105 Hdot).
    + apply (proj1 (extractResponse_returns _ _ _ _)). exact Hhi.
    + reflexivity.
    + reflexivity.
  - apply Hout. reflexivity.
Defined.

(** C2 as stated fails where a segment is applied to a string: a.0 against an
    object whose a is xyz does not fail, it returns x, where the resolution
    of the spec fails. A missing key does not fail either when the
    prototypes answer for it: constructor.name against the empty object
    returns Object. *)
Lemma extractResponse_indexes_a_string :
  (extractResponse (constant_host [] None)
     (JObject [(js "a", JString (js "xyz"))]) (js "a.0")
   = ([], inr (js "x"))
   /\ extract_strict (JObject [(js "a", JString (js "xyz"))]) (js "a.0") = None)
  /\ (extractResponse object_host (JObject []) (js "constructor.name")
      = ([], inr (js "Object"))
      /\ extract_strict (JObject []) (js "constructor.name") = None).
Proof. repeat split. Qed.

(** ** Recovery of the JSON text *)

(** A run that ends with [close] exists only where [close] occurs. *)
Lemma greedy_until_none (close : N) (s : jsstring) :
  greedy_until close s = None <-> ~ In close s.
Proof.
  induction s as [|x r IH]; simpl.
  - split; auto.
  - destruct (greedy_until close r) as [m|] eqn:E.
    + split; [discriminate|]. intro H. exfalso.
      destruct (in_dec N.eq_dec close r) as [Hin|Hout].
      * apply H. now right.
      * apply IH in Hout. discriminate.
    + destruct (N.eqb_spec x close) as [->|Hx].
      * split; [discriminate|]. intro H. exfalso. apply H. now left.
      * split; [|reflexivity]. intros _ [H|H]; [now apply Hx|].
        now apply (proj1 IH eq_refl).
Qed.

Lemma in_middle {A : Type} (a : A) (l1 l2 : list A) : In a (l1 ++ [a] ++ l2).
Proof. apply in_or_app. right. now left. Qed.

(** The greedy run stops at the last [close]. *)
Lemma greedy_until_some (close : N) (s m : jsstring) :
  greedy_until close s = Some m <->
  exists mid post, m = mid ++ [close] /\ s = m ++ post /\ ~ In close post.
Proof.
  revert m. induction s as [|x r IH]; intros m; simpl.
  - split; [discriminate|]. intros (mid & post & -> & H & _).
    destruct mid; discriminate.
  - destruct (greedy_until close r) as [m'|] eqn:E.
    + split.
      * intros [= <-].
        destruct (proj1 (IH m') eq_refl) as (mid & post & -> & -> & Hn).
        exists (x :: mid), post. repeat split; auto.
      * intros (mid & post & -> & H & Hn). f_equal.
        destruct mid as [|y mid]; simpl in *; injection H as <- H.
        -- exfalso. subst r.
           pose proof (proj2 (greedy_until_none _ _) Hn) as Hg.
           rewrite Hg in E. discriminate.
        -- assert (Hm : Some m' = Some (mid ++ [close]))
             by (apply IH; exists mid, post; repeat split; auto).
           injection Hm as ->. reflexivity.
    + pose proof (proj1 (greedy_until_none _ _) E) as Hout.
      destruct (N.eqb_spec x close) as [->|Hx].
      * split.
        -- intros [= <-]. exists [], r. repeat split; auto.
        -- intros (mid & post & -> & H & Hn). f_equal.
           destruct mid as [|y mid]; [reflexivity|].
           simpl in H. injection H as <- H. exfalso. apply Hout.
           rewrite H, <- app_assoc. apply in_middle.
      * split; [discriminate|]. intros (mid & post & -> & H & Hn).
        destruct mid as [|y mid]; simpl in H; injection H as <- H.
        -- contradiction.
        -- exfalso. apply Hout. rewrite H, <- app_assoc. apply in_middle.
Qed.

Lemma block_at_some (s m : jsstring) :
  block_at s = Some m <->
  exists o c mid post,
    closer o = Some c /\ m = o :: mid ++ [c] /\ s = m ++ post /\ ~ In c post.
Proof.
  unfold block_at, closer. destruct s as [|x r].
  - split; [discriminate|]. intros (o & c & mid & post & _ & -> & H & _).
    discriminate.
  - split.
    + destruct (x =? 123) eqn:E1; [|destruct (x =? 91) eqn:E2; [|discriminate]].
      all: destruct (greedy_until _ r) as [m'|] eqn:G; [|discriminate].
      all: intros [= <-].
      all: apply greedy_until_some in G as (mid & post & -> & -> & Hn).
      * exists x, 125, mid, post. now rewrite E1.
      * exists x, 93, mid, post. now rewrite E1, E2.
    + intros (o & c & mid & post & Hc & -> & H & Hn). injection H as -> H.
      assert (G : greedy_until c r = Some (mid ++ [c]))
        by (apply greedy_until_some; now exists mid, post).
      destruct (o =? 123); [injection Hc as <-; now rewrite G|].
      destruct (o =? 91); [injection Hc as <-; now rewrite G|discriminate].
Qed.

Lemma block_at_none (s : jsstring) : block_at s = None <-> ~ opens_block s.
Proof.
  unfold block_at, opens_block, closer. destruct s as [|x r].
  - split; auto.
  - destruct (x =? 123).
    + destruct (greedy_until 125 r) as [m|] eqn:G; cbn [option_map].
      * split; [discriminate|]. intro H. exfalso. apply H. exists 125.
        split; [reflexivity|].
        destruct (in_dec N.eq_dec 125 r) as [Hin|Hout]; [assumption|].
        apply greedy_until_none in Hout. rewrite Hout in G. discriminate.
      * split; [|reflexivity]. intros _ (c & [= <-] & Hin).
        now apply greedy_until_none in G.
    + destruct (x =? 91).
      * destruct (greedy_until 93 r) as [m|] eqn:G; cbn [option_map].
        -- split; [discriminate|]. intro H. exfalso. apply H. exists 93.
           split; [reflexivity|].
           destruct (in_dec N.eq_dec 93 r) as [Hin|Hout]; [assumption|].
           apply greedy_until_none in Hout. rewrite Hout in G. discriminate.
        -- split; [|reflexivity]. intros _ (c & [= <-] & Hin).
           now apply greedy_until_none in G.
      * split; [|reflexivity]. intros _ (c & Hc & _). discriminate.
Qed.

(** The match is the block at the leftmost position that opens one. *)
Lemma match_json_block_some (s m : jsstring) :
  match_json_block s = Some m ->
  exists pre rest,
    s = pre ++ rest /\ block_at rest = Some m /\
    forall a b, pre = a ++ b -> b <> [] -> ~ opens_block (b ++ rest).
Proof.
  induction s as [|x r IH].
  - simpl. discriminate.
  - cbn [match_json_block]. destruct (block_at (x :: r)) as [m'|] eqn:B.
    + intros [= <-]. exists [], (x :: r). repeat split; auto.
      intros a b H. apply eq_sym, app_eq_nil in H as [_ ->]. congruence.
    + intro H. destruct (IH H) as (pre & rest & -> & Hb & Hleft).
      exists (x :: pre), rest. repeat split; auto.
      intros a b Hab Hne. destruct a as [|y a].
      * simpl in Hab. subst b. now apply block_at_none.
      * injection Hab as _ ->. now apply (Hleft a b).
Qed.

Lemma match_json_block_none (s : jsstring) :
  match_json_block s = None ->
  forall a b, s = a ++ b -> ~ opens_block b.
Proof.
  induction s as [|x r IH].
  - intros _ a b H. apply eq_sym, app_eq_nil in H as [_ ->]. auto.
  - cbn [match_json_block]. destruct (block_at (x :: r)) eqn:B; [discriminate|].
    intros H a b Hab. destruct a as [|y a].
    + simpl in Hab. subst b. now apply block_at_none.
    + injection Hab as _ ->. now apply (IH H a).
Qed.

Lemma strip_prefix_fence_none (p s : jsstring) :
  ~ In 96 s -> strip_prefix (96 :: p) s = None.
Proof.
  destruct s as [|c r]; [reflexivity|]. intro H. cbn [strip_prefix].
  destruct (N.eqb_spec 96 c) as [<-|]; [|reflexivity].
  exfalso. apply H. now left.
Qed.

Lemma fence_at_no_backquote (s : jsstring) : ~ In 96 s -> fence_at s = None.
Proof.
  intro H. unfold fence_at, fence_json, fence.
  change (js "```json") with (96 :: js "``json").
  change (js "```") with (96 :: js "``").
  rewrite (strip_prefix_fence_none (js "``json") s H).
  rewrite (strip_prefix_fence_none (js "``") s H).
  destruct s as [|c r]; [reflexivity|].
  assert (Hr : ~ In 96 r) by (intro; apply H; now right).
  rewrite (strip_prefix_fence_none (js "``") r Hr).
  destruct c as [|p]; [reflexivity|].
  do 4 (destruct p as [p|p|]; try reflexivity).
Qed.

(** A text with no backquote has no fence to lose. *)
Lemma strip_fences_no_backquote (text : jsstring) :
  ~ In 96 text -> strip_fences text = text.
Proof.
  unfold strip_fences. induction text as [|c r IH]; intro H; [reflexivity|].
  cbn [strip_from]. rewrite (fence_at_no_backquote _ H).
  f_equal. apply IH. intro Hin. apply H. now right.
Qed.

Lemma bind_returns {A B : Type} (m : M A) (k : A -> M B) (evs : list event)
  (a : A) :
  m = (evs, inr a) -> bind m k = (evs ++ fst (k a), snd (k a)).
Proof. intros ->. apply bind_inr. Qed.

(** What [trim] leaves, and what the fence pattern takes. *)
Lemma trim_start_nil (s : jsstring) :
  trim_start s = [] -> Forall (fun c => is_white_space c = true) s.
Proof.
  induction s as [|c s IH]; cbn [trim_start]; [constructor|].
  destruct (is_white_space c) eqn:Hc; [|discriminate].
  intros H. constructor; auto.
Qed.

Lemma trim_start_head (s : jsstring) (c : N) (r : jsstring) :
  trim_start s = c :: r -> is_white_space c = false.
Proof.
  induction s as [|x s IH]; cbn [trim_start]; [discriminate|].
  destruct (is_white_space x) eqn:Hx; [exact IH|].
  intros [= <- _]. exact Hx.
Qed.

Lemma fence_at_plain (x : N) (r : jsstring) :
  x <> 96 -> (x = 10 -> forall t, r <> 96 :: t) -> fence_at (x :: r) = None.
Proof.
  intros Hx Hr. unfold fence_at, fence_json, fence.
  change (js "```json") with (96 :: js "``json").
  change (js "```") with (96 :: js "``").
  assert (H96 : (96 =? x) = false) by (apply N.eqb_neq; congruence).
  cbn [strip_prefix]. rewrite H96.
  destruct (N.eq_dec x 10) as [->|Hx10].
  - specialize (Hr eq_refl). destruct r as [|y r]; [reflexivity|].
    cbn [strip_prefix].
    destruct (N.eqb_spec 96 y) as [<-|]; [|reflexivity].
    now contradiction (Hr r).
  - destruct x as [|p]; [reflexivity|].
    do 4 (destruct p as [p|p|]; try reflexivity).
    contradiction.
Qed.

(** A stretch of text with no backquote loses nothing, unless it ends with
    a line feed that a fence follows. *)
Lemma strip_from_plain (a b : jsstring) :
  ~ In 96 a ->
  (forall a' b', a = a' ++ [10] -> b <> 96 :: b') ->
  strip_from 0 (a ++ b) = a ++ strip_from 0 b.
Proof.
  induction a as [|x a IH]; intros Hin Hend; [reflexivity|].
  cbn [app strip_from]. cbn [In] in Hin.
  rewrite fence_at_plain.
  - f_equal. apply IH; [tauto|].
    intros a' b' ->. apply (Hend (x :: a') b'). reflexivity.
  - intros ->. tauto.
  - intros -> t. destruct a as [|y a]; cbn [app].
    + apply (Hend [] t). reflexivity.
    + intros [= -> _]. cbn [In] in Hin. tauto.
Qed.

Lemma trim_between (c c' : N) (mid : jsstring) :
  is_white_space c = false -> is_white_space c' = false ->
  trim (c :: mid ++ [c']) = c :: mid ++ [c'].
Proof.
  intros Hc Hc'. unfold trim. cbn [trim_start]. rewrite Hc.
  change (c :: mid ++ [c']) with ((c :: mid) ++ [c']).
  rewrite rev_app_distr. cbn [rev app trim_start]. rewrite Hc'.
  change (c' :: rev mid ++ [c]) with ([c'] ++ rev (c :: mid)).
  now rewrite rev_app_distr, rev_involutive.
Qed.

Lemma strip_from_line_fence (t : jsstring) :
  strip_from 0 (10 :: 96 :: 96 :: 96 :: t) = strip_from 0 t.
Proof.
  assert (H : fence_at (10 :: 96 :: 96 :: 96 :: t) = Some 4%nat) by reflexivity.
  cbn [strip_from]. rewrite H. reflexivity.
Qed.

Lemma trim_start_white (ws t : jsstring) :
  Forall (fun c => is_white_space c = true) ws ->
  trim_start (ws ++ t) = trim_start t.
Proof.
  induction 1 as [|c ws Hc _ IH]; [reflexivity|].
  cbn [app trim_start]. now rewrite Hc.
Qed.

Lemma trim_start_app (t ws : jsstring) :
  trim_start t <> [] -> trim_start (t ++ ws) = trim_start t ++ ws.
Proof.
  induction t as [|c t IH]; cbn [app trim_start]; [contradiction|].
  destruct (is_white_space c); [exact IH | reflexivity].
Qed.

(** White space at either end is what [trim] removes. *)
Lemma trim_white (ws1 t ws2 : jsstring) :
  Forall (fun c => is_white_space c = true) ws1 ->
  Forall (fun c => is_white_space c = true) ws2 ->
  trim (ws1 ++ t ++ ws2) = trim t.
Proof.
  intros H1 H2. unfold trim. rewrite (trim_start_white ws1 _ H1).
  destruct (trim_start t) as [|c r] eqn:Et.
  - apply trim_start_nil in Et.
    assert (Hall : Forall (fun c => is_white_space c = true) (t ++ ws2))
      by (apply Forall_app; now split).
    rewrite <- (app_nil_r (t ++ ws2)), (trim_start_white _ [] Hall).
    reflexivity.
  - rewrite trim_start_app by (rewrite Et; discriminate).
    rewrite Et, rev_app_distr.
    rewrite trim_start_white by now apply Forall_rev.
    reflexivity.
Qed.

Lemma strip_from_skip (a b : jsstring) :
  strip_from (length a) (a ++ b) = strip_from 0 b.
Proof.
  induction a as [|c a IH]; [now destruct b | exact IH].
Qed.

(** Where a fence starts, it is dropped whole. *)
Lemma strip_from_fence (c : N) (r a b : jsstring) :
  fence_at (c :: r) = Some (S (length a)) -> r = a ++ b ->
  strip_from 0 (c :: r) = strip_from 0 b.
Proof.
  intros Hf ->. cbn [strip_from]. rewrite Hf. apply strip_from_skip.
Qed.

Lemma fence_at_json (b : jsstring) :
  (forall b', b <> 10 :: b') -> fence_at (fence_json ++ b) = Some 7%nat.
Proof.
  intros Hb. unfold fence_at.
  assert (E : strip_prefix fence_json (fence_json ++ b) = Some b)
    by now apply strip_prefix_app.
  rewrite E. destruct b as [|x b]; [reflexivity|].
  destruct (N.eq_dec x 10) as [->|Hx]; [now contradiction (Hb b)|].
  destruct x as [|p]; [reflexivity|].
  do 4 (destruct p as [p|p|]; try reflexivity).
  contradiction.
Qed.

Lemma fence_at_bare (b : jsstring) :
  strip_prefix (js "json") b = None -> fence_at (fence ++ b) = Some 3%nat.
Proof.
  intros Hb. unfold fence_at.
  change (strip_prefix fence_json (fence ++ b)) with (strip_prefix (js "json") b).
  rewrite Hb.
  assert (E : strip_prefix fence (fence ++ b) = Some b) by now apply strip_prefix_app.
  change (fence ++ b) with (96 :: 96 :: 96 :: b) in *.
  cbv iota. now rewrite E.
Qed.

(** What the global replacement of line 139 does to the first fence of each
    shape in a text. *)
Lemma strip_fences_first_fence (a b : jsstring) :
  ~ In 96 a ->
  strip_fences a = a
  /\ strip_fences (a ++ 10 :: fence ++ b) = a ++ strip_fences b
  /\ ((forall a', a <> a' ++ [10]) ->
      strip_fences (a ++ fence_json ++ 10 :: b) = a ++ strip_fences b
      /\ ((forall b', b <> 10 :: b') ->
          strip_fences (a ++ fence_json ++ b) = a ++ strip_fences b)
      /\ (strip_prefix (js "json") b = None ->
          strip_fences (a ++ fence ++ b) = a ++ strip_fences b)).
Proof.
  intros Ha. unfold strip_fences. split; [|split].
  - now apply strip_fences_no_backquote.
  - rewrite strip_from_plain; [|exact Ha | intros a' b' _; discriminate].
    apply f_equal. apply strip_from_line_fence.
  - intros Hend.
    assert (Hplain : forall x, strip_from 0 (a ++ x) = a ++ strip_from 0 x).
    { intros x. apply strip_from_plain; [exact Ha|].
      intros a' b' E. now contradiction (Hend a'). }
    rewrite !Hplain. split; [|split].
    + apply f_equal.
      apply (strip_from_fence 96 _ (96 :: 96 :: js "json" ++ [10]) b);
        reflexivity.
    + intros Hb. apply f_equal.
      apply (strip_from_fence 96 _ (96 :: 96 :: js "json") b);
        [exact (fence_at_json b Hb) | reflexivity].
    + intros Hb. apply f_equal.
      apply (strip_from_fence 96 _ [96; 96] b);
        [exact (fence_at_bare b Hb) | reflexivity].
Qed.

(** C3, as the code has it: every match of the fence pattern is removed,
    from left to right, and the text trimmed; the text given to [JSON.parse]
    then runs from the first opening brace or bracket that has a closing
    delimiter of its own kind after it up to the last closing delimiter of
    that kind (greedy, not balanced); when no opening delimiter has one, the
    whole cleaned text is parsed, so that a text with no delimiter fails
    only if it is no JSON value itself. The attempt returns what
    [JSON.parse] returns and throws its SyntaxError. The fences: after a
    stretch with no backquote, a line feed and three backquotes go together,
    whatever follows; three backquotes and json go with the line feed after
    them if there is one; three backquotes that json does not follow go
    alone; the last three when no line feed stands before the backquotes.
    [trim] drops the white space at both ends and nothing else. So an answer
    with no backquote of its own is recovered alike bare, between the two
    fences, and with white space around it. The fenced answer of the example
    loses its fences, the word json staying behind, and parses to the object
    whose a is 1; the fenced 42 parses to 42. *)
Theorem cleanResponse_recovery (text : jsstring) :
  let cleanText := trim (strip_fences text) in
  ((exists pre o mid c post,
       closer o = Some c /\
       cleanText = pre ++ (o :: mid ++ [c]) ++ post /\
       ~ In c post /\
       no_block_in pre ((o :: mid ++ [c]) ++ post) /\
       cleanResponse text = o :: mid ++ [c])
   \/ ((forall a b, cleanText = a ++ b -> ~ opens_block b) /\
       cleanResponse text = cleanText))
  /\ (forall h attempt instruction jsonString apiSettings evs,
        invokeAdapter h attempt instruction jsonString apiSettings
        = (evs, inr text) ->
        text <> [] ->
        attemptOnce h attempt instruction jsonString apiSettings
        = (evs, JSON_parse (cleanResponse text)))
  /\ JSON_parse (cleanResponse fenced_answer)
     = inr (JObject [(js "a", JNumber (Num.from_N 1))])
  /\ (forall a b,
        ~ In 96 a ->
        strip_fences a = a
        /\ strip_fences (a ++ 10 :: fence ++ b) = a ++ strip_fences b
        /\ ((forall a', a <> a' ++ [10]) ->
            strip_fences (a ++ fence_json ++ 10 :: b) = a ++ strip_fences b
            /\ ((forall b', b <> 10 :: b') ->
                strip_fences (a ++ fence_json ++ b) = a ++ strip_fences b)
            /\ (strip_prefix (js "json") b = None ->
                strip_fences (a ++ fence ++ b) = a ++ strip_fences b)))
  /\ (forall ws1 t ws2,
        Forall (fun c => is_white_space c = true) ws1 ->
        Forall (fun c => is_white_space c = true) ws2 ->
        trim (ws1 ++ t ++ ws2) = trim t)
  /\ (forall c mid c',
        is_white_space c = false -> is_white_space c' = false ->
        trim [c] = [c] /\ trim (c :: mid ++ [c']) = c :: mid ++ [c'])
  /\ (forall body ws1 ws2,
        ~ In 96 body ->
        Forall (fun c => is_white_space c = true) ws1 ->
        Forall (fun c => is_white_space c = true) ws2 ->
        cleanResponse (fence_json ++ 10 :: body ++ 10 :: fence)
        = cleanResponse body
        /\ cleanResponse (ws1 ++ body ++ ws2) = cleanResponse body)
  /\ strip_fences fenced_answer = jsq "Here is the result:json\n{'a':1}\nThanks"
  /\ JSON_parse (cleanResponse (jsq "```json\n42\n```"))
     = inr (JNumber (Num.from_N 42)).
Proof.
  cbv zeta. split; [|split; [|split; [|split; [|split; [|split; [|split; [|split]]]]]]].
  - unfold cleanResponse.
    destruct (match_json_block (trim (strip_fences text))) as [m|] eqn:E.
    + left. apply match_json_block_some in E as (pre & rest & Hs & Hb & Hleft).
      apply block_at_some in Hb as (o & c & mid & post & Hc & -> & -> & Hn).
      exists pre, o, mid, c, post. repeat split; auto.
    + right. split; [|reflexivity]. now apply match_json_block_none.
  - intros h attempt instruction jsonString apiSettings evs H Hne.
    unfold attemptOnce. rewrite (bind_returns _ _ _ _ H).
    destruct text as [|c t]; [contradiction|].
    unfold parse_or_throw. cbn [fst snd]. now rewrite app_nil_r.
  - vm_compute. reflexivity.
  - intros a b. apply strip_fences_first_fence.
  - apply trim_white.
  - intros c mid c' Hc Hc'. split; [|now apply trim_between].
    unfold trim. cbn [trim_start rev app]. rewrite Hc. cbn [rev app trim_start].
    now rewrite Hc.
  - intros body ws1 ws2 Hb H1 H2.
    assert (Hws : forall ws, Forall (fun c => is_white_space c = true) ws ->
                             ~ In 96 ws).
    { intros ws Hall Hin. rewrite Forall_forall in Hall.
      specialize (Hall 96 Hin). discriminate Hall. }
    split.
    + unfold cleanResponse. cbv zeta.
      destruct (strip_fences_first_fence [] (body ++ 10 :: fence) (fun H => H))
        as (_ & _ & Hjson).
      destruct (Hjson ltac:(intros [|x a']; discriminate)) as (Hline & _ & _).
      cbn [app] in Hline. rewrite Hline.
      destruct (strip_fences_first_fence body [] Hb) as (_ & Hlf & _).
      rewrite app_nil_r in Hlf. rewrite Hlf.
      destruct (strip_fences_first_fence body [] Hb) as (Hid & _).
      change (strip_fences []) with (@nil N). rewrite app_nil_r, Hid.
      reflexivity.
    + unfold cleanResponse. cbv zeta.
      destruct (strip_fences_first_fence (ws1 ++ body ++ ws2) []) as (Hid1 & _).
      { intros Hin. apply in_app_or in Hin. destruct Hin as [Hin|Hin];
          [now apply (Hws ws1)|].
        apply in_app_or in Hin. destruct Hin as [Hin|Hin];
          [contradiction | now apply (Hws ws2)]. }
      destruct (strip_fences_first_fence body [] Hb) as (Hid2 & _).
      rewrite Hid1, Hid2, (trim_white ws1 body ws2 H1 H2). reflexivity.
  - vm_compute. reflexivity.
  - vm_compute. reflexivity.
Qed.

(** C3 on a client library that answers the fenced text of the example. *)
Lemma cleanResponse_recovery_witness :
  snd (attemptOnce (constant_host [] (Some fenced_answer)) 1
         defaultSystemInstruction (jsq "{'a':'one'}") None)
  = inr (JObject [(js "a", JNumber (Num.from_N 1))]).
Proof.
  rewrite (proj1 (proj2 (cleanResponse_recovery fenced_answer))
             (constant_host [] (Some fenced_answer)) 1 defaultSystemInstruction
             (jsq "{'a':'one'}") None
             (fst (invokeAdapter (constant_host [] (Some fenced_answer)) 1
                     defaultSystemInstruction (jsq "{'a':'one'}") None))
             eq_refl).
  - reflexivity.
  - discriminate.
Defined.

(** C3 as stated fails on a text with no opening delimiter: the answer 42 is
    not rejected, the call returns the number. It fails too where the last
    closing delimiter is of the other kind: a stray bracket after an object
    is left out of the match, and the object is returned. *)
Lemma bare_scalar_is_returned :
  (recover_spec (js "42") = inl SyntaxError
   /\ snd (translateJson (constant_host [] (Some (js "42"))) kv_document None None)
      = inr (JNumber (Num.from_N 42)))
  /\ (recover_spec (jsq "{'a':[1]} ]") = inl SyntaxError
      /\ snd (translateJson (constant_host [] (Some (jsq "{'a':[1]} ]")))
                kv_document None None)
         = inr (JObject [(js "a", JArray [JNumber (Num.from_N 1)])])).
Proof. repeat split. Qed.

Example recover_spec_fenced :
  recover_spec fenced_answer = inr (JObject [(js "a", JNumber (Num.from_N 1))]).
Proof. reflexivity. Qed.

(** ** The retry loop *)

Lemma delays_of_app (a b : list event) :
  delays_of (a ++ b) = delays_of a ++ delays_of b.
Proof.
  induction a as [|[] a IH]; simpl; auto. now rewrite IH.
Qed.

Lemma failures_of_app (a b : list event) :
  failures_of (a ++ b) = failures_of a ++ failures_of b.
Proof.
  induction a as [|[] a IH]; simpl; auto. now rewrite IH.
Qed.

(** An attempt neither waits nor reports a failed attempt: the loop does. *)
Lemma extractResponse_quiet (h : host) (decoded : json) (path : jsstring) :
  delays_of (fst (extractResponse h decoded path)) = []
  /\ failures_of (fst (extractResponse h decoded path)) = [].
Proof.
  unfold extractResponse.
  destruct (getNestedValue h decoded path) as [[| | | | |]| |]; split; reflexivity.
Qed.

Lemma callCustomApi_quiet (h : host) (k : N) (prompt : jsstring)
  (settings : ApiSettings) :
  delays_of (fst (callCustomApi h k prompt settings)) = []
  /\ failures_of (fst (callCustomApi h k prompt settings)) = [].
Proof.
  destruct (JSON_parse (customHeaders settings)) as [e|headers] eqn:E.
  - rewrite (callCustomApi_invalid_headers _ _ _ _ _ E). now split.
  - rewrite (callCustomApi_sends _ _ _ _ _ E). cbv zeta.
    destruct (fetch h k _) as [e|r]; [now split|].
    destruct (resp_ok r); [|now split].
    destruct (JSON_parse (resp_body r)) as [e|d]; [now split|].
    cbn [fst delays_of failures_of]. apply extractResponse_quiet.
Qed.

Lemma invokeAdapter_quiet (h : host) (attempt : N)
  (instruction jsonString : jsstring) (apiSettings : option ApiSettings) :
  delays_of (fst (invokeAdapter h attempt instruction jsonString apiSettings)) = []
  /\ failures_of (fst (invokeAdapter h attempt instruction jsonString apiSettings)) = [].
Proof.
  unfold invokeAdapter.
  assert (G : forall g,
    delays_of (fst (emit (Generate g) ;;;
                    match generateContent h attempt g with
                    | inl e => throw e
                    | inr (Some text) => ret text
                    | inr None => ret []
                    end)) = []
    /\ failures_of (fst (emit (Generate g) ;;;
                    match generateContent h attempt g with
                    | inl e => throw e
                    | inr (Some text) => ret text
                    | inr None => ret []
                    end)) = []).
  { intro g. unfold emit. rewrite bind_inr.
    destruct (generateContent h attempt g) as [e|[text|]]; now split. }
  destruct apiSettings as [settings|]; [|apply G].
  destruct (provider settings); [apply G | apply callCustomApi_quiet].
Qed.

Lemma attemptOnce_quiet (h : host) (attempt : N)
  (instruction jsonString : jsstring) (apiSettings : option ApiSettings) :
  delays_of (fst (attemptOnce h attempt instruction jsonString apiSettings)) = []
  /\ failures_of (fst (attemptOnce h attempt instruction jsonString apiSettings)) = [].
Proof.
  unfold attemptOnce.
  pose proof (invokeAdapter_quiet h attempt instruction jsonString apiSettings)
    as [Hd Hf].
  destruct (invokeAdapter h attempt instruction jsonString apiSettings)
    as [evs [e|text]]; cbn [fst] in *.
  - now split.
  - rewrite bind_inr. cbn [fst].
    destruct text; cbn [fst throw parse_or_throw]; rewrite app_nil_r; now split.
Qed.

(** The loop over three failing attempts. *)
Lemma retry_all_fail (body : N -> M json) (t1 t2 t3 : list event)
  (e1 e2 e3 : exn) :
  body 1 = (t1, inl e1) -> body 2 = (t2, inl e2) -> body 3 = (t3, inl e3) ->
  retry body attempt_numbers None
  = (t1 ++ WarnAttempt 1 e1 :: Delay (1000 * 2 ^ 1)
        :: t2 ++ WarnAttempt 2 e2 :: Delay (1000 * 2 ^ 2)
        :: t3 ++ [WarnAttempt 3 e3],
     Fell (Some e3)).
Proof.
  intros H1 H2 H3.
  change attempt_numbers with [1; 2; 3].
  cbn [retry]. rewrite H1, H2, H3. cbn [N.eqb Pos.eqb maxRetries].
  rewrite <- !app_assoc. reflexivity.
Qed.

Section Loop.

Variables (h : host) (jsonData : json) (customPrompt : option jsstring)
  (apiSettings : option ApiSettings).

(** [translateJson] by the outcome of each attempt. *)
Lemma translateJson_cases :
  let body := attempt_of h jsonData customPrompt apiSettings in
  translateJson h jsonData customPrompt apiSettings =
    match body 1 with
    | (t1, inr v) => (t1, inr v)
    | (t1, inl e1) =>
        match body 2 with
        | (t2, inr v) =>
            (t1 ++ WarnAttempt 1 e1 :: Delay (1000 * 2 ^ 1) :: t2, inr v)
        | (t2, inl e2) =>
            match body 3 with
            | (t3, inr v) =>
                (t1 ++ WarnAttempt 1 e1 :: Delay (1000 * 2 ^ 1)
                    :: t2 ++ WarnAttempt 2 e2 :: Delay (1000 * 2 ^ 2) :: t3,
                 inr v)
            | (t3, inl e3) =>
                (t1 ++ WarnAttempt 1 e1 :: Delay (1000 * 2 ^ 1)
                    :: t2 ++ WarnAttempt 2 e2 :: Delay (1000 * 2 ^ 2)
                    :: t3 ++ [WarnAttempt 3 e3],
                 inl e3)
            end
        end
    end.
Proof.
  cbv zeta. unfold translateJson.
  change (fun attempt : N =>
            attemptOnce h attempt (systemInstruction customPrompt)
              (JSON_stringify jsonData) apiSettings)
    with (attempt_of h jsonData customPrompt apiSettings).
  change attempt_numbers with [1; 2; 3]. cbn [retry].
  destruct (attempt_of h jsonData customPrompt apiSettings 1) as [t1 [e1|v1]];
    [|reflexivity].
  cbn [N.eqb Pos.eqb maxRetries].
  destruct (attempt_of h jsonData customPrompt apiSettings 2) as [t2 [e2|v2]].
  2: { now rewrite <- !app_assoc. }
  cbn [N.eqb Pos.eqb maxRetries].
  destruct (attempt_of h jsonData customPrompt apiSettings 3) as [t3 [e3|v3]];
    now rewrite <- !app_assoc.
Qed.

Lemma attempt_of_quiet (k : N) (t : list event) (r : exn + json) :
  attempt_of h jsonData customPrompt apiSettings k = (t, r) ->
  delays_of t = [] /\ failures_of t = [].
Proof.
  intro H.
  pose proof (attemptOnce_quiet h k (systemInstruction customPrompt)
                (JSON_stringify jsonData) apiSettings) as Hq.
  unfold attempt_of in H. now rewrite H in Hq.
Qed.

(** C4: when every attempt fails, whatever each one throws, the loop makes
    exactly three attempts: it reports the failures of attempts 1, 2 and 3,
    waits 1000 * 2^k milliseconds after the failure of attempt k for k below
    3, so 2000 and then 4000, waits for nothing after the third failure, and
    throws the error of the third attempt. *)
Theorem translateJson_three_attempts (t1 t2 t3 : list event) (e1 e2 e3 : exn) :
  attempt_of h jsonData customPrompt apiSettings 1 = (t1, inl e1) ->
  attempt_of h jsonData customPrompt apiSettings 2 = (t2, inl e2) ->
  attempt_of h jsonData customPrompt apiSettings 3 = (t3, inl e3) ->
  translateJson h jsonData customPrompt apiSettings
  = (t1 ++ WarnAttempt 1 e1 :: Delay (1000 * 2 ^ 1)
        :: t2 ++ WarnAttempt 2 e2 :: Delay (1000 * 2 ^ 2)
        :: t3 ++ [WarnAttempt 3 e3],
     inl e3)
  /\ failures_of (fst (translateJson h jsonData customPrompt apiSettings))
     = [(1, e1); (2, e2); (3, e3)]
  /\ delays_of (fst (translateJson h jsonData customPrompt apiSettings))
     = [2000; 4000].
Proof.
  intros H1 H2 H3.
  pose proof translateJson_cases as Hc.
  cbv zeta in Hc. rewrite H1, H2, H3 in Hc. rewrite Hc. cbn [fst].
  destruct (attempt_of_quiet _ _ _ H1) as [D1 F1].
  destruct (attempt_of_quiet _ _ _ H2) as [D2 F2].
  destruct (attempt_of_quiet _ _ _ H3) as [D3 F3].
  split; [reflexivity|split].
  - rewrite failures_of_app. cbn [failures_of]. rewrite failures_of_app.
    cbn [failures_of]. rewrite failures_of_app. cbn [failures_of].
    now rewrite F1, F2, F3.
  - rewrite delays_of_app. cbn [delays_of]. rewrite delays_of_app.
    cbn [delays_of]. rewrite delays_of_app. cbn [delays_of].
    now rewrite D1, D2, D3.
Qed.

(** Whatever the attempts do, the call waits for nothing, for 2000
    milliseconds, or for 2000 and then 4000, and reports at most three
    failed attempts. *)
Theorem translateJson_waits_at_most_twice :
  In (delays_of (fst (translateJson h jsonData customPrompt apiSettings)))
    [[]; [2000]; [2000; 4000]]
  /\ (length (failures_of (fst (translateJson h jsonData customPrompt apiSettings)))
      <= 3)%nat.
Proof.
  pose proof translateJson_cases as Hc.
  cbv zeta in Hc. rewrite Hc. clear Hc.
  destruct (attempt_of h jsonData customPrompt apiSettings 1) as [t1 r1] eqn:E1.
  destruct (attempt_of h jsonData customPrompt apiSettings 2) as [t2 r2] eqn:E2.
  destruct (attempt_of h jsonData customPrompt apiSettings 3) as [t3 r3] eqn:E3.
  destruct (attempt_of_quiet _ _ _ E1) as [D1 F1].
  destruct (attempt_of_quiet _ _ _ E2) as [D2 F2].
  destruct (attempt_of_quiet _ _ _ E3) as [D3 F3].
  destruct r1 as [e1|v1]; [destruct r2 as [e2|v2]; [destruct r3 as [e3|v3]|]|];
    cbn [fst];
    repeat (rewrite ?delays_of_app, ?failures_of_app;
            cbn [delays_of failures_of]);
    rewrite ?D1, ?D2, ?D3, ?F1, ?F2, ?F3; cbn [app length In];
    split; auto; lia.
Qed.

(** C7, as the code has it: when all three attempts fail, the error that
    [translateJson] throws is the error of the last attempt itself, not an
    error that wraps it; and any error that [translateJson] throws is the one
    that the third attempt threw, after attempts 1 and 2 have failed. *)
Theorem translateJson_throws_last_error :
  let body := attempt_of h jsonData customPrompt apiSettings in
  (forall e1 e2 e3,
     snd (body 1) = inl e1 -> snd (body 2) = inl e2 -> snd (body 3) = inl e3 ->
     snd (translateJson h jsonData customPrompt apiSettings) = inl e3)
  /\ (forall e,
        snd (translateJson h jsonData customPrompt apiSettings) = inl e ->
        exists e1 e2,
          snd (body 1) = inl e1 /\ snd (body 2) = inl e2 /\ snd (body 3) = inl e).
Proof.
  cbv zeta.
  pose proof translateJson_cases as Hc.
  cbv zeta in Hc. rewrite Hc. clear Hc.
  destruct (attempt_of h jsonData customPrompt apiSettings 1) as [t1 [e1|v1]];
    destruct (attempt_of h jsonData customPrompt apiSettings 2) as [t2 [e2|v2]];
    destruct (attempt_of h jsonData customPrompt apiSettings 3) as [t3 [e3|v3]];
    cbn [snd]; split; try (intros; discriminate).
  - now intros a b c _ _ [= <-].
  - intros e [= <-]. now exists e1, e2.
Qed.

(** C10: an adapter that returns the empty string makes the attempt fail
    with the Error that says no response text was received, and the loop
    treats it as any failure: it reports it, waits, and makes the next
    attempt, whose result is returned if it has one; when the adapter returns
    the empty string three times, that Error is what the call throws. *)
Theorem empty_text_is_a_failed_attempt :
  let adapter attempt :=
    invokeAdapter h attempt (systemInstruction customPrompt)
      (JSON_stringify jsonData) apiSettings in
  (forall k t,
     adapter k = (t, inr []) ->
     attempt_of h jsonData customPrompt apiSettings k = (t, inl no_response_text))
  /\ (forall t1 t2 v,
        adapter 1 = (t1, inr []) ->
        attempt_of h jsonData customPrompt apiSettings 2 = (t2, inr v) ->
        translateJson h jsonData customPrompt apiSettings
        = (t1 ++ WarnAttempt 1 no_response_text :: Delay 2000 :: t2, inr v))
  /\ (forall t1 t2 t3,
        adapter 1 = (t1, inr []) ->
        adapter 2 = (t2, inr []) ->
        adapter 3 = (t3, inr []) ->
        translateJson h jsonData customPrompt apiSettings
        = (t1 ++ WarnAttempt 1 no_response_text :: Delay 2000
              :: t2 ++ WarnAttempt 2 no_response_text :: Delay 4000
              :: t3 ++ [WarnAttempt 3 no_response_text],
           inl no_response_text)).
Proof.
  cbv zeta.
  assert (Hempty : forall k t,
    invokeAdapter h k (systemInstruction customPrompt) (JSON_stringify jsonData)
      apiSettings = (t, inr []) ->
    attempt_of h jsonData customPrompt apiSettings k = (t, inl no_response_text)).
  { intros k t H. unfold attempt_of, attemptOnce.
    rewrite (bind_returns _ _ _ _ H). cbn [fst snd throw]. now rewrite app_nil_r. }
  pose proof translateJson_cases as Hc. cbv zeta in Hc.
  split; [assumption|split].
  - intros t1 t2 v H1 H2. apply Hempty in H1. now rewrite H1, H2 in Hc.
  - intros t1 t2 t3 H1 H2 H3. apply Hempty in H1, H2, H3.
    now rewrite H1, H2, H3 in Hc.
Qed.

End Loop.

(** C4 on a client library that rejects every call. *)
Lemma translateJson_three_attempts_witness :
  snd (translateJson rejecting_host kv_document None None) = inl (HostError 3)
  /\ delays_of (fst (translateJson rejecting_host kv_document None None))
     = [2000; 4000].
Proof.
  pose proof
    (translateJson_three_attempts rejecting_host kv_document None None
       (fst (attempt_of rejecting_host kv_document None None 1))
       (fst (attempt_of rejecting_host kv_document None None 2))
       (fst (attempt_of rejecting_host kv_document None None 3))
       (HostError 1) (HostError 2) (HostError 3)
       eq_refl eq_refl eq_refl) as (H & _ & D).
  split; [now rewrite H | exact D].
Defined.

(** C7 on a client library that rejects every call. *)
Lemma translateJson_throws_last_error_witness :
  snd (translateJson rejecting_host kv_document None None) = inl (HostError 3).
Proof.
  exact (proj1 (translateJson_throws_last_error rejecting_host kv_document
                  None None)
           (HostError 1) (HostError 2) (HostError 3) eq_refl eq_refl eq_refl).
Defined.

(** C7 as stated fails: with a client library that answers no text, the call
    throws the Error of the third attempt, whose name is Error; nothing wraps
    it. *)
Lemma terminal_error_is_not_wrapped :
  snd (translateJson (constant_host [] None) kv_document None None)
  = inl no_response_text
  /\ snd (attempt_of (constant_host [] None) kv_document None None 3)
     = inl no_response_text
  /\ exn_name no_response_text <> Some (js "ExhaustedRetriesError").
Proof. repeat split. discriminate. Qed.

(** C10 on a client library that answers nothing at first and a document at
    the second attempt. *)
Lemma empty_text_is_a_failed_attempt_witness :
  snd (translateJson (scripted_host [[]; jsq "{'k':'v'}"]) kv_document None None)
  = inr kv_document
  /\ delays_of
       (fst (translateJson (scripted_host [[]; jsq "{'k':'v'}"]) kv_document
               None None))
     = [2000].
Proof.
  pose proof
    (proj1 (proj2
       (empty_text_is_a_failed_attempt (scripted_host [[]; jsq "{'k':'v'}"])
          kv_document None None))
       (fst (attempt_of (scripted_host [[]; jsq "{'k':'v'}"]) kv_document
               None None 1))
       (fst (attempt_of (scripted_host [[]; jsq "{'k':'v'}"]) kv_document
               None None 2))
       kv_document eq_refl eq_refl) as H.
  rewrite H. split; reflexivity.
Defined.

(** ** The request *)

Lemma prepareBody_empty (prompt : jsstring) : prepareBody [] prompt = [].
Proof. reflexivity. Qed.

(** C5, as the code has it: an empty body template is not rejected. Once
    the headers have parsed, the substitution leaves the empty template
    empty and the request is sent, with an empty body when the method is
    POST and with none when it is GET. *)
Theorem empty_body_template_is_sent (h : host) (k : N) (prompt : jsstring)
  (settings : ApiSettings) (headers : json) :
  JSON_parse (customHeaders settings) = inr headers ->
  customBodyTemplate settings = [] ->
  prepareBody (customBodyTemplate settings) prompt = []
  /\ exists evs outcome,
       callCustomApi h k prompt settings
       = (Fetch (mkRequest (customUrl settings) (customMethod settings) headers
                   (match customMethod settings with
                    | POST => Some []
                    | GET => None
                    end)) :: evs,
          outcome).
Proof.
  intros Hh Hb. rewrite Hb. split; [reflexivity|].
  rewrite (callCustomApi_sends _ _ _ _ _ Hh). cbv zeta.
  unfold request_of. rewrite Hb, prepareBody_empty.
  destruct (fetch h k _) as [e|r]; [now eexists _, _|].
  destruct (resp_ok r); [|now eexists _, _].
  destruct (JSON_parse (resp_body r)); now eexists _, _.
Qed.

(** C5 on a server that answers pong. *)
Lemma empty_body_template_is_sent_witness :
  exists evs outcome,
    callCustomApi (constant_host (jsq "{'r':'pong'}") None) 1 (js "hello")
      (echo_settings [])
    = (Fetch (mkRequest (js "https://example.test/chat") POST (JObject [])
                (Some [])) :: evs,
       outcome).
Proof.
  exact (proj2 (empty_body_template_is_sent
                  (constant_host (jsq "{'r':'pong'}") None) 1 (js "hello")
                  (echo_settings []) (JObject []) eq_refl eq_refl)).
Defined.

(** C5 as stated fails: with an empty body template the attempt does not
    fail, the request goes out with an empty body and the answer is
    returned. *)
Lemma empty_body_template_is_not_rejected :
  callCustomApi (constant_host (jsq "{'r':'pong'}") None) 1 (js "hello")
    (echo_settings [])
  = ([Fetch (mkRequest (js "https://example.test/chat") POST (JObject [])
               (Some []))],
     inr (js "pong")).
Proof. reflexivity. Qed.

(** Lines 17 to 22 parse the header text as it is: an empty one fails the
    attempt before anything is sent. *)
Theorem empty_headers_fail (h : host) (k : N) (prompt : jsstring)
  (settings : ApiSettings) :
  customHeaders settings = [] ->
  callCustomApi h k prompt settings = ([], inl invalid_headers).
Proof.
  intro H. apply (callCustomApi_invalid_headers _ _ _ _ SyntaxError).
  now rewrite H.
Qed.

Lemma empty_headers_fail_witness :
  callCustomApi echo_host 1 (js "hello")
    (mkSettings CUSTOM (js "https://example.test/chat") POST [] bare_template
       (js "r"))
  = ([], inl invalid_headers).
Proof.
  exact (empty_headers_fail echo_host 1 (js "hello")
           (mkSettings CUSTOM (js "https://example.test/chat") POST []
              bare_template (js "r"))
           eq_refl).
Defined.

(** C1 at failing inputs: the encoded prompt goes through the replacement
    patterns of String.prototype.replace. With the bare placeholder, the
    prompt made of a dollar sign and a backquote yields a body that is no
    JSON, and the prompt made of two dollar signs a body whose value is one
    dollar sign; with the quoted placeholder, a dollar sign and an ampersand
    in the prompt yield a body that is no JSON. Through [translateJson], a
    document that holds two dollar signs reaches the echoing server with one
    of them. *)
Theorem prepareBody_dollar_breaks_json :
  prepareBody bare_template (js "$`") = jsq "{'q': '{'q': '}"
  /\ JSON_parse (prepareBody bare_template (js "$`")) = inl SyntaxError
  /\ JSON_parse (prepareBody bare_template (js "$$"))
     = inr (JObject [(js "q", JString (js "$"))])
  /\ JSON_parse (prepareBody quoted_template (js "a$&b")) = inl SyntaxError
  /\ snd (translateJson echo_host (JObject [(js "k", JString (js "US$$"))])
            (Some (js "Translate.")) (Some (echo_settings bare_template)))
     = inr (JObject [(js "k", JString (js "US$"))]).
Proof. repeat split. Qed.

(** C6 at a failing input: for the prompt of two dollar signs the code puts
    one dollar sign between quotes where the spec's substitution puts the
    encoded prompt. *)
Theorem prepareBody_dollar_is_not_the_encoded_prompt :
  QuoteJSONString (js "$$") = jsq "'$$'"
  /\ prepareBody bare_template (js "$$") = jsq "{'q': '$'}"
  /\ substitute_spec bare_template (js "$$") = jsq "{'q': '$$'}"
  /\ prepareBody quoted_template (js "$$") = jsq "{'q': '$'}"
  /\ substitute_spec quoted_template (js "$$") = jsq "{'q': '$$'}".
Proof. repeat split. Qed.

(** ** The round trip *)

(** C8: when the client library echoes the prompt it is given, the call on
    the document whose k is v returns that document at the first attempt,
    whatever the system instruction; the built-in provider is the one that
    a call with the document alone selects. *)
Theorem translateJson_round_trip (h : host) (customPrompt : option jsstring)
  (apiSettings : option ApiSettings) :
  (forall g, generateContent h 1 g = inr (Some (gen_contents g))) ->
  (apiSettings = None
   \/ exists settings, apiSettings = Some settings /\ provider settings = GEMINI) ->
  translateJson h kv_document customPrompt apiSettings
  = ([Generate
        (mkGenerate modelId (geminiUserPrompt (jsq "{'k':'v'}"))
           (systemInstruction customPrompt) (js "application/json"))],
     inr kv_document).
Proof.
  intros Hecho Hprov.
  pose proof (translateJson_cases h kv_document customPrompt apiSettings) as Hc.
  cbv zeta in Hc. rewrite Hc. clear Hc.
  assert (H1 : attempt_of h kv_document customPrompt apiSettings 1
               = ([Generate
                     (mkGenerate modelId (geminiUserPrompt (jsq "{'k':'v'}"))
                        (systemInstruction customPrompt) (js "application/json"))],
                  inr kv_document)).
  { unfold attempt_of, attemptOnce, invokeAdapter.
    assert (Hsel :
      match apiSettings with
      | Some settings =>
          match provider settings with
          | GEMINI => true
          | CUSTOM => false
          end
      | None => true
      end = true).
    { destruct Hprov as [->|(s & -> & Hs)]; [reflexivity | now rewrite Hs]. }
    destruct apiSettings as [settings|]; [destruct (provider settings)|];
      try discriminate; rewrite Hecho; reflexivity. }
  now rewrite H1.
Qed.

(** C8 on the echoing host, with the call that passes the document alone. *)
Lemma translateJson_round_trip_witness :
  snd (translateJson echo_host kv_document None None) = inr kv_document.
Proof.
  rewrite (translateJson_round_trip echo_host None None
             (fun g => eq_refl) (or_introl eq_refl)).
  reflexivity.
Defined.

(** The custom provider is given the system instruction together with the
    task, and the default instruction holds braces of its own: echoed, it is
    swept into the greedy match and no attempt parses. With an instruction
    that holds none, the echo round-trips through the custom provider too,
    with either placeholder. *)
Lemma custom_echo_round_trip :
  snd (translateJson echo_host kv_document None (Some (echo_settings bare_template)))
  = inl SyntaxError
  /\ snd (translateJson echo_host kv_document (Some (js "Translate."))
            (Some (echo_settings bare_template)))
     = inr kv_document
  /\ snd (translateJson echo_host kv_document (Some (js "Translate."))
            (Some (echo_settings quoted_template)))
     = inr kv_document.
Proof. repeat split. Qed.

(** ** The chat session *)

Example contextString_samples :
  contextString None = no_file_loaded
  /\ contextString (Some (JObject [])) = js "{}"
  /\ contextString (Some (JNumber (Num.from_N 0))) = no_file_loaded
  /\ contextString (Some kv_document) = jsq "{'k':'v'}".
Proof. repeat split. Qed.



(** X7. sendMessage never answers the empty string: a reply with text is
    returned as it is, a reply without text or with an empty one gives the
    fixed apology, and a rejection of the chat is passed on. *)
Theorem sendMessage_never_empty (c : chat) (message : jsstring) :
  sendMessage c message <> inr []
  /\ (forall text, c message = inr (Some text) -> text <> [] ->
        sendMessage c message = inr text)
  /\ (c message = inr None \/ c message = inr (Some []) ->
      sendMessage c message = inr no_chat_response)
  /\ (forall e, c message = inl e -> sendMessage c message = inl e).
Proof.
  unfold sendMessage. split; [|split; [|split]].
  - destruct (c message) as [e|[[|u text]|]]; discriminate.
  - intros text -> Hne. destruct text; [contradiction | reflexivity].
  - intros [-> | ->]; reflexivity.
  - intros e ->. reflexivity.
Qed.

(** ** How often a provider is called *)

Lemma contacts_of_app (a b : list event) :
  contacts_of (a ++ b) = (contacts_of a + contacts_of b)%nat.
Proof.
  induction a as [|[] a IH]; cbn [app contacts_of]; rewrite ?IH; reflexivity.
Qed.

Lemma extractResponse_contacts (h : host) (decoded : json) (path : jsstring) :
  contacts_of (fst (extractResponse h decoded path)) = O.
Proof.
  unfold extractResponse.
  destruct (getNestedValue h decoded path) as [[]| |]; reflexivity.
Qed.

(** One call of callCustomApi sends at most one request, and none returns
    without having sent one. *)
Lemma callCustomApi_contacts (h : host) (k : N) (prompt : jsstring)
  (settings : ApiSettings) :
  (contacts_of (fst (callCustomApi h k prompt settings)) <= 1)%nat
  /\ (forall s, snd (callCustomApi h k prompt settings) = inr s ->
        contacts_of (fst (callCustomApi h k prompt settings)) = 1%nat).
Proof.
  destruct (JSON_parse (customHeaders settings)) as [e|headers] eqn:Hh.
  - rewrite (callCustomApi_invalid_headers h k prompt settings e Hh).
    split; [cbn; lia | discriminate].
  - rewrite (callCustomApi_sends h k prompt settings headers Hh).
    cbv zeta. destruct (fetch h k _) as [e|r].
    + split; [cbn; lia | discriminate].
    + destruct (resp_ok r).
      * destruct (JSON_parse (resp_body r)) as [e|decoded].
        -- split; [cbn; lia | discriminate].
        -- cbn [fst snd contacts_of].
           rewrite extractResponse_contacts. split; [lia | reflexivity].
      * split; [cbn; lia | discriminate].
Qed.

Lemma attemptOnce_contacts (h : host) (attempt : N)
  (instruction jsonString : jsstring) (apiSettings : option ApiSettings) :
  let run := attemptOnce h attempt instruction jsonString apiSettings in
  (contacts_of (fst run) <= 1)%nat
  /\ (forall v, snd run = inr v -> contacts_of (fst run) = 1%nat)
  /\ ((apiSettings = None
       \/ exists settings, apiSettings = Some settings /\ provider settings = GEMINI) ->
      contacts_of (fst run) = 1%nat).
Proof.
  cbv zeta. unfold attemptOnce, invokeAdapter.
  assert (Hg : forall g : generate_request,
             let m := (emit (Generate g) ;;;
                       match generateContent h attempt g with
                       | inl e => throw e
                       | inr (Some text) => ret text
                       | inr None => ret []
                       end) in
             contacts_of
               (fst (text <- m ;;
                     match text with
                     | [] => throw no_response_text
                     | _ => parse_or_throw (cleanResponse text)
                     end)) = 1%nat).
  { intros g. cbv zeta. unfold emit, bind, ret, throw, parse_or_throw.
    destruct (generateContent h attempt g) as [e|[[|u text]|]]; reflexivity. }
  destruct apiSettings as [settings|].
  - destruct (provider settings) eqn:Hp.
    + rewrite Hg. repeat split; auto.
    + destruct (callCustomApi_contacts h attempt
                  (fullPromptForCustom instruction jsonString) settings)
        as [Hle Hret].
      destruct (callCustomApi h attempt _ settings) as [evs [e|text]].
      * cbn [bind fst snd] in *. repeat split; [assumption | discriminate |].
        intros [Hn | (s & Hs & Hg')]; [discriminate|].
        injection Hs as <-. congruence.
      * specialize (Hret text eq_refl). cbn [fst snd] in Hret, Hle.
        unfold bind, throw, parse_or_throw.
        destruct text as [|u text]; cbn [fst snd]; rewrite ?app_nil_r;
          repeat split; try assumption; try discriminate; auto.
  - rewrite Hg. repeat split; auto.
Qed.

Section Contacts.

Variables (h : host) (jsonData : json) (customPrompt : option jsstring)
  (apiSettings : option ApiSettings).

Lemma attempt_of_contacts (k : N) (t : list event) (r : exn + json) :
  attempt_of h jsonData customPrompt apiSettings k = (t, r) ->
  (contacts_of t <= 1)%nat
  /\ (forall v, r = inr v -> contacts_of t = 1%nat)
  /\ ((apiSettings = None
       \/ exists settings, apiSettings = Some settings /\ provider settings = GEMINI) ->
      contacts_of t = 1%nat).
Proof.
  intros H.
  pose proof (attemptOnce_contacts h k (systemInstruction customPrompt)
                (JSON_stringify jsonData) apiSettings) as Hc.
  cbv zeta in Hc. unfold attempt_of in H. rewrite H in Hc. exact Hc.
Qed.

(** X8. translateJson calls a provider at most three times, at most once
    per attempt and never again after an attempt has returned: when it
    returns, the calls are at least one and at most one more than the
    failures it reported; when it throws, at most as many as the three
    failures. With the built-in provider every attempt is one call. *)
Theorem translateJson_calls_at_most_thrice :
  let run := translateJson h jsonData customPrompt apiSettings in
  (contacts_of (fst run) <= 3)%nat
  /\ (forall v, snd run = inr v ->
        (1 <= contacts_of (fst run) <= S (length (failures_of (fst run))))%nat)
  /\ (forall e, snd run = inl e ->
        (contacts_of (fst run) <= length (failures_of (fst run)))%nat
        /\ length (failures_of (fst run)) = 3%nat)
  /\ ((apiSettings = None
       \/ exists settings, apiSettings = Some settings /\ provider settings = GEMINI) ->
      contacts_of (fst run)
      = (length (failures_of (fst run))
         + match snd run with inr _ => 1 | inl _ => 0 end)%nat).
Proof.
  cbv zeta. rewrite translateJson_cases. cbv zeta.
  destruct (attempt_of h jsonData customPrompt apiSettings 1) as [t1 r1] eqn:H1.
  destruct (attempt_of h jsonData customPrompt apiSettings 2) as [t2 r2] eqn:H2.
  destruct (attempt_of h jsonData customPrompt apiSettings 3) as [t3 r3] eqn:H3.
  destruct (attempt_of_contacts _ _ _ H1) as (L1 & R1 & G1).
  destruct (attempt_of_contacts _ _ _ H2) as (L2 & R2 & G2).
  destruct (attempt_of_contacts _ _ _ H3) as (L3 & R3 & G3).
  destruct (attempt_of_quiet _ _ _ _ _ _ _ H1) as (_ & F1).
  destruct (attempt_of_quiet _ _ _ _ _ _ _ H2) as (_ & F2).
  destruct (attempt_of_quiet _ _ _ _ _ _ _ H3) as (_ & F3).
  destruct r1 as [e1|v1]; [destruct r2 as [e2|v2]; [destruct r3 as [e3|v3]|]|];
    cbn [fst snd];
    repeat (rewrite ?contacts_of_app, ?failures_of_app;
            cbn [contacts_of failures_of length app]);
    rewrite ?F1, ?F2, ?F3; cbn [length app Nat.add];
    rewrite ?length_app; cbn [length];
    try (specialize (R1 _ eq_refl)); try (specialize (R2 _ eq_refl));
    try (specialize (R3 _ eq_refl));
    (split; [lia | split; [intros v Hv; try discriminate; lia
                          | split; [intros e He; try discriminate; split; lia
                                   | intros Hg; specialize (G1 Hg);
                                     specialize (G2 Hg); specialize (G3 Hg); lia]]]).
Qed.

End Contacts.

(** ** Blank texts *)

(** A text that [trim] empties is white space throughout. *)
Lemma blank_all_white (s : jsstring) :
  blank s -> Forall (fun c => is_white_space c = true) s.
Proof.
  unfold blank, trim. intros H.
  apply (f_equal (@rev N)) in H. rewrite rev_involutive in H. cbn [rev] in H.
  apply trim_start_nil in H.
  destruct (trim_start s) as [|c r] eqn:Hs; [now apply trim_start_nil|].
  apply trim_start_head in Hs.
  rewrite Forall_forall in H.
  rewrite (H c) in Hs; [discriminate|].
  rewrite <- in_rev. now left.
Qed.

Lemma all_white_blank (s : jsstring) :
  Forall (fun c => is_white_space c = true) s -> blank s.
Proof.
  intros H. unfold blank, trim.
  assert (Hs : trim_start s = []).
  { induction H as [|c s Hc _ IH]; cbn [trim_start]; [reflexivity|].
    now rewrite Hc. }
  now rewrite Hs.
Qed.

Lemma skip_ws_all_white (s : jsstring) :
  Forall (fun c => is_white_space c = true) s ->
  Forall (fun c => is_white_space c = true) (Parse.skip_ws s).
Proof.
  induction 1 as [|c s Hc H IH]; cbn [Parse.skip_ws]; [constructor|].
  destruct (Parse.is_ws c); [exact IH | now constructor].
Qed.

Lemma skip_ws_head (s : jsstring) (c : N) (r : jsstring) :
  Parse.skip_ws s = c :: r -> Parse.is_ws c = false.
Proof.
  induction s as [|x s IH]; cbn [Parse.skip_ws]; [discriminate|].
  destruct (Parse.is_ws x) eqn:Hx; [exact IH|].
  intros [= <- _]. exact Hx.
Qed.

(** The white space of the language that is none of JSON. *)
Lemma white_space_cases (c : N) :
  is_white_space c = true -> Parse.is_ws c = false ->
  In c [11; 12; 160; 5760; 8232; 8233; 8239; 8287; 12288; 65279;
        8192; 8193; 8194; 8195; 8196; 8197; 8198; 8199; 8200; 8201; 8202].
Proof.
  unfold is_white_space, Parse.is_ws. cbn [existsb].
  rewrite !orb_true_iff, andb_true_iff, !N.eqb_eq, !N.leb_le.
  intros H Hj.
  assert (c <> 9 /\ c <> 10 /\ c <> 13 /\ c <> 32) as (H9 & H10 & H13 & H32).
  { repeat split; intros ->; discriminate Hj. }
  cbn [In]. lia.
Qed.

(** No value starts with white space that JSON does not know. *)
Lemma json_value_white (fuel : nat) (s : jsstring) :
  Forall (fun c => is_white_space c = true) s ->
  Parse.json_value (S fuel) s = Parse.SyntaxErr.
Proof.
  intros H. apply skip_ws_all_white in H.
  cbn [Parse.json_value].
  destruct (Parse.skip_ws s) as [|c r] eqn:Hs; [reflexivity|].
  apply skip_ws_head in Hs.
  inversion H as [|? ? Hc _]; subst.
  pose proof (white_space_cases c Hc Hs) as Hin.
  cbn [In] in Hin.
  repeat (destruct Hin as [<-|Hin]; [reflexivity|]).
  contradiction.
Qed.

(** [JSON.parse] rejects a blank text. *)
Lemma JSON_parse_blank (s : jsstring) : blank s -> JSON_parse s = inl SyntaxError.
Proof.
  intros H. apply blank_all_white in H. unfold JSON_parse.
  replace (Parse.fuel_for s) with (S (S (2 * length s)))
    by (unfold Parse.fuel_for; lia).
  now rewrite json_value_white.
Qed.

(** ** The settings form *)

Example validateJsonField_samples :
  validateJsonField field_headers (js "{") [] = [(field_headers, js "Invalid JSON format")]
  /\ validateJsonField field_headers (js "  ") [(field_headers, js "Invalid JSON format")]
     = []
  /\ validateJsonField field_body (js "  ") []
     = [(field_body, js "Body template cannot be empty")]
  /\ validateJsonField field_body bare_template
       [(field_body, js "Body template cannot be empty")] = []
  /\ validateJsonField field_body quoted_template []
     = [(field_body, js "Invalid JSON format")].
Proof. repeat split. Qed.

Lemma str_eqb_neq (a b : jsstring) : str_eqb a b = false <-> a <> b.
Proof.
  destruct (str_eqb a b) eqn:E.
  - apply str_eqb_eq in E. split; [discriminate | contradiction].
  - split; [|reflexivity]. intros _ H. apply str_eqb_eq in H. congruence.
Qed.

Lemma error_of_set_same (key msg : jsstring) (prev : errors) :
  error_of (set_error key msg prev) key = Some msg.
Proof.
  induction prev as [|[k m] r IH]; cbn [set_error error_of].
  - now rewrite str_eqb_refl.
  - destruct (str_eqb key k) eqn:E; cbn [error_of]; rewrite E; auto.
Qed.

Lemma error_of_set_other (key msg other : jsstring) (prev : errors) :
  other <> key ->
  error_of (set_error key msg prev) other = error_of prev other.
Proof.
  intros Hne. apply str_eqb_neq in Hne.
  induction prev as [|[k m] r IH]; cbn [set_error error_of].
  - now rewrite Hne.
  - destruct (str_eqb key k) eqn:E; cbn [error_of].
    + apply str_eqb_eq in E. subst k. now rewrite Hne.
    + now rewrite IH.
Qed.

Lemma error_of_delete_same (key : jsstring) (prev : errors) :
  error_of (delete_error key prev) key = None.
Proof.
  induction prev as [|[k m] r IH]; cbn [delete_error error_of]; [reflexivity|].
  destruct (str_eqb key k) eqn:E; cbn [error_of]; rewrite ?E; auto.
Qed.

Lemma error_of_delete_other (key other : jsstring) (prev : errors) :
  other <> key ->
  error_of (delete_error key prev) other = error_of prev other.
Proof.
  intros Hne. apply str_eqb_neq in Hne.
  induction prev as [|[k m] r IH]; cbn [delete_error error_of]; [reflexivity|].
  destruct (str_eqb key k) eqn:E; cbn [error_of].
  - apply str_eqb_eq in E. subst k. now rewrite Hne.
  - now rewrite IH.
Qed.

Lemma field_headers_is_not_field_body : field_headers <> field_body.
Proof. discriminate. Qed.

(** What the check of one field leaves in [errors]. *)
Lemma validate_headers (value : jsstring) (prev : errors) :
  error_of (validateJsonField field_headers value prev) field_headers
  = headers_error value
  /\ error_of (validateJsonField field_headers value prev) field_body
     = error_of prev field_body.
Proof.
  unfold validateJsonField, headers_error.
  change (str_eqb field_headers field_body) with false. cbv iota.
  assert (Hne : field_body <> field_headers) by discriminate.
  destruct (trim value);
    [|destruct (JSON_parse value)];
    rewrite ?error_of_set_same, ?error_of_delete_same,
      ?error_of_set_other, ?error_of_delete_other by exact Hne;
    split; reflexivity.
Qed.

Lemma validate_body (value : jsstring) (prev : errors) :
  error_of (validateJsonField field_body value prev) field_body
  = body_error value
  /\ error_of (validateJsonField field_body value prev) field_headers
     = error_of prev field_headers.
Proof.
  unfold validateJsonField, body_error.
  change (str_eqb field_body field_body) with true. cbv iota.
  pose proof field_headers_is_not_field_body as Hne.
  destruct (trim value);
    [|destruct (JSON_parse _)];
    rewrite ?error_of_set_same, ?error_of_delete_same,
      ?error_of_set_other, ?error_of_delete_other by exact Hne;
    split; reflexivity.
Qed.

Lemma headers_error_accepted (value : jsstring) :
  is_error (headers_error value) = false <-> headers_accepted value.
Proof.
  unfold headers_error, headers_accepted, blank.
  destruct (trim value) as [|c r] eqn:Ht.
  - split; [now left | reflexivity].
  - destruct (JSON_parse value) as [e|v].
    + split; [discriminate|]. intros [H|[v H]]; discriminate.
    + split; [|reflexivity]. intros _. right. now exists v.
Qed.

Lemma body_error_accepted (value : jsstring) :
  is_error (body_error value) = false <-> body_accepted value.
Proof.
  unfold body_error, body_accepted, blank.
  destruct (trim value) as [|c r] eqn:Ht.
  - split; [discriminate|]. intros [H _]. now contradiction H.
  - destruct (JSON_parse _) as [e|v].
    + split; [discriminate|]. intros [_ [v H]]. discriminate.
    + split; [|reflexivity]. intros _. split; [discriminate | now exists v].
Qed.

Lemma sync_in_step (customPrompt : jsstring) (apiSettings : ApiSettings)
  (st : form) : in_step (sync customPrompt apiSettings st).
Proof.
  unfold in_step, sync. cbn [form_errors localSettings].
  destruct (validate_body (customBodyTemplate apiSettings)
              (validateJsonField field_headers (customHeaders apiSettings)
                 (form_errors st))) as [Hb Hh].
  destruct (validate_headers (customHeaders apiSettings) (form_errors st))
    as [Hh' _].
  split; congruence.
Qed.

Lemma act_in_step (st : form) (a : action) : in_step st -> in_step (act st a).
Proof.
  intros [Hh Hb]. destruct a as [a|kind|prompt|cp settings| |]; cbn [act].
  - unfold in_step, updateSetting. cbn [form_errors localSettings].
    destruct a as [v|v|v|v|v|v];
      cbn [assign customHeaders customBodyTemplate];
      try (split; assumption).
    + destruct (validate_headers v (form_errors st)) as [H1 H2].
      split; congruence.
    + destruct (validate_body v (form_errors st)) as [H1 H2].
      split; congruence.
  - unfold in_step, applyPreset. cbn [form_errors localSettings].
    cbn [assign customHeaders customBodyTemplate].
    destruct (validate_body (preset_body (PRESETS kind))
                (validateJsonField field_headers (preset_headers (PRESETS kind))
                   (form_errors st))) as [H1 H2].
    destruct (validate_headers (preset_headers (PRESETS kind)) (form_errors st))
      as [H3 _].
    split; congruence.
  - split; assumption.
  - apply sync_in_step.
  - unfold handleSave.
    destruct (is_custom _ && _); cbn [snd]; split; assumption.
  - split; assumption.
Qed.

Lemma mounted_in_step (customPrompt : jsstring) (apiSettings : ApiSettings)
  (actions : list action) : in_step (mounted customPrompt apiSettings actions).
Proof.
  unfold mounted.
  generalize (sync_in_step customPrompt apiSettings
                (first_render customPrompt apiSettings)).
  generalize (sync customPrompt apiSettings
                (first_render customPrompt apiSettings)).
  induction actions as [|a actions IH]; intros st H; cbn [fold_left];
    [exact H|].
  apply IH. now apply act_in_step.
Qed.

Lemma mounted_app (customPrompt : jsstring) (apiSettings : ApiSettings)
  (actions : list action) (a : action) :
  mounted customPrompt apiSettings (actions ++ [a])
  = act (mounted customPrompt apiSettings actions) a.
Proof. unfold mounted. now rewrite fold_left_app. Qed.

(** X9. However the form has been used since it was mounted, the errors it
    holds are those of the current header text and body template, and
    saving goes by them: settings of the custom provider are saved exactly
    when the header text is blank or parses and the body template is not
    blank and parses once its first placeholder is replaced by a string;
    otherwise nothing is saved and the user is alerted. Settings of the
    built-in provider are always saved. The check takes the template with
    the bare placeholder and refuses the one with the placeholder between
    quotes, which callCustomApi fills in as well. *)
Theorem form_saves_what_it_checked (customPrompt : jsstring)
  (apiSettings : ApiSettings) (actions : list action) :
  let st := mounted customPrompt apiSettings actions in
  let settings := localSettings st in
  let saved :=
    [OnSavePrompt (form_prompt st); OnSaveApiSettings settings; SetTimeout 2000] in
  error_of (form_errors st) field_headers = headers_error (customHeaders settings)
  /\ error_of (form_errors st) field_body = body_error (customBodyTemplate settings)
  /\ (fst (handleSave st) = saved
      <-> (provider settings = CUSTOM ->
           headers_accepted (customHeaders settings)
           /\ body_accepted (customBodyTemplate settings)))
  /\ (fst (handleSave st) = saved
      \/ fst (handleSave st)
         = [Alert (js "Please fix JSON errors in Custom API settings before saving.")])
  /\ body_error bare_template = None
  /\ body_error quoted_template = Some (js "Invalid JSON format").
Proof.
  cbv zeta.
  destruct (mounted_in_step customPrompt apiSettings actions) as [Hh Hb].
  set (st := mounted customPrompt apiSettings actions) in *.
  split; [exact Hh|]. split; [exact Hb|].
  cut ((fst (handleSave st)
        = [OnSavePrompt (form_prompt st); OnSaveApiSettings (localSettings st);
           SetTimeout 2000]
        <-> (provider (localSettings st) = CUSTOM ->
             headers_accepted (customHeaders (localSettings st))
             /\ body_accepted (customBodyTemplate (localSettings st))))
       /\ (fst (handleSave st)
           = [OnSavePrompt (form_prompt st); OnSaveApiSettings (localSettings st);
              SetTimeout 2000]
           \/ fst (handleSave st)
              = [Alert (js "Please fix JSON errors in Custom API settings before saving.")])).
  { intros [H1 H2]. split; [exact H1|]. split; [exact H2|].
    split; vm_compute; reflexivity. }
  pose proof (headers_error_accepted (customHeaders (localSettings st))) as Ah.
  pose proof (body_error_accepted (customBodyTemplate (localSettings st))) as Ab.
  unfold handleSave. rewrite Hh, Hb.
  destruct (provider (localSettings st)); cbn [is_custom andb].
  - cbn [fst]. split; [|now left]. split; [discriminate | reflexivity].
  - destruct (is_error (headers_error _)); cbn [negb orb fst].
    + split; [|now right]. split; [discriminate|].
      intros H. destruct (H eq_refl) as [H1 _]. apply Ah in H1. discriminate.
    + destruct (is_error (body_error _)); cbn [negb fst].
      * split; [|now right]. split; [discriminate|].
        intros H. destruct (H eq_refl) as [_ H2]. apply Ab in H2. discriminate.
      * split; [|now left]. split; [|reflexivity].
        intros _ _. split; [now apply Ah | now apply Ab].
Qed.

Lemma preset_headers_accepted (type : preset_type) :
  headers_error (preset_headers (PRESETS type)) = None.
Proof. destruct type; reflexivity. Qed.

Lemma preset_body_accepted (type : preset_type) :
  body_error (preset_body (PRESETS type)) = None.
Proof. destruct type; reflexivity. Qed.

(** X10. A preset can always be saved: whatever the form held and showed
    before, applying a preset leaves no error on either field, and saving
    then hands over the settings of the preset for the custom provider. *)
Theorem applyPreset_can_be_saved (customPrompt : jsstring)
  (apiSettings : ApiSettings) (actions : list action) (type : preset_type) :
  let st := mounted customPrompt apiSettings (actions ++ [ApplyPreset type]) in
  error_of (form_errors st) field_headers = None
  /\ error_of (form_errors st) field_body = None
  /\ fst (handleSave st)
     = [OnSavePrompt (form_prompt (mounted customPrompt apiSettings actions));
        OnSaveApiSettings
          (mkSettings CUSTOM (preset_url (PRESETS type)) (preset_method (PRESETS type))
             (preset_headers (PRESETS type)) (preset_body (PRESETS type))
             (preset_path (PRESETS type)));
        SetTimeout 2000].
Proof.
  cbv zeta.
  destruct (mounted_in_step customPrompt apiSettings (actions ++ [ApplyPreset type]))
    as [Hh Hb].
  rewrite mounted_app in *. cbn [act] in *.
  set (st := mounted customPrompt apiSettings actions) in *.
  assert (Hs : localSettings (applyPreset type st)
               = mkSettings CUSTOM (preset_url (PRESETS type))
                   (preset_method (PRESETS type)) (preset_headers (PRESETS type))
                   (preset_body (PRESETS type)) (preset_path (PRESETS type)))
    by reflexivity.
  rewrite Hs in Hh, Hb. cbn [customHeaders customBodyTemplate] in Hh, Hb.
  rewrite preset_headers_accepted in Hh. rewrite preset_body_accepted in Hb.
  split; [exact Hh|]. split; [exact Hb|].
  unfold handleSave. rewrite Hh, Hb, Hs. reflexivity.
Qed.

(** ** The second copy of the service *)

Example second_copy_samples :
  SecondCopy.indexOf 123 (js "ab{c{") = 2%Z
  /\ SecondCopy.lastIndexOf 125 (js "a}b}c") = 3%Z
  /\ SecondCopy.indexOf 91 (js "abc") = (-1)%Z
  /\ SecondCopy.cleanResponse fenced_answer = jsq "{'a':1}"
  /\ SecondCopy.cleanResponse (js "x [1] } y") = js "[1] }"
  /\ cleanResponse (js "x [1] } y") = js "[1]".
Proof. repeat split. Qed.

Lemma indexOf_bound (c : N) (s : jsstring) : (-1 <= SecondCopy.indexOf c s)%Z.
Proof.
  induction s as [|x s IH]; cbn [SecondCopy.indexOf]; [lia|].
  destruct (x =? c); [lia|].
  destruct (Z.eqb_spec (SecondCopy.indexOf c s) (-1)); lia.
Qed.

Lemma lastIndexOf_bound (c : N) (s : jsstring) :
  (-1 <= SecondCopy.lastIndexOf c s)%Z.
Proof.
  induction s as [|x s IH]; cbn [SecondCopy.lastIndexOf]; [lia|].
  destruct (Z.eqb_spec (SecondCopy.lastIndexOf c s) (-1)); [|lia].
  destruct (x =? c); lia.
Qed.

Lemma indexOf_none (c : N) (s : jsstring) :
  SecondCopy.indexOf c s = (-1)%Z <-> ~ In c s.
Proof.
  induction s as [|x s IH]; cbn [SecondCopy.indexOf In]; [tauto|].
  pose proof (indexOf_bound c s) as Hb.
  destruct (N.eqb_spec x c) as [->|Hx].
  - split; [discriminate | tauto].
  - destruct (Z.eqb_spec (SecondCopy.indexOf c s) (-1)) as [E|E].
    + split; [|reflexivity]. intros _ [H|H]; [contradiction | now apply IH].
    + split; [lia|]. intros H. exfalso. apply E, IH. tauto.
Qed.

Lemma startIdx_cons (x : N) (s : jsstring) :
  SecondCopy.startIdx (x :: s)
  = if (x =? 123) || (x =? 91) then 0%Z
    else if (SecondCopy.startIdx s =? -1)%Z then (-1)%Z
         else (SecondCopy.startIdx s + 1)%Z.
Proof.
  unfold SecondCopy.startIdx. cbn [SecondCopy.indexOf].
  pose proof (indexOf_bound 123 s). pose proof (indexOf_bound 91 s).
  destruct (N.eqb_spec x 123) as [->|H1]; cbn [orb].
  - change (123 =? 91) with false. cbv iota.
    destruct (Z.eqb_spec (SecondCopy.indexOf 91 s) (-1)); cbn; try reflexivity.
    destruct (Z.eqb_spec (SecondCopy.indexOf 91 s + 1) (-1)); lia.
  - destruct (N.eqb_spec x 91) as [->|H2].
    + destruct (Z.eqb_spec (SecondCopy.indexOf 123 s) (-1)); cbn; try reflexivity.
      destruct (Z.eqb_spec (SecondCopy.indexOf 123 s + 1) (-1)); lia.
    + destruct (Z.eqb_spec (SecondCopy.indexOf 123 s) (-1)) as [E1|E1];
        destruct (Z.eqb_spec (SecondCopy.indexOf 91 s) (-1)) as [E2|E2];
        rewrite ?E1, ?E2;
        repeat match goal with
               | |- context [(?a =? ?b)%Z] => destruct (Z.eqb_spec a b)
               end; lia.
Qed.

(** The text from the index of the first opening delimiter is the text from
    the first opening delimiter. *)
Lemma startIdx_from_first_opener (s : jsstring) :
  match from_first_opener s with
  | Some r =>
      (0 <= SecondCopy.startIdx s)%Z
      /\ SecondCopy.substring_from (SecondCopy.startIdx s) s = r
  | None => SecondCopy.startIdx s = (-1)%Z
  end.
Proof.
  induction s as [|x s IH]; [reflexivity|].
  rewrite startIdx_cons. cbn [from_first_opener].
  destruct ((x =? 123) || (x =? 91)); [split; [lia | reflexivity]|].
  destruct (from_first_opener s) as [r|].
  - destruct IH as [H0 Hr].
    destruct (Z.eqb_spec (SecondCopy.startIdx s) (-1)); [lia|].
    split; [lia|]. unfold SecondCopy.substring_from in *.
    replace (Z.to_nat (SecondCopy.startIdx s + 1))
      with (S (Z.to_nat (SecondCopy.startIdx s))) by lia.
    exact Hr.
  - now rewrite IH.
Qed.

Lemma endIdx_cons (x : N) (s : jsstring) :
  SecondCopy.endIdx (x :: s)
  = if (SecondCopy.endIdx s =? -1)%Z
    then (if (x =? 125) || (x =? 93) then 0%Z else (-1)%Z)
    else (SecondCopy.endIdx s + 1)%Z.
Proof.
  unfold SecondCopy.endIdx. cbn [SecondCopy.lastIndexOf].
  pose proof (lastIndexOf_bound 125 s). pose proof (lastIndexOf_bound 93 s).
  destruct (Z.eqb_spec (SecondCopy.lastIndexOf 125 s) (-1)) as [E1|E1];
    destruct (Z.eqb_spec (SecondCopy.lastIndexOf 93 s) (-1)) as [E2|E2];
    rewrite ?E1, ?E2;
    destruct (x =? 125), (x =? 93); cbn [orb];
    repeat match goal with
           | |- context [(?a =? ?b)%Z] => destruct (Z.eqb_spec a b)
           end; lia.
Qed.

Lemma drop_to_closer_snoc (a : jsstring) (x : N) :
  drop_to_closer (a ++ [x])
  = match drop_to_closer a with
    | [] => if (x =? 125) || (x =? 93) then [x] else []
    | kept => kept ++ [x]
    end.
Proof.
  induction a as [|y a IH]; cbn [app drop_to_closer].
  - destruct ((x =? 125) || (x =? 93)); reflexivity.
  - destruct ((y =? 125) || (y =? 93)); [reflexivity | exact IH].
Qed.

(** The text up to the index of the last closing delimiter is the text up
    to the last closing delimiter. *)
Lemma endIdx_up_to_last_closer (s : jsstring) :
  match drop_to_closer (rev s) with
  | [] => SecondCopy.endIdx s = (-1)%Z
  | kept =>
      (0 <= SecondCopy.endIdx s)%Z
      /\ SecondCopy.substring_to (SecondCopy.endIdx s + 1) s = rev kept
  end.
Proof.
  induction s as [|x s IH]; [reflexivity|].
  rewrite endIdx_cons. cbn [rev]. rewrite drop_to_closer_snoc.
  destruct (drop_to_closer (rev s)) as [|k kept].
  - rewrite IH. cbn.
    destruct ((x =? 125) || (x =? 93)); [split; [lia | reflexivity] | reflexivity].
  - destruct IH as [H0 Hr].
    destruct (Z.eqb_spec (SecondCopy.endIdx s) (-1)); [lia|].
    cbn [app]. split; [lia|].
    unfold SecondCopy.substring_to in *.
    replace (Z.to_nat (SecondCopy.endIdx s + 1 + 1))
      with (S (Z.to_nat (SecondCopy.endIdx s + 1))) by lia.
    cbn [firstn]. rewrite Hr.
    change (k :: kept ++ [x]) with ((k :: kept) ++ [x]).
    now rewrite rev_app_distr.
Qed.

(** What the second copy gives to [JSON.parse], without indices. *)
Lemma second_copy_recovery_eq (text : jsstring) :
  SecondCopy.cleanResponse text
  = match from_first_opener (trim (strip_fences text)) with
    | Some opened => up_to_last_closer opened
    | None => trim (strip_fences text)
    end.
Proof.
  unfold SecondCopy.cleanResponse. cbv zeta.
  pose proof (startIdx_from_first_opener (trim (strip_fences text))) as Hs.
  destruct (from_first_opener (trim (strip_fences text))) as [opened|].
  - destruct Hs as [H0 ->].
    destruct (Z.eqb_spec (SecondCopy.startIdx (trim (strip_fences text))) (-1));
      [lia|]. cbn [negb].
    pose proof (endIdx_up_to_last_closer opened) as He.
    unfold up_to_last_closer.
    destruct (drop_to_closer (rev opened)) as [|k kept].
    + now rewrite He.
    + destruct He as [H1 ->].
      destruct (Z.eqb_spec (SecondCopy.endIdx opened) (-1)); [lia|].
      reflexivity.
  - now rewrite Hs.
Qed.

(** X12. The recovery of the second copy, written with indices, keeps the
    text from the first opening brace or bracket up to the last closing
    brace or bracket of either kind, all that follows the opening one when
    none closes; a text with neither brace nor bracket is parsed whole. Up
    to that last case it is the lenient recovery as the spec words it. *)
Theorem second_copy_recovery (text : jsstring) :
  SecondCopy.cleanResponse text
  = match from_first_opener (trim (strip_fences text)) with
    | Some opened => up_to_last_closer opened
    | None => trim (strip_fences text)
    end
  /\ (from_first_opener (trim (strip_fences text)) <> None ->
      JSON_parse (SecondCopy.cleanResponse text) = recover_spec text).
Proof.
  pose proof (second_copy_recovery_eq text) as H.
  split; [exact H|].
  intros Hne. rewrite H. unfold recover_spec.
  destruct (from_first_opener (trim (strip_fences text)));
    [reflexivity | contradiction].
Qed.

Lemma block_at_not_opener (x : N) (s : jsstring) :
  x <> 123 -> x <> 91 -> block_at (x :: s) = None.
Proof.
  intros H1 H2. cbn [block_at].
  apply N.eqb_neq in H1. apply N.eqb_neq in H2. now rewrite H1, H2.
Qed.

Lemma match_json_block_skip (pre rest : jsstring) :
  ~ In 123 pre -> ~ In 91 pre ->
  match_json_block (pre ++ rest) = match_json_block rest.
Proof.
  induction pre as [|x pre IH]; intros H1 H2; [reflexivity|].
  cbn [app]. cbn [In] in H1, H2.
  assert (Hb : block_at (x :: pre ++ rest) = None)
    by (apply block_at_not_opener; tauto).
  cbn [match_json_block]. rewrite Hb. apply IH; tauto.
Qed.

Lemma match_json_block_here (s m : jsstring) :
  block_at s = Some m -> match_json_block s = Some m.
Proof. intros H. destruct s; cbn [match_json_block]; now rewrite H. Qed.

Lemma from_first_opener_skip (pre rest : jsstring) :
  ~ In 123 pre -> ~ In 91 pre ->
  from_first_opener (pre ++ rest) = from_first_opener rest.
Proof.
  induction pre as [|x pre IH]; intros H1 H2; [reflexivity|].
  cbn [app from_first_opener]. cbn [In] in H1, H2.
  destruct (N.eqb_spec x 123); [tauto|]. destruct (N.eqb_spec x 91); [tauto|].
  apply IH; tauto.
Qed.

Lemma drop_to_closer_skip (a b : jsstring) :
  ~ In 125 a -> ~ In 93 a -> drop_to_closer (a ++ b) = drop_to_closer b.
Proof.
  induction a as [|x a IH]; intros H1 H2; [reflexivity|].
  cbn [app drop_to_closer]. cbn [In] in H1, H2.
  destruct (N.eqb_spec x 125); [tauto|]. destruct (N.eqb_spec x 93); [tauto|].
  apply IH; tauto.
Qed.

Lemma closer_cases (o c : N) :
  closer o = Some c -> (o = 123 /\ c = 125) \/ (o = 91 /\ c = 93).
Proof.
  unfold closer. destruct (N.eqb_spec o 123); [intros [= <-]; tauto|].
  destruct (N.eqb_spec o 91); [intros [= <-]; tauto | discriminate].
Qed.

(** A block that nothing opens before and nothing closes after is what
    either copy recovers. *)
Lemma recovery_of_block (pre mid post : jsstring) (o c : N) :
  closer o = Some c ->
  ~ In 123 pre -> ~ In 91 pre -> ~ In 125 post -> ~ In 93 post ->
  let cleanText := pre ++ (o :: mid ++ [c]) ++ post in
  match_json_block cleanText = Some (o :: mid ++ [c])
  /\ match from_first_opener cleanText with
     | Some opened => up_to_last_closer opened
     | None => cleanText
     end = o :: mid ++ [c].
Proof.
  intros Hc P1 P2 Q1 Q2. cbv zeta.
  assert (Hoc : In c [125; 93] /\ In o [123; 91]).
  { destruct (closer_cases o c Hc) as [[-> ->]|[-> ->]]; cbn; tauto. }
  destruct Hoc as [Hcc Hoo]. split.
  - rewrite match_json_block_skip by assumption.
    apply match_json_block_here, block_at_some. exists o, c, mid, post.
    repeat split; try assumption.
    destruct (closer_cases o c Hc) as [[-> ->]|[-> ->]]; assumption.
  - rewrite from_first_opener_skip by assumption.
    cbn [app from_first_opener].
    assert (Ho : (o =? 123) || (o =? 91) = true).
    { cbn [In] in Hoo. destruct Hoo as [<-|[<-|[]]]; reflexivity. }
    rewrite Ho. unfold up_to_last_closer.
    change (o :: (mid ++ [c]) ++ post) with ((o :: mid ++ [c]) ++ post).
    rewrite rev_app_distr, drop_to_closer_skip
      by (rewrite <- in_rev; assumption).
    change (o :: mid ++ [c]) with ((o :: mid) ++ [c]).
    rewrite rev_app_distr. cbn [rev app drop_to_closer].
    assert (Hcl : (c =? 125) || (c =? 93) = true).
    { cbn [In] in Hcc. destruct Hcc as [<-|[<-|[]]]; reflexivity. }
    rewrite Hcl.
    change (c :: rev mid ++ [o]) with ([c] ++ rev (o :: mid)).
    now rewrite rev_app_distr, rev_involutive.
Qed.

(** X13. The two copies recover the same text from an answer whose first
    brace or bracket is closed by the last closing brace or bracket of the
    whole text, its own kind: the text between the two, both included. They
    also agree, on the whole cleaned text, when it holds neither brace nor
    bracket. They part when a closing delimiter of the other kind follows
    the block: the first copy stops at the last one of the opening kind, the
    second at the last one of either kind. *)
Theorem copies_agree_on_recovery (text pre mid post : jsstring) (o c : N) :
  closer o = Some c ->
  trim (strip_fences text) = pre ++ (o :: mid ++ [c]) ++ post ->
  ~ In 123 pre -> ~ In 91 pre ->
  ~ In 125 post -> ~ In 93 post ->
  cleanResponse text = o :: mid ++ [c]
  /\ SecondCopy.cleanResponse text = o :: mid ++ [c]
  /\ (forall other,
        ~ In 123 (trim (strip_fences other)) ->
        ~ In 91 (trim (strip_fences other)) ->
        cleanResponse other = trim (strip_fences other)
        /\ SecondCopy.cleanResponse other = trim (strip_fences other))
  /\ cleanResponse (js "x [1] } y") = js "[1]"
  /\ SecondCopy.cleanResponse (js "x [1] } y") = js "[1] }".
Proof.
  intros Hc Ht P1 P2 Q1 Q2.
  destruct (recovery_of_block pre mid post o c Hc P1 P2 Q1 Q2)
    as [Hfirst Hsecond].
  rewrite <- Ht in Hfirst, Hsecond.
  split; [|split; [|split; [|split; vm_compute; reflexivity]]].
  - unfold cleanResponse. cbv zeta. now rewrite Hfirst.
  - rewrite second_copy_recovery_eq. exact Hsecond.
  - intros other N1 N2. split.
    + unfold cleanResponse. cbv zeta.
      rewrite <- (app_nil_r (trim (strip_fences other))) at 1.
      rewrite match_json_block_skip by assumption. reflexivity.
    + rewrite (second_copy_recovery_eq other).
      rewrite <- (app_nil_r (trim (strip_fences other))) at 1.
      rewrite from_first_opener_skip by assumption. reflexivity.
Qed.

Lemma copies_agree_on_recovery_witness :
  cleanResponse fenced_answer = jsq "{'a':1}"
  /\ SecondCopy.cleanResponse fenced_answer = jsq "{'a':1}".
Proof.
  assert (Ht : trim (strip_fences fenced_answer)
               = jsq "Here is the result:json\n"
                   ++ (123 :: jsq "'a':1" ++ [125]) ++ jsq "\nThanks")
    by (vm_compute; reflexivity).
  assert (N1 : ~ In 123 (jsq "Here is the result:json\n"))
    by (apply not_in_existsb; vm_compute; reflexivity).
  assert (N2 : ~ In 91 (jsq "Here is the result:json\n"))
    by (apply not_in_existsb; vm_compute; reflexivity).
  assert (N3 : ~ In 125 (jsq "\nThanks"))
    by (apply not_in_existsb; vm_compute; reflexivity).
  assert (N4 : ~ In 93 (jsq "\nThanks"))
    by (apply not_in_existsb; vm_compute; reflexivity).
  pose proof (copies_agree_on_recovery fenced_answer
                (jsq "Here is the result:json\n") (jsq "'a':1") (jsq "\nThanks")
                123 125 eq_refl Ht N1 N2 N3 N4) as H.
  exact (conj (proj1 H) (proj1 (proj2 H))).
Defined.

(** ** Blank header texts *)

Lemma second_bind_ret {A B : Type} (a : A) (k : A -> SecondCopy.M B) :
  SecondCopy.bind (SecondCopy.ret a) k = k a.
Proof. unfold SecondCopy.bind, SecondCopy.ret. now destruct (k a). Qed.

Lemma second_bind_emit {A : Type} (ev : SecondCopy.event) (m : SecondCopy.M A) :
  SecondCopy.bind (SecondCopy.emit ev) (fun _ => m) = (ev :: fst m, snd m).
Proof. unfold SecondCopy.bind, SecondCopy.emit. now destruct m. Qed.

Lemma second_copy_blank_headers (engine : exn -> jsstring) (h : host) (k : N)
  (prompt : jsstring) (settings : ApiSettings) :
  blank (customHeaders settings) ->
  exists evs outcome,
    SecondCopy.callCustomApi engine h k prompt settings
    = (SecondCopy.Fetch (request_of settings (JObject []) prompt) :: evs, outcome).
Proof.
  intros Hb. unfold SecondCopy.callCustomApi, SecondCopy.prepareHeaders.
  unfold blank in Hb. rewrite Hb.
  rewrite second_bind_ret. cbv zeta. rewrite second_bind_emit.
  eexists. eexists. reflexivity.
Qed.

(** X11. A header text of white space only, the empty one included, divides
    the form and the two copies of the service: the form shows no error for
    it; callCustomApi of the service throws the header error before any
    request is sent, so that with the custom provider translateJson fails
    three times without a single request; the second copy sends the request
    with an empty object for its headers. *)
Theorem blank_headers_divide_form_and_service (engine : exn -> jsstring)
  (h : host) (k : N) (prompt : jsstring) (settings : ApiSettings)
  (jsonData : json) (customPrompt : option jsstring) (prev : errors) :
  blank (customHeaders settings) ->
  error_of (validateJsonField field_headers (customHeaders settings) prev)
    field_headers = None
  /\ callCustomApi h k prompt settings = ([], inl invalid_headers)
  /\ (provider settings = CUSTOM ->
      translateJson h jsonData customPrompt (Some settings)
      = ([WarnAttempt 1 invalid_headers; Delay 2000;
          WarnAttempt 2 invalid_headers; Delay 4000;
          WarnAttempt 3 invalid_headers],
         inl invalid_headers))
  /\ (exists evs outcome,
        SecondCopy.callCustomApi engine h k prompt settings
        = (SecondCopy.Fetch (request_of settings (JObject []) prompt) :: evs,
           outcome)).
Proof.
  intros Hb.
  assert (Hcall : forall k' prompt',
             callCustomApi h k' prompt' settings = ([], inl invalid_headers)).
  { intros k' prompt'.
    apply (callCustomApi_invalid_headers h k' prompt' settings SyntaxError).
    now apply JSON_parse_blank. }
  split; [|split; [|split]].
  - rewrite (proj1 (validate_headers (customHeaders settings) prev)).
    unfold headers_error. unfold blank in Hb. now rewrite Hb.
  - apply Hcall.
  - intros Hp. unfold translateJson.
    rewrite (retry_all_fail _ [] [] [] invalid_headers invalid_headers
               invalid_headers);
      try (unfold attemptOnce, invokeAdapter; rewrite Hp, Hcall; reflexivity).
    reflexivity.
  - now apply second_copy_blank_headers.
Qed.

Lemma blank_headers_divide_form_and_service_witness :
  callCustomApi echo_host 1 (js "hello")
    (mkSettings CUSTOM (js "https://example.test/chat") POST (jsq " \n")
       bare_template (js "r"))
  = ([], inl invalid_headers)
  /\ (exists evs outcome,
        SecondCopy.callCustomApi (fun _ => []) echo_host 1 (js "hello")
          (mkSettings CUSTOM (js "https://example.test/chat") POST (jsq " \n")
             bare_template (js "r"))
        = (SecondCopy.Fetch
             (request_of
                (mkSettings CUSTOM (js "https://example.test/chat") POST
                   (jsq " \n") bare_template (js "r"))
                (JObject []) (js "hello")) :: evs,
           outcome)).
Proof.
  assert (Hb : blank (jsq " \n")) by (vm_compute; reflexivity).
  pose proof (blank_headers_divide_form_and_service (fun _ => []) echo_host 1
                (js "hello")
                (mkSettings CUSTOM (js "https://example.test/chat") POST
                   (jsq " \n") bare_template (js "r"))
                kv_document None [] Hb) as H.
  exact (conj (proj1 (proj2 H)) (proj2 (proj2 (proj2 H)))).
Defined.

(** ** Numbers through JSON *)

Lemma number_token_digit (d : N) (r : jsstring) :
  d <= 9 ->
  Parse.number_token ((48 + d) :: r) = number_after false d r
  /\ Parse.number_token (45 :: (48 + d) :: r) = number_after true d r.
Proof.
  intros Hd.
  assert (H : In d [0; 1; 2; 3; 4; 5; 6; 7; 8; 9]) by (cbn [In]; lia).
  cbn [In] in H.
  repeat (destruct H as [<-|H];
          [unfold Parse.number_token, number_after;
           cbn [Parse.span_digits Num.is_digit N.add Pos.add Pos.succ N.leb
                N.compare Pos.compare Pos.compare_cont andb Num.digits_of
                N.sub Pos.sub Pos.sub_mask Pos.double_mask Pos.succ_double_mask
                Pos.double_pred_mask Pos.pred_double];
           destruct (Parse.span_digits r) as [more s2];
           split; [destruct more; reflexivity | destruct more; reflexivity]|]).
  contradiction.
Qed.

Lemma is_digit_show (d : N) : d <= 9 -> Num.is_digit (48 + d) = true.
Proof.
  intros H. unfold Num.is_digit.
  apply andb_true_iff. split; apply N.leb_le; lia.
Qed.

Lemma span_digits_app (a rest : jsstring) :
  forallb Num.is_digit a = true ->
  Parse.span_digits (a ++ rest)
  = (a ++ fst (Parse.span_digits rest), snd (Parse.span_digits rest)).
Proof.
  induction a as [|c a IH]; cbn [app forallb]; intros H.
  - now destruct (Parse.span_digits rest).
  - apply andb_true_iff in H. destruct H as [Hc Ha].
    cbn [Parse.span_digits]. rewrite Hc, (IH Ha). reflexivity.
Qed.

Lemma span_digits_stop (c : N) (rest : jsstring) :
  Num.is_digit c = false -> Parse.span_digits (c :: rest) = ([], c :: rest).
Proof. intros H. cbn [Parse.span_digits]. now rewrite H. Qed.

Lemma span_digits_terminated (rest : jsstring) :
  terminated rest -> Parse.span_digits rest = ([], rest).
Proof.
  destruct rest as [|c rest]; [reflexivity|].
  intros [-> | [-> | ->]]; reflexivity.
Qed.

Lemma fraction_terminated (rest : jsstring) :
  terminated rest -> Parse.fraction rest = Some ([], rest).
Proof.
  destruct rest as [|c rest]; [reflexivity|].
  intros [-> | [-> | ->]]; reflexivity.
Qed.

Lemma exponent_terminated (rest : jsstring) :
  terminated rest -> Parse.exponent rest = Some (0%Z, rest).
Proof.
  destruct rest as [|c rest]; [reflexivity|].
  intros [-> | [-> | ->]]; reflexivity.
Qed.

Lemma show_digits_are_digits (ds : list N) :
  Forall (fun d => d <= 9) ds -> forallb Num.is_digit (Num.show_digits ds) = true.
Proof.
  induction 1 as [|d ds Hd _ IH]; [reflexivity|].
  cbn [Num.show_digits map forallb]. rewrite is_digit_show by exact Hd.
  exact IH.
Qed.

Lemma zeros_are_digits (n : nat) : forallb Num.is_digit (repeat 48 n) = true.
Proof. induction n; [reflexivity | exact IHn]. Qed.

Lemma digits_of_app (a b : jsstring) :
  Num.digits_of (a ++ b) = Num.digits_of a ++ Num.digits_of b.
Proof. induction a as [|c a IH]; cbn [app Num.digits_of]; now rewrite ?IH. Qed.

Lemma digits_of_show (ds : list N) : Num.digits_of (Num.show_digits ds) = ds.
Proof.
  induction ds as [|d ds IH]; [reflexivity|].
  cbn [Num.show_digits map Num.digits_of]. fold (Num.show_digits ds).
  rewrite IH. f_equal. lia.
Qed.

Lemma digits_of_zeros (n : nat) : Num.digits_of (repeat 48 n) = repeat 0 n.
Proof. induction n; [reflexivity|]. cbn [repeat Num.digits_of]. now rewrite IHn. Qed.

Lemma drop_zeros_zeros (n : nat) (l : list N) :
  Num.drop_zeros (repeat 0 n ++ l) = Num.drop_zeros l.
Proof. induction n; [reflexivity | exact IHn]. Qed.

Lemma drop_zeros_head (d : N) (l : list N) :
  d <> 0 -> Num.drop_zeros (d :: l) = d :: l.
Proof. intros H. destruct d; [contradiction | reflexivity]. Qed.

Lemma rev_repeat {A : Type} (a : A) (n : nat) : rev (repeat a n) = repeat a n.
Proof.
  induction n; [reflexivity|]. cbn [repeat rev]. rewrite IHn.
  clear IHn. induction n; [reflexivity|]. cbn [repeat app]. now rewrite IHn.
Qed.

Lemma rev_head_last (d : N) (ds : list N) :
  exists l, rev (d :: ds) = last (d :: ds) 1 :: l.
Proof.
  revert d. induction ds as [|x ds IH]; intros d; [now exists []|].
  destruct (IH x) as [l Hl].
  exists (l ++ [d]).
  change (rev (d :: x :: ds)) with (rev (x :: ds) ++ [d]). rewrite Hl.
  reflexivity.
Qed.

(** The digits written with zeros before and after denote the number of
    the digits alone. *)
Lemma of_parts_canonical (neg : bool) (int frac : list N) (e : Z)
  (d : N) (ds : list N) (a b : nat) :
  d <> 0 -> last (d :: ds) 1 <> 0 ->
  int ++ frac = repeat 0 a ++ (d :: ds) ++ repeat 0 b ->
  Num.of_parts neg int frac e
  = mkNumber neg (d :: ds) (Z.of_nat (length int) - Z.of_nat a + e).
Proof.
  intros Hd Hl Hall. unfold Num.of_parts. rewrite Hall.
  rewrite drop_zeros_zeros. cbn [app]. rewrite (drop_zeros_head d) by exact Hd.
  change (d :: ds ++ repeat 0 b) with ((d :: ds) ++ repeat 0 b).
  rewrite rev_app_distr, rev_repeat, drop_zeros_zeros.
  destruct (rev_head_last d ds) as [l Hr]. rewrite Hr.
  rewrite drop_zeros_head by exact Hl. rewrite <- Hr, rev_involutive.
  cbv zeta iota. f_equal.
  rewrite !length_app, !repeat_length. lia.
Qed.

Lemma zero_parts (neg : bool) : Num.of_parts neg [0] [] 0 = mkNumber neg [] 0.
Proof. reflexivity. Qed.

(** Decimal writing of a natural number, read back. *)
Lemma fold_digits_acc (u : Decimal.uint) (p : positive) :
  fold_left (fun acc d => acc * 10 + d) (Num.digits_of (Num.uint_units u)) (N.pos p)
  = N.pos (Pos.of_uint_acc u p).
Proof.
  revert p. induction u; intros p; cbn [Num.uint_units Num.digits_of fold_left
                                         Pos.of_uint_acc];
    try reflexivity;
    match goal with
    | |- fold_left _ _ ?x = N.pos (Pos.of_uint_acc _ ?q) =>
        replace x with (N.pos q) by lia; apply IHu
    end.
Qed.

Lemma fold_digits_of_uint (u : Decimal.uint) :
  fold_digits (Num.digits_of (Num.uint_units u)) = N.of_uint u.
Proof.
  unfold fold_digits, N.of_uint.
  induction u; cbn [Num.uint_units Num.digits_of fold_left Pos.of_uint];
    try reflexivity; try exact IHu;
    match goal with
    | |- fold_left _ _ ?x = N.pos (Pos.of_uint_acc _ ?q) =>
        replace x with (N.pos q) by lia; apply fold_digits_acc
    end.
Qed.

Lemma fold_digits_of_N (m : N) : fold_digits (Num.digits_of (Num.of_N m)) = m.
Proof.
  unfold Num.of_N. rewrite fold_digits_of_uint. apply DecimalN.Unsigned.of_to.
Qed.

Lemma uint_units_are_digits (u : Decimal.uint) :
  forallb Num.is_digit (Num.uint_units u) = true.
Proof. induction u; cbn [Num.uint_units forallb]; try reflexivity; exact IHu. Qed.

Lemma of_N_not_empty (m : N) : Num.of_N m <> [].
Proof.
  unfold Num.of_N. intros H.
  pose proof (DecimalN.Unsigned.of_to m) as Hm.
  destruct (N.to_uint m) eqn:E; try discriminate H.
  cbn in Hm. subst m. discriminate E.
Qed.

Lemma exponent_digits_of_N (neg : bool) (m : N) (rest : jsstring) :
  terminated rest ->
  Parse.exponent_digits neg (Num.of_N m ++ rest)
  = Some (if neg then (- Z.of_N m)%Z else Z.of_N m, rest).
Proof.
  intros Ht. unfold Parse.exponent_digits.
  rewrite span_digits_app by apply uint_units_are_digits.
  rewrite (span_digits_terminated rest Ht). cbn [fst snd]. rewrite app_nil_r.
  pose proof (of_N_not_empty m) as Hne.
  destruct (Num.of_N m) as [|c r] eqn:E; [contradiction|].
  rewrite <- E, fold_digits_of_N. reflexivity.
Qed.

Lemma number_token_sign (neg : bool) (d : N) (r : jsstring) :
  d <= 9 ->
  Parse.number_token ((if neg then [45] else []) ++ (48 + d) :: r)
  = number_after neg d r.
Proof.
  intros Hd. destruct (number_token_digit d r Hd) as [Hp Hm].
  destruct neg; assumption.
Qed.

Lemma number_after_nonzero (neg : bool) (d : N) (r more s2 : jsstring) :
  d <> 0 ->
  Parse.span_digits r = (more, s2) ->
  number_after neg d r
  = match Parse.fraction s2 with
    | None => None
    | Some (frac, s3) =>
        match Parse.exponent s3 with
        | None => None
        | Some (e, s4) =>
            Some (Num.of_parts neg (d :: Num.digits_of more)
                    (Num.digits_of frac) e, s4)
        end
    end.
Proof.
  intros Hd Hs. unfold number_after. rewrite Hs.
  destruct d; [contradiction | reflexivity].
Qed.

(** Number::toString and the number token of JSON are inverse to each other
    on canonical numbers. *)
Lemma number_token_toString (x : number) (rest : jsstring) :
  canonical_number x -> terminated rest ->
  Parse.number_token (Num.toString x ++ rest) = Some (x, rest).
Proof.
  destruct x as [neg digits n]. unfold canonical_number.
  cbn [num_neg num_digits num_point]. intros [Hall Hends] Ht.
  unfold Num.toString. cbn [num_neg num_digits num_point].
  destruct digits as [|d ds].
  - destruct Hends as [-> ->].
    change ([48] ++ rest) with ((if false then [45] else []) ++ (48 + 0) :: rest).
    rewrite number_token_sign by lia.
    unfold number_after. rewrite (span_digits_terminated rest Ht).
    rewrite (fraction_terminated rest Ht), (exponent_terminated rest Ht).
    reflexivity.
  - destruct Hends as [Hd Hl].
    inversion Hall as [|? ? Hd9 Hds]; subst.
    pose proof (show_digits_are_digits ds Hds) as Hshow.
    cbv zeta.
    set (k := Z.of_nat (length (d :: ds))).
    assert (Hk : k = Z.of_nat (S (length ds))) by reflexivity.
    destruct ((k <=? n)%Z && (n <=? 21)%Z) eqn:B1.
    { (* digits and zeros *)
      apply andb_true_iff in B1. destruct B1 as [B1 _]. apply Z.leb_le in B1.
      set (z := Z.to_nat (n - k)).
      change (Num.show_digits (d :: ds)) with ((48 + d) :: Num.show_digits ds).
      rewrite <- ?app_assoc; cbn [app]; rewrite <- ?app_assoc.
      rewrite number_token_sign by exact Hd9.
      rewrite (number_after_nonzero neg d _ (Num.show_digits ds ++ repeat 48 z) rest Hd).
      2:{ rewrite span_digits_app by exact Hshow.
          rewrite span_digits_app by apply zeros_are_digits.
          rewrite (span_digits_terminated rest Ht). cbn [fst snd].
          now rewrite app_nil_r. }
      rewrite (fraction_terminated rest Ht), (exponent_terminated rest Ht).
      rewrite digits_of_app, digits_of_show, digits_of_zeros.
      rewrite (of_parts_canonical neg _ _ 0 d ds 0 z Hd Hl)
        by (cbn [Num.digits_of repeat app]; now rewrite app_nil_r).
      do 3 f_equal. cbn [length]. rewrite length_app, repeat_length.
      subst z k. cbn [length]. lia. }
    destruct ((0 <? n)%Z && (n <=? 21)%Z) eqn:B2.
    { (* a decimal point among the digits *)
      apply andb_true_iff in B2. destruct B2 as [B2 B2']. apply Z.ltb_lt in B2.
      apply andb_false_iff in B1.
      assert (Hnk : (n < k)%Z) by (destruct B1 as [B1|B1];
                                   [apply Z.leb_gt in B1; lia | congruence]).
      set (m := Z.to_nat n).
      assert (Hm : exists m', m = S m' /\ (m' < length ds)%nat)
        by (exists (pred m); subst m; lia).
      destruct Hm as (m' & Hm & Hm'). rewrite Hm. cbn [firstn skipn].
      change (Num.show_digits (d :: firstn m' ds))
        with ((48 + d) :: Num.show_digits (firstn m' ds)).
      rewrite <- ?app_assoc; cbn [app]; rewrite <- ?app_assoc; cbn [app].
      rewrite number_token_sign by exact Hd9.
      assert (Hparts : Forall (fun d => d <= 9) (firstn m' ds)
                       /\ Forall (fun d => d <= 9) (skipn m' ds))
        by (apply Forall_app; now rewrite firstn_skipn).
      destruct Hparts as [Hfirst Hskip].
      rewrite (number_after_nonzero neg d _ (Num.show_digits (firstn m' ds))
                 (46 :: Num.show_digits (skipn m' ds) ++ rest) Hd).
      2:{ rewrite span_digits_app by now apply show_digits_are_digits.
          rewrite span_digits_stop by reflexivity. cbn [fst snd].
          now rewrite app_nil_r. }
      assert (Hne : skipn m' ds <> []).
      { intros E. apply (f_equal (@length N)) in E.
        rewrite length_skipn in E. cbn [length] in E. lia. }
      unfold Parse.fraction.
      rewrite span_digits_app by now apply show_digits_are_digits.
      rewrite (span_digits_terminated rest Ht). cbn [fst snd]. rewrite app_nil_r.
      destruct (Num.show_digits (skipn m' ds)) as [|c cs] eqn:Es.
      { destruct (skipn m' ds); [contradiction | discriminate Es]. }
      rewrite <- Es. rewrite (exponent_terminated rest Ht).
      rewrite !digits_of_show.
      rewrite (of_parts_canonical neg _ _ 0 d ds 0 0 Hd Hl)
        by (cbn [repeat app]; rewrite app_nil_r; cbn [app];
            now rewrite firstn_skipn).
      do 3 f_equal. cbn [length]. rewrite length_firstn. subst m k.
      cbn [length] in Hnk. lia. }
    destruct ((-6 <? n)%Z && (n <=? 0)%Z) eqn:B3.
    { (* zero, the point, zeros and the digits *)
      apply andb_true_iff in B3. destruct B3 as [B3 B3'].
      apply Z.ltb_lt in B3. apply Z.leb_le in B3'.
      set (z := Z.to_nat (- n)).
      change ([48; 46] ++ repeat 48 z ++ Num.show_digits (d :: ds))
        with ((48 + 0) :: 46 :: repeat 48 z ++ Num.show_digits (d :: ds)).
      rewrite <- ?app_assoc; cbn [app]; rewrite <- ?app_assoc.
      rewrite number_token_sign by lia.
      unfold number_after. rewrite span_digits_stop by reflexivity.
      unfold Parse.fraction.
      rewrite span_digits_app by apply zeros_are_digits.
      rewrite span_digits_app
        by (apply (show_digits_are_digits (d :: ds)); now constructor).
      rewrite (span_digits_terminated rest Ht). cbn [fst snd]. rewrite app_nil_r.
      destruct (repeat 48 z ++ Num.show_digits (d :: ds)) as [|c cs] eqn:Es.
      { destruct z; discriminate Es. }
      rewrite <- Es. rewrite (exponent_terminated rest Ht).
      rewrite digits_of_app, digits_of_zeros, digits_of_show.
      rewrite (of_parts_canonical neg _ _ 0 d ds (S z) 0 Hd Hl)
        by (cbn [Num.digits_of repeat app]; now rewrite app_nil_r).
      do 3 f_equal. cbn [length Num.digits_of]. subst z. lia. }
    (* mantissa and exponent *)
    apply andb_false_iff in B1. apply andb_false_iff in B2.
    apply andb_false_iff in B3.
    assert (Hn : (n <= -6 \/ 21 < n)%Z).
    { destruct B2 as [B2|B2]; [apply Z.ltb_ge in B2 | apply Z.leb_gt in B2; lia].
      destruct B3 as [B3|B3]; [apply Z.ltb_ge in B3; lia | apply Z.leb_gt in B3; lia]. }
    set (e := (n - 1)%Z).
    assert (Hexp : Parse.exponent
                     (101 :: (if (e <? 0)%Z then [45] else [43])
                        ++ Num.of_N (Z.to_N (Z.abs e)) ++ rest)
                   = Some (e, rest)).
    { destruct (Z.ltb_spec e 0) as [He|He]; cbn [app Parse.exponent N.eqb Pos.eqb orb];
        rewrite (exponent_digits_of_N _ _ rest Ht); do 2 f_equal; lia. }
    destruct ds as [|d2 ds'].
    + change (Num.show_digits [d]) with [48 + d].
      rewrite <- ?app_assoc; cbn [app].
      rewrite number_token_sign by exact Hd9.
      rewrite (number_after_nonzero neg d _ [] _ Hd)
        by (apply span_digits_stop; reflexivity).
      cbn [Parse.fraction]. rewrite Hexp.
      rewrite (of_parts_canonical neg _ _ e d [] 0 0 Hd Hl) by reflexivity.
      do 3 f_equal. cbn [length Num.digits_of]. subst e. lia.
    + change (Num.show_digits [d]) with [48 + d].
      rewrite <- ?app_assoc; cbn [app].
      rewrite number_token_sign by exact Hd9.
      rewrite (number_after_nonzero neg d _ [] _ Hd)
        by (apply span_digits_stop; reflexivity).
      unfold Parse.fraction.
      rewrite span_digits_app by exact Hshow.
      rewrite span_digits_stop by reflexivity. cbn [fst snd]. rewrite app_nil_r.
      change (Num.show_digits (d2 :: ds'))
        with ((48 + d2) :: Num.show_digits ds') at 1.
      cbv iota. rewrite Hexp. rewrite digits_of_show.
      rewrite (of_parts_canonical neg _ _ e d (d2 :: ds') 0 0 Hd Hl)
        by (cbn [Num.digits_of repeat app]; now rewrite app_nil_r).
      do 3 f_equal. cbn [length Num.digits_of]. subst e. lia.
Qed.

(** ** Documents through JSON *)

Lemma json_nested_ind (P : json -> Prop) :
  P JNull -> (forall b, P (JBool b)) -> (forall x, P (JNumber x)) ->
  (forall s, P (JString s)) ->
  (forall elems, Forall P elems -> P (JArray elems)) ->
  (forall props, Forall (fun kv => P (snd kv)) props -> P (JObject props)) ->
  forall d, P d.
Proof.
  intros Hn Hb Hx Hs Ha Ho.
  fix IH 1. intros [ | b | x | s | elems | props].
  - exact Hn.
  - apply Hb.
  - apply Hx.
  - apply Hs.
  - apply Ha. induction elems as [|e elems IHe]; constructor;
      [apply IH | exact IHe].
  - apply Ho. induction props as [|[k v] props IHp]; constructor;
      [apply IH | exact IHp].
Qed.

Lemma canonical_array (elems : list json) :
  canonical (JArray elems) <-> Forall canonical elems.
Proof.
  cbn [canonical]. induction elems as [|e elems IH].
  - split; [constructor | trivial].
  - split.
    + intros [He Hr]. constructor; [exact He | now apply IH].
    + intros H. inversion H; subst. split; [assumption | now apply IH].
Qed.

Lemma canonical_object (props : list (jsstring * json)) :
  canonical (JObject props)
  <-> created props = props
      /\ Forall (fun kv => Forall (fun c => c < 65536) (fst kv)
                           /\ canonical (snd kv)) props.
Proof.
  cbn [canonical].
  assert (H : (fix all (l : list (jsstring * json)) : Prop :=
                 match l with
                 | [] => True
                 | (k, v) :: r =>
                     Forall (fun c => c < 65536) k /\ canonical v /\ all r
                 end) props
              <-> Forall (fun kv => Forall (fun c => c < 65536) (fst kv)
                                    /\ canonical (snd kv)) props).
  { induction props as [|[k v] props IH].
    - split; [constructor | trivial].
    - split.
      + intros (Hk & Hv & Hr). constructor; [now split | now apply IH].
      + intros H. inversion H as [|? ? [Hk Hv] Hr]; subst.
        repeat split; try assumption. now apply IH. }
  now rewrite H.
Qed.

Lemma skip_ws_not_ws (c : N) (r : jsstring) :
  Parse.is_ws c = false -> Parse.skip_ws (c :: r) = c :: r.
Proof. intros H. cbn [Parse.skip_ws]. now rewrite H. Qed.

(** A value that starts with a minus sign or a digit is a number. *)
Lemma json_value_number (fuel : nat) (c : N) (r : jsstring) :
  c = 45 \/ (48 <= c /\ c <= 57) ->
  Parse.json_value (S fuel) (c :: r)
  = match Parse.number_token (c :: r) with
    | Some (x, rest) => Parse.Parsed (JNumber x) rest
    | None => Parse.SyntaxErr
    end.
Proof.
  intros Hc. cbn [Parse.json_value].
  assert (Hw : Parse.is_ws c = false).
  { unfold Parse.is_ws. repeat (apply orb_false_iff; split); apply N.eqb_neq; lia. }
  rewrite (skip_ws_not_ws c r Hw).
  assert (E : forall n, In n [123; 91; 34; 110; 116; 102] -> (c =? n) = false).
  { intros n Hn. apply N.eqb_neq. cbn [In] in Hn. lia. }
  rewrite !E by (cbn [In]; tauto). reflexivity.
Qed.

Lemma toString_head (x : number) :
  canonical_number x ->
  exists c r, Num.toString x = c :: r /\ (c = 45 \/ (48 <= c /\ c <= 57)).
Proof.
  destruct x as [neg digits n]. unfold canonical_number, Num.toString.
  cbn [num_neg num_digits num_point]. intros [Hall Hends].
  destruct digits as [|d ds]; [exists 48, []; split; [reflexivity | lia]|].
  inversion Hall as [|? ? Hd9 _]; subst. cbv zeta.
  destruct neg; [eexists; eexists; split; [reflexivity | now left]|].
  cbn [app].
  assert (Hdig : 48 <= 48 + d /\ 48 + d <= 57) by lia.
  destruct ((Z.of_nat (length (d :: ds)) <=? n)%Z && (n <=? 21)%Z).
  { exists (48 + d). eexists. split; [reflexivity | now right]. }
  destruct ((0 <? n)%Z && (n <=? 21)%Z) eqn:B2.
  { apply andb_true_iff in B2. destruct B2 as [B2 _]. apply Z.ltb_lt in B2.
    destruct (Z.to_nat n) as [|m] eqn:Em; [lia|].
    exists (48 + d). eexists. split; [reflexivity | now right]. }
  destruct ((-6 <? n)%Z && (n <=? 0)%Z).
  { exists 48. eexists. split; [reflexivity | lia]. }
  exists (48 + d). destruct ds; eexists; (split; [reflexivity | now right]).
Qed.

Lemma number_reads_back (x : number) : canonical_number x -> reads_back (JNumber x).
Proof.
  intros Hx [|fuel] rest Ht; [now left|]. right.
  cbn [JSON_stringify].
  destruct (toString_head x Hx) as (c & r & E & Hc).
  pose proof (number_token_toString x rest Hx Ht) as Hn.
  rewrite E in *. cbn [app] in *.
  now rewrite (json_value_number fuel c (r ++ rest) Hc), Hn.
Qed.

Lemma string_reads_back (s : jsstring) :
  Forall (fun c => c < 65536) s -> reads_back (JString s).
Proof.
  intros Hs [|fuel] rest Ht; [now left|]. right.
  cbn [JSON_stringify]. unfold QuoteJSONString. rewrite <- !app_assoc.
  cbn [app Parse.json_value Parse.skip_ws Parse.is_ws N.eqb Pos.eqb orb].
  now rewrite (string_chars_quote s rest Hs).
Qed.

Lemma keyword_reads_back (d : json) :
  d = JNull \/ d = JBool true \/ d = JBool false -> reads_back d.
Proof.
  intros Hd [|fuel] rest Ht; [now left|]. right.
  destruct Hd as [-> | [-> | ->]]; reflexivity.
Qed.

(** The first code unit of a serialisation starts a value: it is no white
    space and closes nothing. *)
Lemma stringify_head (d : json) :
  canonical d ->
  exists c r,
    JSON_stringify d = c :: r
    /\ Parse.is_ws c = false /\ c <> 93 /\ c <> 125.
Proof.
  destruct d as [ | [|] | x | s | elems | props]; intros Hd; cbn [JSON_stringify].
  - exists 110. eexists. repeat split; discriminate.
  - exists 116. eexists. repeat split; discriminate.
  - exists 102. eexists. repeat split; discriminate.
  - destruct (toString_head x Hd) as (c & r & E & Hc).
    exists c, r. split; [exact E|].
    unfold Parse.is_ws.
    repeat split; try lia.
    repeat (apply orb_false_iff; split); apply N.eqb_neq; lia.
  - exists 34. eexists. repeat split; discriminate.
  - exists 91. eexists. repeat split; discriminate.
  - exists 123. eexists. repeat split; discriminate.
Qed.

Lemma join_cons2 (sep p q : jsstring) (rest : list jsstring) :
  join sep (p :: q :: rest) = p ++ sep ++ join sep (q :: rest).
Proof. reflexivity. Qed.

(** The elements of an array, after its opening bracket. *)
Lemma elements_read_back (e : json) (elems : list json) :
  Forall reads_back (e :: elems) ->
  forall fuel acc rest,
    Parse.elements fuel
      (join [44] (map JSON_stringify (e :: elems)) ++ 93 :: rest) acc
    = Parse.OutOfFuel
    \/ Parse.elements fuel
         (join [44] (map JSON_stringify (e :: elems)) ++ 93 :: rest) acc
       = Parse.Parsed (JArray (acc ++ e :: elems)) rest.
Proof.
  revert e. induction elems as [|e2 elems IH]; intros e He [|fuel] acc rest;
    try (now left); inversion He as [|? ? H1 H2]; subst.
  - cbn [map join Parse.elements].
    destruct (H1 fuel (93 :: rest)) as [E|E];
      [cbn; tauto | rewrite E; now left | rewrite E; right].
    reflexivity.
  - cbn [map]. rewrite join_cons2. rewrite <- !app_assoc. cbn [app Parse.elements].
    destruct (H1 fuel (44 :: join [44] (JSON_stringify e2 :: map JSON_stringify elems)
                          ++ 93 :: rest)) as [E|E];
      [cbn; tauto | rewrite E; now left | rewrite E].
    cbn [Parse.skip_ws Parse.is_ws N.eqb Pos.eqb orb].
    specialize (IH e2 H2 fuel (acc ++ [e]) rest).
    cbn [map] in IH. rewrite <- app_assoc in IH. exact IH.
Qed.

(** The members of an object, after its opening brace. *)
Lemma members_read_back (kv : jsstring * json) (props : list (jsstring * json)) :
  Forall (fun kv => Forall (fun c => c < 65536) (fst kv) /\ reads_back (snd kv))
    (kv :: props) ->
  forall fuel acc rest,
    Parse.members fuel (join [44] (map member_text (kv :: props)) ++ 125 :: rest) acc
    = Parse.OutOfFuel
    \/ Parse.members fuel
         (join [44] (map member_text (kv :: props)) ++ 125 :: rest) acc
       = Parse.Parsed
           (JObject
              (fold_left (fun acc kv => CreateDataProperty acc (fst kv) (snd kv))
                 (kv :: props) acc))
           rest.
Proof.
  revert kv. induction props as [|kv2 props IH]; intros [k v] H [|fuel] acc rest;
    try (now left); inversion H as [|? ? [Hk Hv] H2]; subst;
    cbn [fst snd] in Hk, Hv.
  - cbn [map join]. unfold member_text, QuoteJSONString. cbn [fst snd].
    rewrite <- !app_assoc.
    cbn [app Parse.members Parse.skip_ws Parse.is_ws N.eqb Pos.eqb orb].
    rewrite (string_chars_quote k _ Hk).
    cbn [Parse.skip_ws Parse.is_ws N.eqb Pos.eqb orb].
    destruct (Hv fuel (125 :: rest)) as [E|E];
      [cbn; tauto | rewrite E; now left | rewrite E; right].
    reflexivity.
  - cbn [map]. rewrite join_cons2.
    pose proof (IH kv2 H2 fuel (CreateDataProperty acc k v) rest) as IH'.
    cbn [map] in IH'.
    set (later := join [44] (member_text kv2 :: map member_text props)) in *.
    unfold member_text, QuoteJSONString. cbn [fst snd].
    rewrite <- !app_assoc.
    cbn [app Parse.members Parse.skip_ws Parse.is_ws N.eqb Pos.eqb orb].
    rewrite (string_chars_quote k _ Hk).
    cbn [Parse.skip_ws Parse.is_ws N.eqb Pos.eqb orb].
    destruct (Hv fuel (44 :: later ++ 125 :: rest)) as [E|E];
      [cbn; tauto | rewrite E; now left | rewrite E].
    cbn [Parse.skip_ws Parse.is_ws N.eqb Pos.eqb orb].
    exact IH'.
Qed.

Lemma stringify_object (props : list (jsstring * json)) :
  JSON_stringify (JObject props)
  = [123] ++ join [44] (map member_text props) ++ [125].
Proof.
  cbn [JSON_stringify]. do 3 f_equal.
  apply map_ext. now intros [k v].
Qed.

(** Every canonical document is read back from its serialisation. *)
Lemma canonical_reads_back (d : json) : canonical d -> reads_back d.
Proof.
  induction d as [ | b | x | s | elems IH | props IH] using json_nested_ind;
    intros Hd.
  - apply keyword_reads_back. tauto.
  - apply keyword_reads_back. destruct b; tauto.
  - now apply number_reads_back.
  - now apply string_reads_back.
  - apply canonical_array in Hd.
    assert (Hall : Forall reads_back elems).
    { rewrite Forall_forall in *. intros e He. apply IH; auto. }
    intros [|fuel] rest Ht; [now left|].
    cbn [JSON_stringify]. rewrite <- !app_assoc.
    cbn [app Parse.json_value Parse.skip_ws Parse.is_ws N.eqb Pos.eqb orb].
    destruct elems as [|e elems]; [right; reflexivity|].
    inversion Hd as [|? ? He _]; subst.
    destruct (stringify_head e He) as (c & r & E & Hw & H93 & _).
    assert (Hs : exists t,
               join [44] (map JSON_stringify (e :: elems)) ++ 93 :: rest = c :: t).
    { cbn [map]. destruct elems; cbn [join map]; rewrite E; eexists; reflexivity. }
    destruct Hs as [t Hs]. rewrite Hs, (skip_ws_not_ws c t Hw).
    apply N.eqb_neq in H93. rewrite H93. rewrite <- Hs.
    exact (elements_read_back e elems Hall fuel [] rest).
  - apply canonical_object in Hd. destruct Hd as [Hcreated Hd].
    assert (Hall : Forall (fun kv => Forall (fun c => c < 65536) (fst kv)
                                     /\ reads_back (snd kv)) props).
    { rewrite Forall_forall in *. intros kv Hkv.
      destruct (Hd kv Hkv) as [Hk Hv]. split; [exact Hk | apply IH; auto]. }
    intros [|fuel] rest Ht; [now left|].
    rewrite stringify_object.
    rewrite <- !app_assoc.
    cbn [app Parse.json_value Parse.skip_ws Parse.is_ws N.eqb Pos.eqb orb].
    destruct props as [|[k v] props]; [right; reflexivity|].
    assert (Hs : exists t,
               join [44] (map member_text ((k, v) :: props)) ++ 125 :: rest
               = 34 :: t).
    { cbn [map]. destruct props; cbn [join map]; eexists; reflexivity. }
    destruct Hs as [t Hs]. rewrite Hs.
    cbn [Parse.skip_ws Parse.is_ws N.eqb Pos.eqb orb]. rewrite <- Hs.
    pose proof (members_read_back (k, v) props Hall fuel [] rest) as Hm.
    unfold created in Hcreated. rewrite Hcreated in Hm. exact Hm.
Qed.

(** [JSON.parse] undoes [JSON.stringify] on canonical documents. *)
Lemma JSON_parse_stringify (d : json) :
  canonical d -> JSON_parse (JSON_stringify d) = inr d.
Proof.
  intros Hd. unfold JSON_parse.
  pose proof (JSON_parse_fuel (JSON_stringify d)) as Hfuel.
  destruct (canonical_reads_back d Hd (Parse.fuel_for (JSON_stringify d)) [] I)
    as [E|E]; rewrite app_nil_r in E; [contradiction|].
  now rewrite E.
Qed.

(** ** The round trip of any document *)

(** The serialisation of an array or an object is a block. *)
Lemma container_is_a_block (d : json) :
  is_container d ->
  exists o c mid, closer o = Some c /\ JSON_stringify d = o :: mid ++ [c].
Proof.
  destruct d as [ | | | | elems | props]; try contradiction; intros _.
  - exists 91, 93. eexists. split; [reflexivity|]. cbn [JSON_stringify app].
    reflexivity.
  - exists 123, 125. eexists. split; [reflexivity|]. cbn [JSON_stringify app].
    reflexivity.
Qed.

(** What is left of the prompt of the built-in provider once the fences
    are gone. *)
Lemma strip_fences_of_prompt (jsonString mid : jsstring) (o c : N) :
  closer o = Some c ->
  jsonString = o :: mid ++ [c] ->
  ~ In 96 jsonString ->
  trim (strip_fences (geminiUserPrompt jsonString))
  = jsq "Please translate the following JSON:\njson\n" ++ jsonString.
Proof.
  intros Hc Hs H96. unfold strip_fences.
  assert (Hcl : c = 125 \/ c = 93)
    by (destruct (closer_cases o c Hc) as [[_ ->]|[_ ->]]; tauto).
  assert (E1 : geminiUserPrompt jsonString
               = jsq "Please translate the following JSON:\n"
                   ++ (10 :: 96 :: 96 :: 96
                          :: (jsq "json\n" ++ jsonString) ++ jsq "\n```"))
    by (vm_compute; reflexivity).
  assert (E2 : strip_from 0 (jsq "\n```") = []) by (vm_compute; reflexivity).
  assert (E3 : jsq "Please translate the following JSON:\n"
                 ++ jsq "json\n" ++ o :: mid ++ [c]
               = 80 :: (jsq "lease translate the following JSON:\njson\n"
                          ++ o :: mid) ++ [c])
    by (vm_compute; reflexivity).
  assert (E4 : jsq "Please translate the following JSON:\njson\n"
                 ++ o :: mid ++ [c]
               = 80 :: (jsq "lease translate the following JSON:\njson\n"
                          ++ o :: mid) ++ [c])
    by (vm_compute; reflexivity).
  assert (N1 : ~ In 96 (jsq "Please translate the following JSON:\n"))
    by (apply not_in_existsb; vm_compute; reflexivity).
  assert (N2 : ~ In 96 (jsq "json\n"))
    by (apply not_in_existsb; vm_compute; reflexivity).
  rewrite E1.
  rewrite strip_from_plain; [| exact N1 | intros a' b' _; discriminate].
  rewrite strip_from_line_fence.
  rewrite strip_from_plain.
  - rewrite E2, app_nil_r, Hs.
    refine (eq_trans (f_equal trim E3) (eq_trans _ (eq_sym E4))).
    apply trim_between; [vm_compute; reflexivity|].
    destruct Hcl as [-> | ->]; vm_compute; reflexivity.
  - intros Hin. apply in_app_or in Hin. tauto.
  - intros a' b' Ha. exfalso.
    rewrite Hs in Ha.
    replace (jsq "json\n" ++ o :: mid ++ [c])
      with ((jsq "json\n" ++ o :: mid) ++ [c]) in Ha
      by (now rewrite <- app_assoc).
    apply app_inj_tail in Ha. destruct Ha as [_ Ha].
    destruct Hcl as [-> | ->]; discriminate Ha.
Qed.

Lemma second_retry_returns (body : N -> SecondCopy.M json)
  (evs : list SecondCopy.event) (v : json) :
  body 1 = (evs, inr v) ->
  SecondCopy.retry body attempt_numbers None = (evs, Returned v).
Proof.
  intros H. change attempt_numbers with [1; 2; 3].
  cbn [SecondCopy.retry]. now rewrite H.
Qed.

Lemma geminiUserPrompt_not_empty (jsonString : jsstring) :
  exists u t, geminiUserPrompt jsonString = u :: t.
Proof.
  exists 80,
    (jsq "lease translate the following JSON:\n\n```json\n"
       ++ jsonString ++ jsq "\n```").
  vm_compute. reflexivity.
Qed.

(** X14. The round trip of C8 for every document: when the client library
    echoes the prompt it is given, translateJson with the built-in provider
    returns the document it was given, at the first attempt, for every
    array or object that JSON.parse can build and whose serialisation holds
    no backquote; the second copy returns it too. Both conditions matter: a
    string that holds a fence comes back without it, and a document that is
    a bare string fails all three attempts. *)
Theorem translateJson_echo_round_trip (engine : exn -> jsstring) (h : host)
  (jsonData : json) (customPrompt : option jsstring)
  (apiSettings : option ApiSettings) :
  (forall g, generateContent h 1 g = inr (Some (gen_contents g))) ->
  (apiSettings = None
   \/ exists settings, apiSettings = Some settings /\ provider settings = GEMINI) ->
  canonical jsonData ->
  is_container jsonData ->
  ~ In 96 (JSON_stringify jsonData) ->
  translateJson h jsonData customPrompt apiSettings
  = ([Generate
        (mkGenerate modelId (geminiUserPrompt (JSON_stringify jsonData))
           (systemInstruction customPrompt) (js "application/json"))],
     inr jsonData)
  /\ SecondCopy.translateJson engine h jsonData customPrompt apiSettings
     = ([SecondCopy.Generate
           (mkGenerate modelId (geminiUserPrompt (JSON_stringify jsonData))
              (systemInstruction customPrompt) (js "application/json"))],
        inr jsonData)
  /\ snd (translateJson echo_host (JObject [(js "k", JString (js "```"))])
            None None)
     = inr (JObject [(js "k", JString [])])
  /\ snd (translateJson echo_host (JString (js "v")) None None)
     = inl SyntaxError.
Proof.
  intros Hecho Hprov Hcan Hcont H96.
  destruct (container_is_a_block jsonData Hcont) as (o & c & mid & Hc & Hs).
  pose proof (strip_fences_of_prompt _ mid o c Hc Hs H96) as Hclean.
  assert (Hpre : ~ In 123 (jsq "Please translate the following JSON:\njson\n")
                 /\ ~ In 91 (jsq "Please translate the following JSON:\njson\n"))
    by (split; apply not_in_existsb; vm_compute; reflexivity).
  destruct Hpre as [P1 P2].
  destruct (recovery_of_block
              (jsq "Please translate the following JSON:\njson\n") mid [] o c
              Hc P1 P2 (fun H => H) (fun H => H)) as [Hfirst Hsecond].
  rewrite app_nil_r, <- Hs, <- Hclean in Hfirst, Hsecond.
  assert (Hone : cleanResponse (geminiUserPrompt (JSON_stringify jsonData))
                 = JSON_stringify jsonData).
  { unfold cleanResponse. cbv zeta. rewrite Hfirst. reflexivity. }
  assert (Htwo : SecondCopy.cleanResponse
                   (geminiUserPrompt (JSON_stringify jsonData))
                 = JSON_stringify jsonData).
  { rewrite second_copy_recovery_eq. exact Hsecond. }
  destruct (geminiUserPrompt_not_empty (JSON_stringify jsonData))
    as (u & t & Hne).
  assert (Hsel :
    match apiSettings with
    | Some settings =>
        match provider settings with
        | GEMINI => true
        | CUSTOM => false
        end
    | None => true
    end = true).
  { destruct Hprov as [->|(s & -> & Hp)]; [reflexivity | now rewrite Hp]. }
  split; [|split; [|split; vm_compute; reflexivity]].
  - pose proof (translateJson_cases h jsonData customPrompt apiSettings) as Hcases.
    cbv zeta in Hcases. rewrite Hcases. clear Hcases.
    assert (H1 : attempt_of h jsonData customPrompt apiSettings 1
                 = ([Generate
                       (mkGenerate modelId
                          (geminiUserPrompt (JSON_stringify jsonData))
                          (systemInstruction customPrompt)
                          (js "application/json"))],
                    inr jsonData)).
    { unfold attempt_of, attemptOnce, invokeAdapter.
      destruct apiSettings as [settings|]; [destruct (provider settings)|];
        try discriminate; rewrite Hecho; cbn [gen_contents];
        unfold emit, bind, ret, parse_or_throw; rewrite Hne, <- Hne, Hone;
        rewrite (JSON_parse_stringify jsonData Hcan); reflexivity. }
    now rewrite H1.
  - unfold SecondCopy.translateJson.
    rewrite (second_retry_returns _
               [SecondCopy.Generate
                  (mkGenerate modelId (geminiUserPrompt (JSON_stringify jsonData))
                     (systemInstruction customPrompt) (js "application/json"))]
               jsonData); [reflexivity|].
    unfold SecondCopy.attemptOnce, SecondCopy.invokeAdapter.
    destruct apiSettings as [settings|]; [destruct (provider settings)|];
      try discriminate; rewrite Hecho; cbn [gen_contents];
      unfold SecondCopy.emit, SecondCopy.bind, SecondCopy.ret;
      rewrite Hne, <- Hne, Htwo;
      rewrite (JSON_parse_stringify jsonData Hcan); reflexivity.
Qed.

Lemma units_are_16_bit (s : jsstring) :
  forallb (fun c => c <? 65536) s = true -> Forall (fun c => c < 65536) s.
Proof.
  intros H. apply Forall_forall. intros c Hc.
  apply N.ltb_lt. revert c Hc. now apply forallb_forall.
Qed.

Lemma digits_are_decimal (ds : list N) :
  forallb (fun d => d <=? 9) ds = true -> Forall (fun d => d <= 9) ds.
Proof.
  intros H. apply Forall_forall. intros c Hc.
  apply N.leb_le. revert c Hc. now apply forallb_forall.
Qed.

(** A closed document is canonical, by computation. *)
Ltac canonical_value :=
  cbn [fst snd];
  lazymatch goal with
  | |- canonical (JArray _) =>
      apply canonical_array;
      repeat (apply Forall_cons; [canonical_value|]); apply Forall_nil
  | |- canonical (JObject _) =>
      apply canonical_object;
      split;
      [ vm_compute; reflexivity
      | repeat (apply Forall_cons;
                [split; [apply units_are_16_bit; vm_compute; reflexivity
                        | canonical_value]|]);
        apply Forall_nil ]
  | |- canonical (JString _) =>
      cbn [canonical]; apply units_are_16_bit; vm_compute; reflexivity
  | |- canonical (JNumber _) =>
      cbn [canonical];
      split; [ apply digits_are_decimal; vm_compute; reflexivity
             | vm_compute; split; first [discriminate | reflexivity] ]
  | |- canonical _ => exact I
  end.

Lemma song_document_is_canonical : canonical song_document.
Proof. unfold song_document. canonical_value. Qed.

Lemma translateJson_echo_round_trip_witness :
  snd (translateJson echo_host song_document None None) = inr song_document.
Proof.
  assert (H96 : ~ In 96 (JSON_stringify song_document))
    by (apply not_in_existsb; vm_compute; reflexivity).
  pose proof (translateJson_echo_round_trip (fun _ => []) echo_host song_document
                None None (fun g => eq_refl) (or_introl eq_refl)
                song_document_is_canonical I H96) as H.
  exact (f_equal snd (proj1 H)).
Defined.

(** ** The presets through callCustomApi *)

Lemma coze_body_split (prompt : jsstring) :
  substitute_spec (preset_body (PRESETS COZE_V2)) prompt
  = jsq "{\n  'bot_id': 'YOUR_BOT_ID',\n  'user': 'user_123456',\n  'query': "
      ++ QuoteJSONString prompt ++ jsq ",\n  'stream': false\n}".
Proof.
  unfold substitute_spec. generalize (QuoteJSONString prompt). intros q.
  vm_compute. reflexivity.
Qed.

Lemma openai_body_split (prompt : jsstring) :
  substitute_spec (preset_body (PRESETS OPENAI)) prompt
  = jsq "{\n  'model': 'gpt-3.5-turbo',\n  'messages': [\n    { 'role': 'user', 'content': "
      ++ QuoteJSONString prompt ++ jsq " }\n  ]\n}".
Proof.
  unfold substitute_spec. generalize (QuoteJSONString prompt). intros q.
  vm_compute. reflexivity.
Qed.

(** What [JSON.parse] answers, from what the parser answers whenever it is
    not cut short. *)
Lemma JSON_parse_unless_cut (text : jsstring) (expected : Parse.result json) :
  expected <> Parse.OutOfFuel ->
  (forall fuel,
     Parse.json_value fuel text = Parse.OutOfFuel
     \/ Parse.json_value fuel text = expected) ->
  JSON_parse text
  = match expected with
    | Parse.Parsed v rest =>
        match Parse.skip_ws rest with
        | [] => inr v
        | _ => inl SyntaxError
        end
    | _ => inl SyntaxError
    end.
Proof.
  intros Hne H. unfold JSON_parse.
  destruct (H (Parse.fuel_for text)) as [E|E].
  - now contradiction (JSON_parse_fuel text).
  - rewrite E. reflexivity.
Qed.

(** One step of the parser on a text whose head is spelled out: unfold the
    call when there is fuel for it, and ask for fuel when there is none. *)
Ltac parser_step :=
  first
    [ progress cbn [Parse.json_value Parse.members Parse.elements Parse.skip_ws
                    Parse.is_ws N.eqb Pos.eqb orb Parse.string_chars
                    Parse.simple_escape N.ltb N.compare Pos.compare
                    Pos.compare_cont Parse.push Parse.keyword strip_prefix]
    | match goal with
      | |- context [js ?lit] =>
          let v := eval vm_compute in (js lit) in change (js lit) with v
      end
    | match goal with
      | |- context [Parse.json_value ?f (_ :: _)] =>
          is_var f; destruct f as [|f]; [now left|]
      | |- context [Parse.members ?f (_ :: _) _] =>
          is_var f; destruct f as [|f]; [now left|]
      | |- context [Parse.elements ?f (_ :: _) _] =>
          is_var f; destruct f as [|f]; [now left|]
      end ].

(** Reading a text that holds one encoded string between two constants:
    the constants are spelled out, the parser is run up to the string, the
    string is read by [string_chars_quote], and the parser is run on. *)
Ltac read_through s F :=
  let b := fresh "b" in
  let Eb := fresh "Eb" in
  unfold QuoteJSONString;
  remember (Quote.body s) as b eqn:Eb;
  rewrite <- !app_assoc;
  match goal with
  | |- context [?p ++ [34] ++ b ++ [34] ++ ?q] =>
      let p' := eval vm_compute in p in
      let q' := eval vm_compute in q in
      replace (p ++ [34] ++ b ++ [34] ++ q)
        with (p' ++ 34 :: b ++ 34 :: q')
        by (vm_compute; reflexivity)
  end;
  cbn [app];
  repeat parser_step;
  subst b; rewrite (string_chars_quote s _ F);
  repeat parser_step.

Lemma parse_coze_body (s : jsstring) :
  Forall (fun c => c < 65536) s ->
  JSON_parse
    (jsq "{\n  'bot_id': 'YOUR_BOT_ID',\n  'user': 'user_123456',\n  'query': "
       ++ QuoteJSONString s ++ jsq ",\n  'stream': false\n}")
  = inr (JObject
           [(js "bot_id", JString (js "YOUR_BOT_ID"));
            (js "user", JString (js "user_123456"));
            (js "query", JString s);
            (js "stream", JBool false)]).
Proof.
  intro F.
  rewrite (JSON_parse_unless_cut _
             (Parse.Parsed
                (JObject
                   [(js "bot_id", JString (js "YOUR_BOT_ID"));
                    (js "user", JString (js "user_123456"));
                    (js "query", JString s);
                    (js "stream", JBool false)]) []));
    [reflexivity | discriminate |].
  intros fuel. read_through s F.
  right. vm_compute. reflexivity.
Qed.

Lemma parse_openai_body (s : jsstring) :
  Forall (fun c => c < 65536) s ->
  JSON_parse
    (jsq "{\n  'model': 'gpt-3.5-turbo',\n  'messages': [\n    { 'role': 'user', 'content': "
       ++ QuoteJSONString s ++ jsq " }\n  ]\n}")
  = inr (JObject
           [(js "model", JString (js "gpt-3.5-turbo"));
            (js "messages",
             JArray [JObject [(js "role", JString (js "user"));
                              (js "content", JString s)]])]).
Proof.
  intro F.
  rewrite (JSON_parse_unless_cut _
             (Parse.Parsed
                (JObject
                   [(js "model", JString (js "gpt-3.5-turbo"));
                    (js "messages",
                     JArray [JObject [(js "role", JString (js "user"));
                                      (js "content", JString s)]])]) []));
    [reflexivity | discriminate |].
  intros fuel. read_through s F.
  right. vm_compute. reflexivity.
Qed.

(** X15. Each preset of the settings form gives callCustomApi settings that
    work as they stand: the header text parses, and for every prompt of
    16-bit code units with no dollar sign the request is a POST to the
    address of the preset whose body is a JSON object that holds the prompt
    where the placeholder stood, under query for the first preset and as
    the content of the one message for the second. *)
Theorem preset_request_holds_the_prompt (h : host) (k : N) (prompt : jsstring)
  (kind : preset_type) :
  ~ In 36 prompt ->
  Forall (fun c => c < 65536) prompt ->
  let settings := preset_settings kind in
  let body := prepareBody (customBodyTemplate settings) prompt in
  JSON_parse body
  = inr (match kind with
         | COZE_V2 =>
             JObject
               [(js "bot_id", JString (js "YOUR_BOT_ID"));
                (js "user", JString (js "user_123456"));
                (js "query", JString prompt);
                (js "stream", JBool false)]
         | OPENAI =>
             JObject
               [(js "model", JString (js "gpt-3.5-turbo"));
                (js "messages",
                 JArray [JObject [(js "role", JString (js "user"));
                                  (js "content", JString prompt)]])]
         end)
  /\ exists headers evs outcome,
       JSON_parse (customHeaders settings) = inr headers
       /\ callCustomApi h k prompt settings
          = (Fetch (mkRequest (customUrl settings) POST headers (Some body)) :: evs,
             outcome).
Proof.
  intros Hd F. cbv zeta. split.
  - rewrite prepareBody_without_dollar by exact Hd.
    destruct kind; cbn [preset_settings customBodyTemplate].
    + rewrite coze_body_split. now apply parse_coze_body.
    + rewrite openai_body_split. now apply parse_openai_body.
  - assert (Hh : exists headers,
               JSON_parse (customHeaders (preset_settings kind)) = inr headers)
      by (destruct kind; eexists; vm_compute; reflexivity).
    destruct Hh as [headers Hh].
    exists headers.
    rewrite (callCustomApi_sends h k prompt (preset_settings kind) headers Hh).
    cbv zeta.
    assert (Hreq : request_of (preset_settings kind) headers prompt
                   = mkRequest (customUrl (preset_settings kind)) POST headers
                       (Some (prepareBody
                                (customBodyTemplate (preset_settings kind)) prompt)))
      by (destruct kind; reflexivity).
    rewrite Hreq.
    destruct (fetch h k _) as [e|r]; [eexists; eexists; split; [exact Hh | reflexivity]|].
    destruct (resp_ok r); [|eexists; eexists; split; [exact Hh | reflexivity]].
    destruct (JSON_parse (resp_body r));
      eexists; eexists; (split; [exact Hh | reflexivity]).
Qed.

Lemma preset_request_holds_the_prompt_witness :
  JSON_parse
    (prepareBody (customBodyTemplate (preset_settings OPENAI)) (jsq "say 'hi'\n"))
  = inr (JObject
           [(js "model", JString (js "gpt-3.5-turbo"));
            (js "messages",
             JArray [JObject [(js "role", JString (js "user"));
                              (js "content", JString (jsq "say 'hi'\n"))]])]).
Proof.
  assert (Hd : ~ In 36 (jsq "say 'hi'\n"))
    by (apply not_in_existsb; vm_compute; reflexivity).
  assert (F : Forall (fun c => c < 65536) (jsq "say 'hi'\n"))
    by (apply units_are_16_bit; vm_compute; reflexivity).
  exact (proj1 (preset_request_holds_the_prompt (constant_host [] None) 1
                  (jsq "say 'hi'\n") OPENAI Hd F)).
Defined.
